(** * Remote SSH connection engine of Theia's [remote] package

    A shallow embedding of
    - [packages/remote/src/node/ssh/remote-ssh-connection-provider.ts]
      (the authentication handler, [exec], [execPartial], [buildCmd] and the
      disconnect handler installed by [establishConnection]),
    - the remote setup service ([setup], [retry], [detectRemotePlatform],
      [dirExistsRemote], ...), and
    - the express proxy contribution ([configure], [setupProxyRouter],
      [spliceRouter]).

    JavaScript strings are modelled as [string], promises as an [Outcome]
    (resolved, rejected or still pending), closure variables and the objects
    the code mutates as explicit state. *)

From Stdlib Require Import ZArith NArith Lia Bool Ascii String List.
From stdpp Require Import base option strings list gmap.
Import ListNotations.

Local Open Scope string_scope.
Local Open Scope list_scope.

(** ** JavaScript strings *)

(** The double quote and the line feed, which a string literal cannot hold. *)
Definition dq : string := String (ascii_of_nat 34) EmptyString.
Definition nl : string := String (ascii_of_nat 10) EmptyString.

(** Truthiness of a string: every string but the empty one. *)
Definition truthy (s : string) : bool :=
  match s with
  | EmptyString => false
  | String _ _ => true
  end.

(** [hay.includes(needle)]. *)
Fixpoint includes (needle hay : string) : bool :=
  String.prefix needle hay ||
  match hay with
  | EmptyString => false
  | String _ rest => includes needle rest
  end.

(** [segments.join(separator)]. *)
Fixpoint join (separator : string) (segments : list string) : string :=
  match segments with
  | [] => ""
  | [s] => s
  | s :: rest => s +:+ separator +:+ join separator rest
  end.

(** The [replace] of [buildCmd]: a backslash before every double quote. *)
Fixpoint escapeQuotes (s : string) : string :=
  match s with
  | EmptyString => EmptyString
  | String c rest =>
      if Ascii.eqb c (ascii_of_nat 34)
      then String "\" (String c (escapeQuotes rest))
      else String c (escapeQuotes rest)
  end.

(** White space as [String.prototype.trim] sees it, on one-byte characters:
    tab, line feed, vertical tab, form feed, carriage return and space. *)
Definition isWhiteSpace (c : ascii) : bool :=
  let n := nat_of_ascii c in
  ((9 <=? n)%nat && (n <=? 13)%nat) || (n =? 32)%nat.

Fixpoint trimStart (s : string) : string :=
  match s with
  | EmptyString => EmptyString
  | String c rest => if isWhiteSpace c then trimStart rest else s
  end.

(** Drops trailing white space: a character is kept when it is not white
    space or when something is kept after it. *)
Fixpoint trimEnd (s : string) : string :=
  match s with
  | EmptyString => EmptyString
  | String c rest =>
      match trimEnd rest with
      | EmptyString => if isWhiteSpace c then EmptyString else String c EmptyString
      | kept => String c kept
      end
  end.

Definition trim (s : string) : string := trimEnd (trimStart s).

(** ** JavaScript numbers

    The numbers of the program are doubles.  The only ones it computes are
    [Number(digits)] of a run of decimal digits: a non-negative integer that
    a double holds exactly, or [Infinity]. *)
Inductive JSNumber :=
| Finite (n : N)
| Infinity.

Coercion Finite : N >-> JSNumber.

(** The double nearest to the integer [n], ties going to the even
    significand: [n] itself while it has at most 53 binary digits; beyond
    that the [e] digits below the 53 leading ones are rounded away, and what
    reaches 2^1024 is [Infinity]. *)
Definition toDouble (n : N) : JSNumber :=
  if (N.size n <=? 53)%N then Finite n
  else
    let e := (N.size n - 53)%N in
    let q := N.shiftr n e in
    let r := N.land n (N.ones e) in
    let half := N.shiftl 1 (e - 1) in
    let q' := if (half <? r)%N || ((r =? half)%N && N.odd q) then (q + 1)%N else q in
    let v := N.shiftl q' e in
    if (1024 <? N.size v)%N then Infinity else Finite v.

(** ** Execution results and promises *)

(** [RemoteExecResult]. *)
Record RemoteExecResult := mkResult { stdout : string; stderr : string }.

(** The settlement of a promise; [Pending] is a promise that never settles. *)
Inductive Outcome (A : Type) : Type :=
| Resolved (a : A)
| Rejected (err : string)
| Pending.
Arguments Resolved {A} a.
Arguments Rejected {A} err.
Arguments Pending {A}.

(** ** The exec channel

    What the stream of [client.exec] emits: data on the stream itself
    (stdout), data on its [stderr] member, and [close].  The events reach
    the listeners in turns of the event loop: those of one turn are handled
    one after the other before any reaction of a promise runs. *)
Inductive StreamEvent :=
| OnData (data : string)
| OnStderrData (data : string)
| OnClose.

(** One chunk of output, on either stream. *)
Inductive Chunk :=
| Out (data : string)
| Err (data : string).

Definition chunkEvent (c : Chunk) : StreamEvent :=
  match c with
  | Out d => OnData d
  | Err d => OnStderrData d
  end.

(** The field [state] of a [Deferred].  The class is the one of
    [@theia/core] (common/promise-util), which the connection provider
    imports: [resolve] settles the promise at once, the first call only;
    [state] is set in a reaction of that promise, so it still reads
    'unresolved' until the events of the running turn have been handled. *)
Inductive DeferredState :=
| state_unresolved
| state_resolved.

(** The variables of one [exec] or [execPartial] call: the two buffers,
    what the promise of the deferred was resolved with ([None] before the
    first [resolve]), the [state] of the deferred and, as a ghost field, the
    arguments of every call of the tester so far, oldest first. *)
Record Channel := mkChannel {
  ch_stdout : string;
  ch_stderr : string;
  ch_deferred : option RemoteExecResult;
  ch_state : DeferredState;
  ch_tested : list (string * string)
}.

Definition newChannel : Channel := mkChannel "" "" None state_unresolved [].

(** [deferred.resolve(v)]: only the first resolution settles the promise. *)
Definition resolve (v : RemoteExecResult) (d : option RemoteExecResult) : option RemoteExecResult :=
  match d with
  | None => Some v
  | Some _ => d
  end.

(** The reactions of the promise, which run when a turn has ended: once the
    promise is resolved, [state] becomes 'resolved'. *)
Definition runReactions (ch : Channel) : Channel :=
  match ch_deferred ch with
  | Some _ =>
      mkChannel (ch_stdout ch) (ch_stderr ch) (ch_deferred ch) state_resolved (ch_tested ch)
  | None => ch
  end.

(** The three listeners of [exec]. *)
Definition exec_on (ch : Channel) (ev : StreamEvent) : Channel :=
  match ev with
  | OnClose =>
      mkChannel (ch_stdout ch) (ch_stderr ch)
                (resolve (mkResult (ch_stdout ch) (ch_stderr ch)) (ch_deferred ch))
                (ch_state ch) (ch_tested ch)
  | OnData d =>
      mkChannel (ch_stdout ch +:+ d) (ch_stderr ch) (ch_deferred ch) (ch_state ch) (ch_tested ch)
  | OnStderrData d =>
      mkChannel (ch_stdout ch) (ch_stderr ch +:+ d) (ch_deferred ch) (ch_state ch) (ch_tested ch)
  end.

(** [RemoteExecTester]. *)
Definition RemoteExecTester := string -> string -> bool.

(** The body shared by the two data listeners of [execPartial], after the
    buffer was extended: test, and resolve on success. *)
Definition testAndResolve (tester : RemoteExecTester) (out err : string) (ch : Channel) : Channel :=
  mkChannel out err
            (if tester out err then resolve (mkResult out err) (ch_deferred ch)
             else ch_deferred ch)
            (ch_state ch)
            (ch_tested ch ++ [(out, err)]).

(** The three listeners of [execPartial], each behind its test of
    [deferred.state]. *)
Definition execPartial_on (tester : RemoteExecTester) (ch : Channel) (ev : StreamEvent) : Channel :=
  match ch_state ch with
  | state_resolved => ch
  | state_unresolved =>
      match ev with
      | OnClose =>
          mkChannel (ch_stdout ch) (ch_stderr ch)
                    (resolve (mkResult (ch_stdout ch) (ch_stderr ch)) (ch_deferred ch))
                    (ch_state ch) (ch_tested ch)
      | OnData d => testAndResolve tester (ch_stdout ch +:+ d) (ch_stderr ch) ch
      | OnStderrData d => testAndResolve tester (ch_stdout ch) (ch_stderr ch +:+ d) ch
      end
  end.

(** The listeners of [exec] do not read the state of the deferred: the
    turns make no difference to them. *)
Definition exec_events (events : list StreamEvent) : Channel :=
  fold_left exec_on events newChannel.

(** One turn of the event loop on a channel of [execPartial]: the events of
    the turn, then the reactions. *)
Definition execPartial_turn (tester : RemoteExecTester) (ch : Channel)
           (turn : list StreamEvent) : Channel :=
  runReactions (fold_left (execPartial_on tester) turn ch).

Definition execPartial_events (tester : RemoteExecTester) (turns : list (list StreamEvent))
  : Channel :=
  fold_left (execPartial_turn tester) turns newChannel.

Definition settled (d : option RemoteExecResult) : Outcome RemoteExecResult :=
  match d with
  | Some r => Resolved r
  | None => Pending
  end.

(** *** What the promise of [execPartial] is said to resolve with *)

(** The two buffers once one more chunk has arrived. *)
Definition received (r : RemoteExecResult) (c : Chunk) : RemoteExecResult :=
  match c with
  | Out d => mkResult (stdout r +:+ d) (stderr r)
  | Err d => mkResult (stdout r) (stderr r +:+ d)
  end.

(** The contents of the two buffers after the given chunks. *)
Definition accumulatedFrom (r : RemoteExecResult) (chunks : list Chunk) : RemoteExecResult :=
  fold_left received chunks r.

Definition accumulated (chunks : list Chunk) : RemoteExecResult :=
  accumulatedFrom (mkResult "" "") chunks.

(** The number of chunks received at the first moment the tester holds of
    the accumulated buffers, when there is such a moment. *)
Fixpoint firstHit (tester : RemoteExecTester) (r : RemoteExecResult)
         (chunks : list Chunk) : option nat :=
  match chunks with
  | [] => None
  | c :: rest =>
      let r' := received r c in
      if tester (stdout r') (stderr r') then Some 1%nat
      else option_map S (firstHit tester r' rest)
  end.



(** The two buffers once one more event was handled. *)
Definition eventReceived (r : RemoteExecResult) (ev : StreamEvent) : RemoteExecResult :=
  match ev with
  | OnData d => received r (Out d)
  | OnStderrData d => received r (Err d)
  | OnClose => r
  end.

Definition bufferedFrom (r : RemoteExecResult) (events : list StreamEvent) : RemoteExecResult :=
  fold_left eventReceived events r.

(** The buffers at the first event that calls for a resolution: a chunk
    after which the tester holds, or a close. *)
Fixpoint firstResolution (tester : RemoteExecTester) (r : RemoteExecResult)
         (events : list StreamEvent) : option RemoteExecResult :=
  match events with
  | [] => None
  | OnClose :: _ => Some r
  | ev :: rest =>
      let r' := eventReceived r ev in
      if tester (stdout r') (stderr r') then Some r'
      else firstResolution tester r' rest
  end.


(** The two buffers of a channel. *)
Definition buffersOf (ch : Channel) : RemoteExecResult :=
  mkResult (ch_stdout ch) (ch_stderr ch).

(** ** The processes involved, as explicit state

    [W] is the state of everything outside the program: the remote host
    behind the ssh2 client, the local file system, the network.  [Host]
    collects the operations the code calls on it. *)

(** [RemotePlatform]. *)
Inductive RemotePlatform := windows | linux | darwin.

Inductive ExecResponse :=
| ExecError (err : string)
| ExecStream (turns : list (list StreamEvent)).

Record Host (W : Type) := mkHost {
  (** [client.exec(cmd, options, callback)]: an error, or a stream and the
      events it goes on to emit, turn by turn. *)
  client_exec : string -> W -> ExecResponse * W;
  (** [sftpClient.fastPut(localPath, remotePath, ...)]; [Some err] rejects. *)
  sftp_fastPut : string -> string -> W -> option string * W;
  (** [os.tmpdir()] and [path.join] of the local machine. *)
  os_tmpdir : string;
  path_join : string -> string -> string;
  (** [fs.pathExists], [requestService.request] (the buffer it downloads)
      and [fs.writeFile]. *)
  fs_pathExists : string -> W -> bool * W;
  request : string -> W -> Outcome string * W;
  fs_writeFile : string -> string -> W -> option string * W;
  (** [copyService.copyToRemote(connection, platform, file)]; the copy
      service is a collaborator and is taken as given. *)
  copyToRemote : RemotePlatform -> string -> W -> Outcome unit * W;
  (** [applicationPackage.pck.name], [.version] and [THEIA_VERSION]. *)
  pck_name : option string;
  pck_version : option string;
  THEIA_VERSION : string
}.
Arguments mkHost {W}.
Arguments client_exec {W}.
Arguments sftp_fastPut {W}.
Arguments os_tmpdir {W}.
Arguments path_join {W}.
Arguments fs_pathExists {W}.
Arguments request {W}.
Arguments fs_writeFile {W}.
Arguments copyToRemote {W}.
Arguments pck_name {W}.
Arguments pck_version {W}.
Arguments THEIA_VERSION {W}.

(** Every call that leaves the program, in the order made. *)
Inductive Event :=
| EvReport (message : string)
| EvExec (cmd : string)
| EvFastPut (localPath remotePath : string)
| EvPathExists (path : string)
| EvRequest (url : string)
| EvWriteFile (path : string)
| EvCopyToRemote (platform : RemotePlatform) (file : string).

(** The state a run of the setup service threads: the outside world, the
    calls made so far and the connection's [remotePort] field. *)
Record St (W : Type) := mkSt {
  world : W;
  trace : list Event;
  remotePort : JSNumber
}.
Arguments mkSt {W}.
Arguments world {W}.
Arguments trace {W}.
Arguments remotePort {W}.

(** An asynchronous computation: it settles (or not) and leaves a state. *)
Definition M (W A : Type) : Type := St W -> Outcome A * St W.

Definition ret {W A} (a : A) : M W A := fun st => (Resolved a, st).

Definition throw {W A} (err : string) : M W A := fun st => (Rejected err, st).

(** [await]: the rest runs once the promise resolves; a rejection or a
    promise that never settles ends the computation there. *)
Definition bind {W A B} (c : M W A) (k : A -> M W B) : M W B :=
  fun st =>
    match c st with
    | (Resolved a, st') => k a st'
    | (Rejected err, st') => (Rejected err, st')
    | (Pending, st') => (Pending, st')
    end.

Notation "'await' x <- c ; k" := (bind c (fun x => k))
  (at level 10, x name, c at level 100, k at level 200).
Notation "'await_' c ; k" := (bind c (fun _ => k))
  (at level 10, c at level 100, k at level 200).

Definition emit {W} (e : Event) (st : St W) : St W :=
  mkSt (world st) (trace st ++ [e]) (remotePort st).

Definition setWorld {W} (w : W) (st : St W) : St W :=
  mkSt w (trace st) (remotePort st).

(** [report(message)]. *)
Definition report {W} (message : string) : M W unit :=
  fun st => (Resolved tt, emit (EvReport message) st).

(** ** [RemoteSSHConnection] *)

(** [buildCmd]: the arguments, each escaped and quoted, after the command. *)
Definition buildCmd (cmd : string) (args : list string) : string :=
  let escapedArgs := map (fun arg => dq +:+ escapeQuotes arg +:+ dq) args in
  cmd +:+ (if (0 <? length escapedArgs)%nat then " " +:+ join " " escapedArgs else "").

(** [exec]: resolves with the two buffers when the channel closes. *)
Definition exec {W} (host : Host W) (cmd : string) (args : list string) : M W RemoteExecResult :=
  fun st =>
    let cmd := buildCmd cmd args in
    let (response, w) := client_exec host cmd (world st) in
    let st' := setWorld w (emit (EvExec cmd) st) in
    match response with
    | ExecError err => (Rejected err, st')
    | ExecStream turns => (settled (ch_deferred (exec_events (concat turns))), st')
    end.

(** [execPartial]: resolves as soon as the tester holds, or on close. *)
Definition execPartial {W} (host : Host W) (cmd : string) (tester : RemoteExecTester)
           (args : list string) : M W RemoteExecResult :=
  fun st =>
    let cmd := buildCmd cmd args in
    let (response, w) := client_exec host cmd (world st) in
    let st' := setWorld w (emit (EvExec cmd) st) in
    match response with
    | ExecError err => (Rejected err, st')
    | ExecStream turns => (settled (ch_deferred (execPartial_events tester turns)), st')
    end.

(** [copy]. *)
Definition copy {W} (host : Host W) (localPath remotePath : string) : M W unit :=
  fun st =>
    let (failure, w) := sftp_fastPut host localPath remotePath (world st) in
    let st' := setWorld w (emit (EvFastPut localPath remotePath) st) in
    match failure with
    | Some err => (Rejected err, st')
    | None => (Resolved tt, st')
    end.

(** ** [RemoteSetupService] *)

Definition REMOTE_NODE_VERSION : string := "16.14.0".

(** The default of [retry]'s [times] parameter. *)
Definition retry_times : Z := 20.

Definition emptyResult : RemoteExecResult := mkResult "" "".

(** [result.stderr || result.stdout]. *)
Definition hasOutput (result : RemoteExecResult) : bool :=
  truthy (stderr result) || truthy (stdout result).

(** The loop of [retry], on the number of iterations [times-- > 0] allows. *)
Fixpoint retry_loop {W} (times : nat) (action : M W RemoteExecResult)
         (result : RemoteExecResult) : M W RemoteExecResult :=
  match times with
  | O => ret result
  | S times' =>
      await result <- action;
      if hasOutput result then ret result
      else retry_loop times' action result
  end.

(** [retry(action, times = 20)]. *)
Definition retry {W} (action : M W RemoteExecResult) (times : Z) : M W RemoteExecResult :=
  retry_loop (Z.to_nat times) action emptyResult.

(** [joinRemotePath]. *)
Definition joinRemotePath (platform : RemotePlatform) (segments : list string) : string :=
  let separator := match platform with windows => "\" | _ => "/" end in
  join separator segments.

(** The classification at the end of [detectRemotePlatform]. *)
Definition platformOf (result : RemoteExecResult) : option RemotePlatform :=
  if truthy (stderr result) then Some windows
  else if truthy (stdout result) then
    if includes "windows32" (stdout result) || includes "MINGW64" (stdout result) then Some windows
    else if includes "Linux" (stdout result) then Some linux
    else if includes "Darwin" (stdout result) then Some darwin
    else None
  else None.

Definition detectRemotePlatform {W} (host : Host W) : M W RemotePlatform :=
  await result <- retry (exec host "uname -s" []) retry_times;
  match platformOf result with
  | Some platform => ret platform
  | None => throw ("Failed to identify remote system: " +:+ stdout result +:+ nl +:+ stderr result)
  end.

Definition platformId (platform : RemotePlatform) : string :=
  match platform with
  | windows => "win"
  | linux => "linux"
  | darwin => "darwin"
  end.

Definition getNodeDirectoryName (platform : RemotePlatform) : string :=
  let arch := "x64" in
  "node-v" +:+ REMOTE_NODE_VERSION +:+ "-" +:+ platformId platform +:+ "-" +:+ arch.

Definition getNodeFileName (platform : RemotePlatform) : string :=
  let fileExtension :=
    match platform with
    | windows => "zip"
    | darwin => "tar.gz"
    | linux => "tar.xz"
    end in
  getNodeDirectoryName platform +:+ "." +:+ fileExtension.

Definition downloadNode {W} (host : Host W) (fileName : string) : M W string :=
  let localPath := path_join host (os_tmpdir host) fileName in
  await present <- (fun st =>
    let (b, w) := fs_pathExists host localPath (world st) in
    (Resolved b, setWorld w (emit (EvPathExists localPath) st)));
  if negb present then
    let downloadPath := "https://nodejs.org/dist/v" +:+ REMOTE_NODE_VERSION +:+ "/" +:+ fileName in
    await buffer <- (fun st =>
      let (r, w) := request host downloadPath (world st) in
      (r, setWorld w (emit (EvRequest downloadPath) st)));
    await_ (fun st =>
      let (failure, w) := fs_writeFile host localPath buffer (world st) in
      let st' := setWorld w (emit (EvWriteFile localPath) st) in
      match failure with
      | Some err => (Rejected err, st')
      | None => (Resolved tt, st')
      end);
    ret localPath
  else ret localPath.

Definition getRemoteHomeDirectory {W} (host : Host W) (platform : RemotePlatform) : M W string :=
  match platform with
  | windows =>
      await result <- retry (exec host "echo $HOME" []) retry_times;
      let powershellHome := stdout result in
      if String.eqb powershellHome "$HOME" then
        await result <- retry (exec host "echo %userprofile%" []) retry_times;
        ret (trim (stdout result))
      else ret (trim powershellHome)
  | _ =>
      await result <- retry (exec host "eval echo ~" []) retry_times;
      ret (trim (stdout result))
  end.

(** [name || fallback]: the fallback replaces an absent or empty name. *)
Definition orElse (name : option string) (fallback : string) : string :=
  match name with
  | Some s => if truthy s then s else fallback
  | None => fallback
  end.

(** The two [replace] calls of [cleanupDirectoryName]: the characters
    at, less-than, greater-than, colon, double quote, backslash, bar,
    question mark and star are dropped, and every slash becomes a dash. *)
Fixpoint cleanupDirectoryName (name : string) : string :=
  match name with
  | EmptyString => EmptyString
  | String c rest =>
      if existsb (Ascii.eqb c) ["@"; "<"; ">"; ":"; ascii_of_nat 34; "\"; "|"; "?"; "*"]%char
      then cleanupDirectoryName rest
      else if Ascii.eqb c "/" then String "-" (cleanupDirectoryName rest)
      else String c (cleanupDirectoryName rest)
  end.

Definition getRemoteAppName {W} (host : Host W) : string :=
  let appName := orElse (pck_name host) "theia" in
  let appVersion := orElse (pck_version host) (THEIA_VERSION host) in
  cleanupDirectoryName (appName +:+ "-" +:+ appVersion) +:+ "-remote".

Definition mkdirCommand (platform : RemotePlatform) (remotePath : string) : string :=
  let recursive := match platform with windows => "" | _ => " -p" end in
  "mkdir" +:+ recursive +:+ " " +:+ dq +:+ remotePath +:+ dq +:+ ";echo " +:+ dq +:+ "Success" +:+ dq.

Definition mkdirRemote {W} (host : Host W) (platform : RemotePlatform) (remotePath : string) : M W unit :=
  await result <- retry (exec host (mkdirCommand platform remotePath) []) retry_times;
  if truthy (stderr result) then throw ("Failed to create directory: " +:+ stderr result)
  else ret tt.

(** The probe of [dirExistsRemote]. *)
Definition cdCommand (remotePath : string) : string :=
  "cd " +:+ dq +:+ remotePath +:+ dq +:+ ";echo " +:+ dq +:+ "Success" +:+ dq.

Definition dirExistsRemote {W} (host : Host W) (remotePath : string) : M W bool :=
  await cdResult <- retry (exec host (cdCommand remotePath) []) retry_times;
  ret (truthy (stdout cdResult)).

Definition unzipRemote {W} (host : Host W) (remoteFile remoteDirectory : string) : M W unit :=
  await result <- exec host "tar -xf" [remoteFile; "-C"; remoteDirectory];
  if truthy (stderr result) then throw ("Failed to unzip: " +:+ stderr result)
  else ret tt.

(** *** The launch pattern [/listening on http:\/\/localhost:(\d+)/] *)

Definition isDigit (c : ascii) : bool :=
  let n := nat_of_ascii c in (48 <=? n)%nat && (n <=? 57)%nat.

(** The longest run of digits a string starts with: what [(\d+)] captures. *)
Fixpoint takeDigits (s : string) : string :=
  match s with
  | EmptyString => EmptyString
  | String c rest => if isDigit c then String c (takeDigits rest) else EmptyString
  end.

(** The rest of [s] after the prefix [p], when [s] starts with [p]. *)
Fixpoint stripPrefix (p s : string) : option string :=
  match p, s with
  | EmptyString, _ => Some s
  | String a p', String b s' => if Ascii.eqb a b then stripPrefix p' s' else None
  | String _ _, EmptyString => None
  end.

(** A match of the pattern at the very start of [s]: the captured digits. *)
Definition matchHere (s : string) : option string :=
  match stripPrefix "listening on http://localhost:" s with
  | Some rest => let digits := takeDigits rest in
                 if truthy digits then Some digits else None
  | None => None
  end.

(** [localAddressRegex.exec(s)]: the capture of the leftmost match. *)
Fixpoint localAddressRegex_exec (s : string) : option string :=
  match matchHere s with
  | Some digits => Some digits
  | None =>
      match s with
      | EmptyString => None
      | String _ rest => localAddressRegex_exec rest
      end
  end.

(** [localAddressRegex.test(s)]. *)
Definition localAddressRegex_test (s : string) : bool :=
  match localAddressRegex_exec s with
  | Some _ => true
  | None => false
  end.

(** The integer a string of decimal digits denotes. *)
Definition decimalValue (digits : string) : N :=
  let fix go (acc : N) (s : string) : N :=
    match s with
    | EmptyString => acc
    | String c rest => go (10 * acc + (N.of_nat (nat_of_ascii c) - 48))%N rest
    end in
  go 0%N digits.

(** [Number(digits)] of a string of decimal digits: the double nearest to
    the integer it denotes, as Node computes it. *)
Definition Number (digits : string) : JSNumber := toDouble (decimalValue digits).

Definition nodeExecutableOf (platform : RemotePlatform) (nodeDir : string) : string :=
  joinRemotePath platform
    [nodeDir; "bin"; match platform with windows => "node.exe" | _ => "node" end].

Definition startCommand (platform : RemotePlatform) (remotePath nodeDir : string) : string :=
  "cd " +:+ dq +:+ remotePath +:+ dq +:+ ";" +:+ nodeExecutableOf platform nodeDir.

Definition startApplication {W} (host : Host W) (platform : RemotePlatform)
           (remotePath nodeDir : string) : M W JSNumber :=
  let mainJsFile := joinRemotePath platform [remotePath; "lib"; "backend"; "main.js"] in
  await result <- execPartial host (startCommand platform remotePath nodeDir)
                    (fun stdout _ => localAddressRegex_test stdout)
                    [mainJsFile; "--port=0"; "--remote"];
  match localAddressRegex_exec (stdout result) with
  | None => throw ("Could not start remote system: " +:+ stderr result)
  | Some digits => ret (Number digits)
  end.

(** [connection.remotePort = port]. *)
Definition setRemotePort {W} (port : JSNumber) : M W unit :=
  fun st => (Resolved tt, mkSt (world st) (trace st) port).

(** The paths [setup] derives from the platform and the home directory. *)
Definition applicationDirectoryOf {W} (host : Host W) (platform : RemotePlatform)
           (remoteHome : string) : string :=
  joinRemotePath platform [remoteHome; "." +:+ getRemoteAppName host].



(** [setup]. *)
Definition setup {W} (host : Host W) : M W unit :=
  await_ report "Identifying remote system...";
  await platform <- detectRemotePlatform host;
  await remoteHome <- getRemoteHomeDirectory host platform;
  let applicationDirectory := applicationDirectoryOf host platform remoteHome in
  await_ mkdirRemote host platform applicationDirectory;
  let nodeFileName := getNodeFileName platform in
  let nodeDirName := getNodeDirectoryName platform in
  let remoteNodeDirectory := joinRemotePath platform [applicationDirectory; nodeDirName] in
  await nodeDirExists <- dirExistsRemote host remoteNodeDirectory;
  await_ (if negb nodeDirExists then
            await_ report "Downloading and installing Node.js on remote...";
            await nodeArchive <- downloadNode host nodeFileName;
            let remoteNodeZip := joinRemotePath platform [applicationDirectory; nodeFileName] in
            await_ copy host nodeArchive remoteNodeZip;
            unzipRemote host remoteNodeZip applicationDirectory
          else ret tt);
  await_ report "Copying application to remote...";
  let libDir := joinRemotePath platform [applicationDirectory; "lib"] in
  await libDirExists <- dirExistsRemote host libDir;
  await_ (if negb libDirExists then
            let applicationZipFile :=
              joinRemotePath platform [applicationDirectory; getRemoteAppName host +:+ ".tar"] in
            await_ (fun st =>
              let (r, w) := copyToRemote host platform applicationZipFile (world st) in
              (r, setWorld w (emit (EvCopyToRemote platform applicationZipFile) st)));
            unzipRemote host applicationZipFile applicationDirectory
          else ret tt);
  await_ report "Starting application on remote...";
  await port <- startApplication host platform applicationDirectory remoteNodeDirectory;
  setRemotePort port.

(** *** Counting what a run did *)

Definition isDownload (e : Event) : bool :=
  match e with
  | EvRequest _ => true
  | _ => false
  end.

Definition isCopy (e : Event) : bool :=
  match e with
  | EvFastPut _ _ => true
  | EvCopyToRemote _ _ => true
  | _ => false
  end.

Definition isExtraction (e : Event) : bool :=
  match e with
  | EvExec cmd => String.prefix "tar -xf" cmd
  | _ => false
  end.

Definition countEvents (p : Event -> bool) (events : list Event) : nat :=
  length (List.filter p events).

(** *** Counting the calls of a retried action *)

(** The action with a counter of its calls next to the outside world. *)
Definition counted {W A} (action : M W A) : M (W * nat) A :=
  fun st =>
    let (outcome, st') := action (mkSt (fst (world st)) (trace st) (remotePort st)) in
    (outcome, mkSt (world st', S (snd (world st))) (trace st') (remotePort st')).

Definition counting {W} (c : nat) (st : St W) : St (W * nat) :=
  mkSt (world st, c) (trace st) (remotePort st).

Definition withCounter {W} (st : St W) : St (W * nat) := counting 0 st.

Definition calls {W} (st : St (W * nat)) : nat := snd (world st).

Definition withoutCounter {W} (st : St (W * nat)) : St W :=
  mkSt (fst (world st)) (trace st) (remotePort st).

(** What [k] calls of the action in a row settle with, first to last. *)
Fixpoint attempts {W A} (k : nat) (action : M W A) (st : St W) : list (Outcome A) :=
  match k with
  | O => []
  | S k' => let (outcome, st') := action st in outcome :: attempts k' action st'
  end.

(** An attempt that returned with both streams empty. *)
Definition isSilent (o : Outcome RemoteExecResult) : bool :=
  match o with
  | Resolved r => negb (hasOutput r)
  | _ => false
  end.

(** ** The authentication handler *)

Definition passwordRetryCount_default : Z := 3.
Definition passphraseRetryCount_default : Z := 3.

(** [SSHKey]: the fields the handler reads. *)
Record SSHKey := mkKey {
  filename : string;
  isPrivate : bool;
  parsedKey : string
}.

(** What [ssh2.utils.parseKey] returns: a key, an array of keys or an error. *)
Inductive ParseResult :=
| ParsedKey (key : string)
| ParsedKeys (keys : list string)
| ParseError (message : string).

(** The file system and the key parser, as the handler sees them. *)
Record KeyStore := mkKeyStore {
  pathExists : string -> bool;
  readFile : string -> string;
  parseKey : string -> option string -> ParseResult
}.

(** A question of [quickInputService.input], by its title. *)
Inductive Question :=
| AskPassphrase (title : string)
| AskPassword (title : string)
| AskKeyboard (title : string) (masked : bool).

(** The closure variables of [getAuthHandler], and the user: the answers
    still to come ([None] is a dismissed input box; a user who is out of
    answers dismisses) and the questions asked so far. *)
Record AuthState := mkAuth {
  passwordRetryCount : Z;
  keyboardRetryCount : Z;
  identityKeys : list SSHKey;
  answers : list (option string);
  asked : list Question
}.

(** What the handler passes to [callback]. *)
Inductive AuthenticationType :=
| AuthNone (username : string)
| AuthPublicKey (username : string) (key : option string)
| AuthPassword (username password : string)
| AuthKeyboardInteractive (username : string)
| END_AUTH
| NEXT_AUTH.

(** [await this.quickInputService.input(...)]. *)
Definition input (q : Question) (s : AuthState) : option string * AuthState :=
  match answers s with
  | [] =>
      (None, mkAuth (passwordRetryCount s) (keyboardRetryCount s) (identityKeys s)
                    [] (asked s ++ [q]))
  | a :: rest =>
      (a, mkAuth (passwordRetryCount s) (keyboardRetryCount s) (identityKeys s)
                 rest (asked s ++ [q]))
  end.

Definition isError (r : ParseResult) : bool :=
  match r with
  | ParseError _ => true
  | _ => false
  end.

(** The passphrase loop: [while (result instanceof Error && count > 0)]. *)
Fixpoint passphraseLoop (store : KeyStore) (file keyBuffer : string) (count : nat)
         (result : ParseResult) (s : AuthState) : ParseResult * AuthState :=
  match count with
  | O => (result, s)
  | S count' =>
      if isError result then
        let (passphrase, s') := input (AskPassphrase ("Enter passphrase for " +:+ file)) s in
        match passphrase with
        | Some p =>
            if truthy p
            then passphraseLoop store file keyBuffer count' (parseKey store keyBuffer (Some p)) s'
            else (result, s')
        | None => (result, s')
        end
      else (result, s)
  end.

Definition encryptedKeyMessage : string :=
  "Encrypted private OpenSSH key detected, but no passphrase given".

(** The public-key branch, once [identityKeys.shift()] returned [identityKey]. *)
Definition tryIdentityKey (store : KeyStore) (user : string) (identityKey : SSHKey)
           (s : AuthState) : AuthenticationType * AuthState :=
  if isPrivate identityKey then (AuthPublicKey user (Some (parsedKey identityKey)), s)
  else if negb (pathExists store (filename identityKey)) then (NEXT_AUTH, s)
  else
    let keyBuffer := readFile store (filename identityKey) in
    let result := parseKey store keyBuffer None in
    let (result, s') :=
      match result with
      | ParseError message =>
          if String.eqb message encryptedKeyMessage
          then passphraseLoop store (filename identityKey) keyBuffer
                              (Z.to_nat passphraseRetryCount_default) result s
          else (result, s)
      | _ => (result, s)
      end in
    match result with
    | ParseError _ => (NEXT_AUTH, s')
    | ParsedKeys keys => (AuthPublicKey user (head keys), s')
    | ParsedKey key => (AuthPublicKey user (Some key), s')
    end.

(** [methodsLeft.includes(method)]. *)
Definition offers (methodsLeft : list string) (method : string) : bool :=
  existsb (String.eqb method) methodsLeft.

(** The handler [getAuthHandler] returns, called with [methodsLeft]
    ([None] for [null]). *)
Definition authHandler (store : KeyStore) (user host : string)
           (methodsLeft : option (list string)) (s : AuthState) : AuthenticationType * AuthState :=
  match methodsLeft with
  | None => (AuthNone user, s)
  | Some methods =>
      match (if offers methods "publickey" then identityKeys s else []) with
      | identityKey :: rest =>
          tryIdentityKey store user identityKey
            (mkAuth (passwordRetryCount s) (keyboardRetryCount s) rest (answers s) (asked s))
      | [] =>
          if offers methods "password" && (0 <? passwordRetryCount s)%Z then
            let (password, s') :=
              input (AskPassword ("Enter password for " +:+ user +:+ "@" +:+ host)) s in
            let s'' := mkAuth (passwordRetryCount s' - 1) (keyboardRetryCount s')
                              (identityKeys s') (answers s') (asked s') in
            match password with
            | Some p => if truthy p then (AuthPassword user p, s'') else (END_AUTH, s'')
            | None => (END_AUTH, s'')
            end
          else if offers methods "keyboard-interactive" && (0 <? keyboardRetryCount s)%Z then
            (AuthKeyboardInteractive user, s)
          else (END_AUTH, s)
      end
  end.

(** An entry of the [prompts] array ssh2 hands to the keyboard-interactive
    [prompt] function. *)
Record KeyboardPrompt := mkPrompt { prompt_text : string; prompt_echo : bool }.

(** The [for] loop of the [prompt] function: a dismissed input zeroes the
    budget and leaves the loop. *)
Fixpoint promptLoop (user host : string) (prompts : list KeyboardPrompt)
         (responses : list string) (s : AuthState) : list string * AuthState :=
  match prompts with
  | [] => (responses, s)
  | p :: rest =>
      let (response, s') :=
        input (AskKeyboard ("(" +:+ user +:+ "@" +:+ host +:+ ") " +:+ prompt_text p)
                           (negb (prompt_echo p))) s in
      match response with
      | None =>
          (responses,
           mkAuth (passwordRetryCount s') 0 (identityKeys s') (answers s') (asked s'))
      | Some r => promptLoop user host rest (responses ++ [r]) s'
      end
  end.

(** The [prompt] function passed with the keyboard-interactive method: what
    it hands to [finish]. *)
Definition keyboardPrompt (user host : string) (prompts : list KeyboardPrompt)
           (s : AuthState) : list string * AuthState :=
  let (responses, s') := promptLoop user host prompts [] s in
  (responses,
   mkAuth (passwordRetryCount s') (keyboardRetryCount s' - 1) (identityKeys s')
          (answers s') (asked s')).

(** What ssh2 does with the handler during one connection attempt: it calls
    the handler with the methods left, or the [prompt] function. *)
Inductive AuthCall :=
| Invoke (methodsLeft : option (list string))
| Prompt (prompts : list KeyboardPrompt).

Inductive AuthReply :=
| Decision (d : AuthenticationType)
| Responses (responses : list string).

Definition authStep (store : KeyStore) (user host : string) (c : AuthCall)
           (s : AuthState) : AuthReply * AuthState :=
  match c with
  | Invoke methodsLeft =>
      let (d, s') := authHandler store user host methodsLeft s in (Decision d, s')
  | Prompt prompts =>
      let (r, s') := keyboardPrompt user host prompts s in (Responses r, s')
  end.

Fixpoint authRun (store : KeyStore) (user host : string) (cs : list AuthCall)
         (s : AuthState) : list AuthReply * AuthState :=
  match cs with
  | [] => ([], s)
  | c :: rest =>
      let (reply, s') := authStep store user host c s in
      let (replies, s'') := authRun store user host rest s' in
      (reply :: replies, s'')
  end.

(** The closure [getAuthHandler] creates for one connection attempt. *)
Definition getAuthHandler (identityKeys : list SSHKey) (answers : list (option string)) : AuthState :=
  mkAuth passwordRetryCount_default passphraseRetryCount_default identityKeys answers [].

Definition isPasswordReply (r : AuthReply) : bool :=
  match r with
  | Decision (AuthPassword _ _) => true
  | _ => false
  end.

Definition isPasswordQuestion (q : Question) : bool :=
  match q with
  | AskPassword _ => true
  | _ => false
  end.

(** How often the password input box was shown so far. *)
Definition passwordPrompts (s : AuthState) : nat :=
  length (List.filter isPasswordQuestion (asked s)).

(** How often the password method was submitted. *)
Definition passwordSubmissions (replies : list AuthReply) : nat :=
  length (List.filter isPasswordReply replies).

(** The public-key branch is taken: the method is offered and a key is left. *)
Definition publicKeyApplies (methods : list string) (s : AuthState) : bool :=
  offers methods "publickey" && negb (Nat.eqb (length (identityKeys s)) 0).

Definition passwordApplies (methods : list string) (s : AuthState) : bool :=
  offers methods "password" && (0 <? passwordRetryCount s)%Z.

Definition keyboardApplies (methods : list string) (s : AuthState) : bool :=
  offers methods "keyboard-interactive" && (0 <? keyboardRetryCount s)%Z.

(** ** The express proxy contribution and the backend around it *)

(** An inbound request: method, path and the [remoteId] entry of
    [getCookies(req)], [None] when the request carries no such cookie. *)
Record Request := mkRequest {
  req_method : string;
  req_path : string;
  req_remoteId : option string
}.

(** The fields of a [RemoteConnection] the routing code reads. *)
Record RemoteConnection := mkRemote {
  remote_id : string;
  remote_name : string;
  remote_type : string
}.

(** The body of the status response, [RemoteStatus]. *)
Inductive RemoteStatus :=
| Alive (name type : string)
| NotAlive.

(** The handler [configure] registers for [GET /remote/status]. *)
Definition statusHandler (connections : gmap string RemoteConnection) (req : Request) : RemoteStatus :=
  match req_remoteId req with
  | Some remoteId =>
      if truthy remoteId then
        match connections !! remoteId with
        | Some remote => Alive (remote_name remote) (remote_type remote)
        | None => NotAlive
        end
      else NotAlive
  | None => NotAlive
  end.

(** The [filter] option [setupProxyRouter] gives the proxy:
    [remoteId === remote.id]. *)
Definition proxyFilter (remote : RemoteConnection) (req : Request) : bool :=
  match req_remoteId req with
  | Some remoteId => String.eqb remoteId (remote_id remote)
  | None => false
  end.

(** What a layer of the router stack runs. *)
Inductive Handler :=
| StatusRoute
| HandleProxy (remote : RemoteConnection) (port : N)
| Foreign.

(** [ExpressLayer]: [layer_ref] stands for the identity of the object,
    which [indexOf] compares. *)
Record ExpressLayer := mkLayer {
  layer_ref : nat;
  layer_name : string;
  layer_handler : Handler
}.

(** [Disposable]: [None] is [Disposable.NULL], [Some ref] removes the layer
    [ref] from the stack. *)
Definition Disposable := option nat.

(** [routerStack.indexOf(router)]. *)
Fixpoint indexOf (ref : nat) (stack : list ExpressLayer) : option nat :=
  match stack with
  | [] => None
  | layer :: rest =>
      if Nat.eqb (layer_ref layer) ref then Some O
      else option_map S (indexOf ref rest)
  end.

(** [array.splice(start, 1)] for [0 <= start]. *)
Fixpoint removeAt {A} (start : nat) (l : list A) : list A :=
  match l, start with
  | [], _ => []
  | _ :: rest, O => rest
  | x :: rest, S start' => x :: removeAt start' rest
  end.

(** [array.splice(start, 0, x)] for [0 <= start]: past the end it appends. *)
Fixpoint insertAt {A} (start : nat) (x : A) (l : list A) : list A :=
  match start, l with
  | O, _ => x :: l
  | S _, [] => [x]
  | S start', y :: rest => y :: insertAt start' x rest
  end.

(** The [for] loop of [spliceRouter] over the indices [i, i + 1, ...] of the
    layers given: the first index with a position, and that position. *)
Fixpoint findPosition (position : ExpressLayer -> option nat) (i : nat)
         (layers : list ExpressLayer) : option (nat * nat) :=
  match layers with
  | [] => None
  | layer :: rest =>
      match position layer with
      | Some index => Some (i, index)
      | None => findPosition position (S i) rest
      end
  end.

(** [spliceRouter]: takes the last layer off the stack and puts it back
    behind the first layer that has a position; the loop stops one short of
    the end of what is left. *)
Definition spliceRouter (routerStack : list ExpressLayer)
           (position : ExpressLayer -> option nat) : list ExpressLayer * Disposable :=
  match last routerStack with
  | Some router =>
      let routerStack := removeAt (length routerStack - 1) routerStack in
      match findPosition position 0 (List.firstn (length routerStack - 1) routerStack) with
      | Some (i, index) => (insertAt (i + index + 1) router routerStack, Some (layer_ref router))
      | None => (routerStack, None)
      end
  | None => (routerStack, None)
  end.

(** The disposable [spliceRouter] returns; [splice(-1, 1)], which is what a
    failed [indexOf] leads to, removes the last layer. *)
Definition disposeRouter (d : Disposable) (routerStack : list ExpressLayer) : list ExpressLayer :=
  match d with
  | None => routerStack
  | Some ref =>
      match indexOf ref routerStack with
      | Some currentIndex => removeAt currentIndex routerStack
      | None => removeAt (length routerStack - 1) routerStack
      end
  end.

Definition behindServeStatic (offset : nat) (router : ExpressLayer) : option nat :=
  if String.eqb (layer_name router) "serveStatic" then Some offset else None.

(** What the disconnect listener of [establishConnection] closes over. *)
Record DisconnectListener := mkListener {
  l_server : N;
  l_proxyRouter : Disposable;
  l_registration : string
}.

(** The backend process: the router stack of the express application, the
    connection registry, the listening proxy servers (by port) and the
    disconnect listeners of the connections (by connection id). *)
Record Backend := mkBackend {
  routerStack : list ExpressLayer;
  nextRef : nat;
  connections : gmap string RemoteConnection;
  servers : gset N;
  listeners : gmap string DisconnectListener
}.

(** [app.get(...)] and [app.use(...)]: a new layer at the end of the stack.
    Express names the layer of a route [bound dispatch] and the layer of a
    middleware after its function. *)
Definition pushLayer (name : string) (h : Handler) (b : Backend) : Backend :=
  mkBackend (routerStack b ++ [mkLayer (nextRef b) name h]) (S (nextRef b))
            (connections b) (servers b) (listeners b).

Definition setStack (stack : list ExpressLayer) (b : Backend) : Backend :=
  mkBackend stack (nextRef b) (connections b) (servers b) (listeners b).

(** [configure]. *)
Definition configure (b : Backend) : Backend :=
  let b := pushLayer "bound dispatch" StatusRoute b in
  setStack (fst (spliceRouter (routerStack b) (behindServeStatic 0))) b.

(** [setupProxyRouter(remote, server)], [port] being the server's port. *)
Definition setupProxyRouter (remote : RemoteConnection) (port : N) (b : Backend) : Backend * Disposable :=
  let b := pushLayer "handleProxy" (HandleProxy remote port) b in
  let (stack, disposable) := spliceRouter (routerStack b) (behindServeStatic 1) in
  (setStack stack b, disposable).

(** Modelled from the spec: the connection registry, whose source is not
    part of the files at hand.  [register] stores the connection under its
    session id and returns a handle whose disposal removes the entry;
    [getConnection] looks the id up. *)
Definition register (remote : RemoteConnection) (b : Backend) : Backend * string :=
  (mkBackend (routerStack b) (nextRef b) (<[remote_id remote := remote]> (connections b))
             (servers b) (listeners b),
   remote_id remote).

Definition disposeRegistration (id : string) (b : Backend) : Backend :=
  mkBackend (routerStack b) (nextRef b) (delete id (connections b)) (servers b) (listeners b).

(** Modelled from the spec: the proxy server provider, whose source is not
    part of the files at hand.  [getProxyServer] binds a local listening
    endpoint on a port the system picks; [server.close()] releases it. *)
Definition getProxyServer (port : N) (b : Backend) : Backend :=
  mkBackend (routerStack b) (nextRef b) (connections b) ({[port]} ∪ servers b) (listeners b).

Definition closeServer (port : N) (b : Backend) : Backend :=
  mkBackend (routerStack b) (nextRef b) (connections b) (servers b ∖ {[port]}) (listeners b).

(** [establishConnection], from the point where [setup] has returned:
    register, get a proxy server (on [port]), set up the proxy router and
    subscribe the disconnect listener. *)
Definition establishConnection (remote : RemoteConnection) (port : N) (b : Backend) : Backend :=
  let (b, registration) := register remote b in
  let b := getProxyServer port b in
  let (b, proxyRouter) := setupProxyRouter remote port b in
  mkBackend (routerStack b) (nextRef b) (connections b) (servers b)
            (<[remote_id remote := mkListener port proxyRouter registration]> (listeners b)).

(** The listener: [server.close(); proxyRouter.dispose(); registration.dispose()]. *)
Definition onDidDisconnect (l : DisconnectListener) (b : Backend) : Backend :=
  let b := closeServer (l_server l) b in
  let b := setStack (disposeRouter (l_proxyRouter l) (routerStack b)) b in
  disposeRegistration (l_registration l) b.

(** The disconnect event of the connection [id] fires: its listener runs,
    and the connection, disposed by its own first listener, emits no more. *)
Definition fireDisconnect (id : string) (b : Backend) : Backend :=
  match listeners b !! id with
  | Some l =>
      let b := onDidDisconnect l b in
      mkBackend (routerStack b) (nextRef b) (connections b) (servers b) (delete id (listeners b))
  | None => b
  end.

(** *** Express, as far as routing needs it

    Express offers a request to the layers of the stack in order, until one
    of them ends it.  Of the layers other code installed only this is
    known: whether a given layer ends a given request ([ends]); and of the
    route of [configure], whether Express matches a request against
    [GET /remote/status] ([isStatusRequest]). *)
Record Express := mkExpress {
  ends : nat -> Request -> bool;
  isStatusRequest : Request -> bool
}.

Inductive Response :=
| AnsweredLocally (body : RemoteStatus)
| Forwarded (port : N)
| EndedBy (ref : nat)
| FellThrough.

Fixpoint dispatch (ex : Express) (connections : gmap string RemoteConnection)
         (stack : list ExpressLayer) (req : Request) : Response :=
  match stack with
  | [] => FellThrough
  | layer :: rest =>
      match layer_handler layer with
      | StatusRoute =>
          if isStatusRequest ex req then AnsweredLocally (statusHandler connections req)
          else dispatch ex connections rest req
      | HandleProxy remote port =>
          if proxyFilter remote req then Forwarded port
          else dispatch ex connections rest req
      | Foreign =>
          if ends ex (layer_ref layer) req then EndedBy (layer_ref layer)
          else dispatch ex connections rest req
      end
  end.

(** The answer of the backend to a request. *)
Definition serve (ex : Express) (b : Backend) (req : Request) : Response :=
  dispatch ex (connections b) (routerStack b) req.

(** The layers a request meets before the status route. *)
Fixpoint aheadOfStatus (stack : list ExpressLayer) : list ExpressLayer :=
  match stack with
  | [] => []
  | layer :: rest =>
      match layer_handler layer with
      | StatusRoute => []
      | _ => layer :: aheadOfStatus rest
      end
  end.

(** None of the given layers ends the request. *)
Definition passedOn (ex : Express) (layers : list ExpressLayer) (req : Request) : bool :=
  forallb (fun layer => negb (ends ex (layer_ref layer) req)) layers.

(** The application before [configure]: layers of other code, by name. *)
Fixpoint foreignStack (ref : nat) (names : list string) : list ExpressLayer :=
  match names with
  | [] => []
  | name :: rest => mkLayer ref name Foreign :: foreignStack (S ref) rest
  end.

Definition newBackend (names : list string) : Backend :=
  mkBackend (foreignStack 0 names) (length names) ∅ ∅ ∅.

(** The loop of [spliceRouter] meets a static-file layer: there is one, and
    it is not the last layer. *)
Definition servesStatic (names : list string) : bool :=
  existsb (String.eqb "serveStatic") (List.removelast names).

(** What happens to a backend once it is configured. *)
Inductive BackendEvent :=
| Establish (remote : RemoteConnection) (port : N)
| Disconnect (id : string).

(** The environment's part: a session id is fresh and not empty, and the
    system picks a port no open server listens on. *)
Definition enabled (e : BackendEvent) (b : Backend) : Prop :=
  match e with
  | Establish remote port =>
      remote_id remote <> "" /\ listeners b !! remote_id remote = None /\
      connections b !! remote_id remote = None /\ port ∉ servers b
  | Disconnect id => is_Some (listeners b !! id)
  end.

Definition step (e : BackendEvent) (b : Backend) : Backend :=
  match e with
  | Establish remote port => establishConnection remote port b
  | Disconnect id => fireDisconnect id b
  end.

(** The backends that arise from an application with the given layers:
    configured, then sessions come and go. *)
Inductive reachable (names : list string) : Backend -> Prop :=
| reach_configured : reachable names (configure (newBackend names))
| reach_step e b :
    reachable names b -> enabled e b -> reachable names (step e b).

(** The session [remote] is established, with its proxy server on [port]. *)
Definition live (b : Backend) (remote : RemoteConnection) (port : N) : Prop :=
  exists l, listeners b !! remote_id remote = Some l /\ l_server l = port /\
            connections b !! remote_id remote = Some remote.

Definition isProxyOf (id : string) (layer : ExpressLayer) : bool :=
  match layer_handler layer with
  | HandleProxy remote _ => String.eqb (remote_id remote) id
  | _ => false
  end.

(** ** Hosts to run the setup service against *)

(** A host whose ssh2 client answers by a script: the response to a command
    may depend on how many commands were executed before it (the state is
    that number).  Copies and local file operations succeed, the local
    cache holds no node archive. *)
Definition scriptedHost (respond : string -> nat -> ExecResponse) : Host nat :=
  mkHost (fun cmd n => (respond cmd n, S n))
         (fun _ _ n => (None, n))
         "/tmp"
         (fun dir file => dir +:+ "/" +:+ file)
         (fun _ n => (false, n))
         (fun _ n => (Resolved "archive", n))
         (fun _ _ n => (None, n))
         (fun _ _ n => (Resolved tt, n))
         (Some "theia") (Some "1.0.0") "1.0.0".

Definition startOf (w : nat) : St nat := mkSt w [] 0%N.

(** The stream of a command that prints [out] and [err] and exits. *)
Definition printed (out err : string) : ExecResponse :=
  ExecStream [(if truthy err then [OnStderrData err] else []) ++
              (if truthy out then [OnData out] else []) ++ [OnClose]].

(** A Linux host on which the application is installed and starts: the
    backend prints its listening line and keeps running (no close). *)
Definition installedLinux (cmd : string) (n : nat) : ExecResponse :=
  if String.eqb cmd "uname -s" then printed ("Linux" +:+ nl) ""
  else if String.eqb cmd "eval echo ~" then printed ("/home/user" +:+ nl) ""
  else if String.prefix "mkdir" cmd then printed ("Success" +:+ nl) ""
  else if includes "echo" cmd then printed ("Success" +:+ nl) ""
  else if includes "main.js" cmd then
    ExecStream [[OnData ("root INFO Theia app listening on http://localhost:53211." +:+ nl)]]
  else printed "" "".


(** A host that answers the platform probe on both streams. *)
Definition noisyLinux (cmd : string) (n : nat) : ExecResponse :=
  if String.eqb cmd "uname -s" then printed ("Linux" +:+ nl) "Warning: no tty"
  else installedLinux cmd n.

(** A host on which no directory exists: [cd] fails, and the [echo] after
    it runs all the same. *)
Definition emptyLinux (cmd : string) (n : nat) : ExecResponse :=
  if String.prefix "cd " cmd && includes "echo" cmd then printed ("Success" +:+ nl) "sh: 1: cd: can't cd to it"
  else installedLinux cmd n.

(** A transport that returns an empty completed execution [quiet] times
    before the command gets through. *)
Definition flakyLinux (quiet : nat) (cmd : string) (n : nat) : ExecResponse :=
  if (n <? quiet)%nat then printed "" "" else installedLinux cmd n.

(** A call that is neither a download, nor a copy, nor an extraction. *)
Definition harmless (e : Event) : bool :=
  negb (isDownload e) && negb (isCopy e) && negb (isExtraction e).

(** From [st] to [st'] the trace grew, by harmless calls only. *)
Definition grows {W} (st st' : St W) : Prop :=
  exists events, trace st' = trace st ++ events /\ forallb harmless events = true.

(** ** Users and key stores to run the handler against *)

(** No identity file is readable. *)
Definition noKeyFiles : KeyStore :=
  mkKeyStore (fun _ => false) (fun _ => "") (fun _ _ => ParseError "Unsupported key format").

(** A key the identity collector already holds decrypted. *)
Definition agentKey : SSHKey := mkKey "/home/user/.ssh/id_ed25519" true "KEY".

(** A user who types three passwords, none of them right. *)
Definition threePasswords : list (option string) := [Some "alpha"; Some "beta"; Some "gamma"].

(** A server that offers [password] (and more) three times in a row. *)
Definition threeRounds (methods : list string) : list AuthCall :=
  [Invoke (Some methods); Invoke (Some methods); Invoke (Some methods)].

(** ** The shape of a configured backend *)

(** An established session: the connection, the port of its proxy server
    and the router layer of its proxy. *)
Record Session := mkSession {
  s_remote : RemoteConnection;
  s_port : N;
  s_ref : nat
}.

Definition proxyLayer (s : Session) : ExpressLayer :=
  mkLayer (s_ref s) "handleProxy" (HandleProxy (s_remote s) (s_port s)).

(** The listener of a session; the proxy layer is [installed] when
    [spliceRouter] found a place for it, and lost otherwise. *)
Definition sessionListener (installed : bool) (s : Session) : DisconnectListener :=
  mkListener (s_port s) (if installed then Some (s_ref s) else None) (remote_id (s_remote s)).

Definition isForeign (layer : ExpressLayer) : bool :=
  match layer_handler layer with
  | Foreign => true
  | _ => false
  end.

Definition isStatic (layer : ExpressLayer) : bool :=
  String.eqb (layer_name layer) "serveStatic".

(** What the registry, the servers and the listeners hold for the given
    sessions, whose ids and ports are pairwise distinct. *)
Record Book (conns : gmap string RemoteConnection) (srvs : gset N)
       (lsts : gmap string DisconnectListener) (installed : bool)
       (sessions : list Session) : Prop := mkBook {
  bk_ids : NoDup (map (fun s => remote_id (s_remote s)) sessions);
  bk_named : Forall (fun s => remote_id (s_remote s) <> "") sessions;
  bk_ports : NoDup (map s_port sessions);
  bk_listeners : forall id l,
      lsts !! id = Some l <->
      exists s, s ∈ sessions /\ remote_id (s_remote s) = id /\ l = sessionListener installed s;
  bk_connections : forall id remote,
      conns !! id = Some remote <->
      exists s, s ∈ sessions /\ remote_id (s_remote s) = id /\ s_remote s = remote;
  bk_servers : forall port, port ∈ srvs <-> exists s, s ∈ sessions /\ s_port s = port
}.

(** The router stack of a backend with the given sessions, on an
    application that serves static files: the layers up to the first
    static-file layer ([pre]), that layer, the status route, the proxies
    (newest first), and at least one more layer ([post]). *)
Record Shape (b : Backend) (sessions : list Session)
       (pre : list ExpressLayer) (static status : ExpressLayer)
       (post : list ExpressLayer) : Prop := mkShape {
  sh_stack : routerStack b = pre ++ static :: status :: map proxyLayer sessions ++ post;
  sh_pre_foreign : forallb (fun l => isForeign l && negb (isStatic l)) pre = true;
  sh_static_foreign : isForeign static && isStatic static = true;
  sh_status_route : layer_handler status = StatusRoute /\ layer_name status = "bound dispatch";
  sh_post_foreign : forallb isForeign post = true;
  sh_post_some : post <> [];
  sh_refs : NoDup (map layer_ref (routerStack b));
  sh_fresh : Forall (fun l => (layer_ref l < nextRef b)%nat) (routerStack b);
  sh_book : Book (connections b) (servers b) (listeners b) true sessions
}.

Definition shaped (b : Backend) (sessions : list Session) : Prop :=
  exists pre static status post, Shape b sessions pre static status post.

(** The same on an application whose static-file layer, if any, the loop
    of [spliceRouter] does not reach: the stack stays as it was, no layer
    of the contribution is in it. *)
Record Flat (names : list string) (b : Backend) (sessions : list Session) : Prop := mkFlat {
  fl_stack : routerStack b = foreignStack 0 names;
  fl_book : Book (connections b) (servers b) (listeners b) false sessions
}.

(** ** A backend to route requests on *)

(** The layers of an application, by name: Express's own two, the
    static-file layer and a router behind it. *)
Definition exampleApp : list string := ["query"; "expressInit"; "serveStatic"; "router"].

(** No foreign layer ends a request; the status route matches [GET] on the
    exact path. *)
Definition plainExpress : Express :=
  mkExpress (fun _ _ => false)
            (fun req => String.eqb (req_method req) "GET" &&
                        String.eqb (req_path req) "/remote/status").

Definition firstRemote : RemoteConnection := mkRemote "s1" "build.example.org" "SSH".
Definition secondRemote : RemoteConnection := mkRemote "s2" "test.example.org" "SSH".

Definition oneSession : Backend :=
  step (Establish firstRemote 40001) (configure (newBackend exampleApp)).

Definition twoSessions : Backend := step (Establish secondRemote 40002) oneSession.

(** The static-file layer of [exampleApp] (the layer with reference 2)
    serves the bundle of the frontend; no other foreign layer ends a
    request. *)
Definition bundleServed : Express :=
  mkExpress (fun ref req => Nat.eqb ref 2 && String.eqb (req_path req) "/bundle.js")
            (fun req => String.eqb (req_method req) "GET" &&
                        String.eqb (req_path req) "/remote/status").

(** An application without a static-file layer, and a session on it. *)
Definition bareApp : list string := ["query"; "expressInit"; "router"].

Definition bareSession : Backend :=
  step (Establish firstRemote 40001) (configure (newBackend bareApp)).

(** ** Notions for the properties of the remaining code *)

(** What arrived on stdout, and on stderr, in order. *)
Fixpoint outs (chunks : list Chunk) : string :=
  match chunks with
  | [] => ""
  | Out d :: rest => d +:+ outs rest
  | Err _ :: rest => outs rest
  end.

Fixpoint errs (chunks : list Chunk) : string :=
  match chunks with
  | [] => ""
  | Out _ :: rest => errs rest
  | Err d :: rest => d +:+ errs rest
  end.

(** A string of decimal digits. *)
Fixpoint allDigits (s : string) : bool :=
  match s with
  | EmptyString => true
  | String c rest => isDigit c && allDigits rest
  end.

(** The characters [cleanupDirectoryName] is there to get rid of. *)
Definition unsafeInDirectoryName (c : ascii) : bool :=
  existsb (Ascii.eqb c) ["@"; "<"; ">"; ":"; ascii_of_nat 34; "\"; "|"; "?"; "*"; "/"]%char.

Fixpoint hasChar (p : ascii -> bool) (s : string) : bool :=
  match s with
  | EmptyString => false
  | String c rest => p c || hasChar p rest
  end.

(** The ssh2 client answers the command with a completed, empty execution,
    in every state. *)
Definition silentOn {W} (host : Host W) (cmd : string) : Prop :=
  forall w, exists turns,
    fst (client_exec host cmd w) = ExecStream turns /\
    ch_deferred (exec_events (concat turns)) = Some emptyResult.

(** A transport on which nothing ever comes back. *)
Definition deadTransport (cmd : string) (n : nat) : ExecResponse := printed "" "".

(** ** Auxiliary notions of the proofs *)


(** The tester holds of the buffers after [k] chunks on top of [r]. *)
Definition holdsAfter (tester : RemoteExecTester) (r : RemoteExecResult)
           (chunks : list Chunk) (k : nat) : bool :=
  let r' := accumulatedFrom r (take k chunks) in tester (stdout r') (stderr r').

(** The password budget and the password prompts so far add up to the
    initial budget. *)
Definition budgetKept (s : AuthState) : Prop :=
  (0 <= passwordRetryCount s)%Z /\
  (Z.of_nat (passwordPrompts s) + passwordRetryCount s = passwordRetryCount_default)%Z.

(** A step that touches neither the password budget nor the password prompts. *)
Definition passwordUntouched (s s' : AuthState) : Prop :=
  passwordRetryCount s' = passwordRetryCount s /\ passwordPrompts s' = passwordPrompts s.

(** The string ends in a backslash. *)
Fixpoint endsWithBackslash (s : string) : bool :=
  match s with
  | EmptyString => false
  | String c EmptyString => Ascii.eqb c "\"
  | String _ rest => endsWithBackslash rest
  end.

(** The number of double quotes of the string that do not come directly
    after a backslash ([escaped] tells whether the character before the
    string was one). *)
Fixpoint bareQuotes (escaped : bool) (s : string) : nat :=
  match s with
  | EmptyString => O
  | String c rest =>
      if Ascii.eqb c (ascii_of_nat 34)
      then (if escaped then 0 else 1) + bareQuotes false rest
      else bareQuotes (Ascii.eqb c "\") rest
  end.

(** [isConnectionAlive]: [Boolean(getConnection(remoteId))], on the registry
    as modelled above. *)
Definition isConnectionAlive (remoteId : string) (b : Backend) : bool :=
  match connections b !! remoteId with
  | Some _ => true
  | None => false
  end.

(** A reply of the public-key branch: a key is submitted, or the handler
    asks ssh2 to call again for the next one. *)
Definition isKeyReply (r : AuthReply) : bool :=
  match r with
  | Decision (AuthPublicKey _ _) => true
  | Decision NEXT_AUTH => true
  | _ => false
  end.

(** How often the public-key branch was taken. *)
Definition keyAttempts (replies : list AuthReply) : nat :=
  length (List.filter isKeyReply replies).

Definition isPassphraseQuestion (q : Question) : bool :=
  match q with
  | AskPassphrase _ => true
  | _ => false
  end.

(** How often the passphrase input box was shown so far. *)
Definition passphrasePrompts (s : AuthState) : nat :=
  length (List.filter isPassphraseQuestion (asked s)).

Definition isPrompt (c : AuthCall) : bool :=
  match c with
  | Prompt _ => true
  | Invoke _ => false
  end.

(** The keyboard-interactive rounds among the calls: the calls of the
    [prompt] function. *)
Definition promptRounds (cs : list AuthCall) : nat :=
  length (List.filter isPrompt cs).

(** A step that leaves the identity keys and the keyboard budget alone and
    shows the passphrase box at most [n] times. *)
Definition keysKept (n : nat) (s s' : AuthState) : Prop :=
  identityKeys s' = identityKeys s /\
  keyboardRetryCount s' = keyboardRetryCount s /\
  (passphrasePrompts s' <= passphrasePrompts s + n)%nat.

(** A one-time-code prompt, and a server that goes through three
    keyboard-interactive rounds with it. *)
Definition codePrompt : KeyboardPrompt := mkPrompt "Verification code: " true.

Definition threeCodeRounds : list AuthCall :=
  [Invoke (Some ["keyboard-interactive"]); Prompt [codePrompt];
   Invoke (Some ["keyboard-interactive"]); Prompt [codePrompt];
   Invoke (Some ["keyboard-interactive"]); Prompt [codePrompt]].

(** From [st] to [st'] the connection kept its port and the trace grew, by
    at most [d] downloads and [c] copies, and by no more extractions than
    copies. *)
Definition tidy {W} (d c : nat) (st st' : St W) : Prop :=
  remotePort st' = remotePort st /\
  exists events, trace st' = trace st ++ events /\
    (countEvents isDownload events <= d)%nat /\
    (countEvents isCopy events <= c)%nat /\
    (countEvents isExtraction events <= countEvents isCopy events)%nat.

(** The same of a whole run, which may set the port when it resolves. *)
Definition tidyRun {W A} (d c : nat) (st : St W) (run : Outcome A * St W) : Prop :=
  (exists events, trace (snd run) = trace st ++ events /\
     (countEvents isDownload events <= d)%nat /\
     (countEvents isCopy events <= c)%nat /\
     (countEvents isExtraction events <= countEvents isCopy events)%nat) /\
  ((forall a, fst run <> Resolved a) -> remotePort (snd run) = remotePort st).

(** ** The frontend contribution *)

(** [Command]: the fields the frontend reads. *)
Record Command := mkCommand {
  command_id : string;
  command_label : option string;
  command_category : option string
}.

(** [RemoteCommands]; the label of the second as the default locale has it. *)
Definition REMOTE_SELECT : Command := mkCommand "remote.select" None None.

Definition REMOTE_DISCONNECT : Command :=
  mkCommand "remote.disconnect" (Some "Close Remote Connection") None.

(** When a registered handler reports itself enabled: by a function of its
    own, or by the default [registerCommands] puts in front of it. *)
Inductive EnabledWhen :=
| WhenNotConnected
| Own (name : string).

(** [CommandHandler]: what it executes, and its [isEnabled], if it has one. *)
Record CommandHandler := mkHandler {
  handler_execute : string;
  handler_isEnabled : option EnabledWhen
}.

(** [QuickPickInput]: a separator or an item. *)
Inductive QuickPickInput :=
| QuickPickSeparator (label : option string)
| QuickPickItem (label : option string) (id : string).

(** [StatusBarEntry]. *)
Record StatusBarEntry := mkEntry {
  entry_alignment : string;
  entry_command : string;
  entry_backgroundColor : string;
  entry_color : string;
  entry_priority : Z;
  entry_text : string;
  entry_tooltip : string
}.

(** The frontend: [remoteService.connected], the element [remoteInfo] of the
    status bar, the commands of the remote registry and what the command
    registry was given, in order. *)
Record Frontend := mkFrontend {
  fe_connected : bool;
  fe_remoteInfo : option StatusBarEntry;
  fe_remoteCommands : list Command;
  fe_commandRegistry : list (Command * option CommandHandler)
}.

(** The name as the status bar shows it. *)
Definition shownName (name : string) : string :=
  if (30 <? String.length name)%nat then substring 0 30 name +:+ "..." else name.

(** [setStatusBar(info)], with the tooltips of the default locale. *)
Definition setStatusBar (info : RemoteStatus) (fe : Frontend) : Frontend :=
  let entry :=
    match info with
    | Alive name type =>
        mkEntry "LEFT" (command_id REMOTE_SELECT)
                "var(--theia-statusBarItem-remoteBackground)"
                "var(--theia-statusBarItem-remoteForeground)" 10000
                ("$(codicon-remote) " +:+ type +:+ ": " +:+ shownName name)
                ("Editing on " +:+ name)
    | NotAlive =>
        mkEntry "LEFT" (command_id REMOTE_SELECT)
                "var(--theia-statusBarItem-remoteBackground)"
                "var(--theia-statusBarItem-remoteForeground)" 10000
                "$(codicon-remote)" "Open a Remote Window"
    end in
  mkFrontend (match info with Alive _ _ => true | NotAlive => false end)
             (Some entry) (fe_remoteCommands fe) (fe_commandRegistry fe).

(** [commands.registerCommand(command, handler)]: the command registry is
    not among the sources; what it is given is kept, in order. *)
Definition commands_registerCommand (command : Command) (handler : option CommandHandler)
           (fe : Frontend) : Frontend :=
  mkFrontend (fe_connected fe) (fe_remoteInfo fe) (fe_remoteCommands fe)
             (fe_commandRegistry fe ++ [(command, handler)]).

(** A listener of [onDidRegisterCommand]. *)
Definition RegisterListener := Command -> option CommandHandler -> Frontend -> Frontend.

(** [RemoteRegistry.registerCommand]: fires the event, then keeps the command. *)
Definition registerCommand (listeners : list RegisterListener) (command : Command)
           (handler : option CommandHandler) (fe : Frontend) : Frontend :=
  let fe := fold_left (fun fe listener => listener command handler fe) listeners fe in
  mkFrontend (fe_connected fe) (fe_remoteInfo fe) (fe_remoteCommands fe ++ [command])
             (fe_commandRegistry fe).

(** [{ isEnabled: () => !isConnected(), ...handler }]: the handler's own
    [isEnabled] wins over the default. *)
Definition withDefaultEnablement (handler : CommandHandler) : CommandHandler :=
  mkHandler (handler_execute handler)
            (Some (match handler_isEnabled handler with
                   | Some own => own
                   | None => WhenNotConnected
                   end)).

(** The listener [registerCommands] subscribes. *)
Definition onDidRegisterCommand : RegisterListener :=
  fun command handler fe =>
    commands_registerCommand command (option_map withDefaultEnablement handler) fe.

(** A [RemoteRegistryContribution], by the calls of [registerCommand] its
    [registerRemoteCommands] makes. *)
Definition RemoteRegistryContribution := list (Command * option CommandHandler).

Definition registerRemoteCommands (contribution : RemoteRegistryContribution)
           (fe : Frontend) : Frontend :=
  fold_left (fun fe call => registerCommand [onDidRegisterCommand] (fst call) (snd call) fe)
            contribution fe.

(** [registerCommands]. *)
Definition registerCommands (contributions : list RemoteRegistryContribution)
           (fe : Frontend) : Frontend :=
  let fe := fold_left (fun fe contribution => registerRemoteCommands contribution fe)
                      contributions fe in
  let fe := commands_registerCommand REMOTE_SELECT (Some (mkHandler "selectRemote" None)) fe in
  commands_registerCommand REMOTE_DISCONNECT (Some (mkHandler "disconnectRemote" None)) fe.

(** [previousCategory !== command.category], negated. *)
Definition sameCategory (a b : option string) : bool :=
  match a, b with
  | None, None => true
  | Some x, Some y => String.eqb x y
  | _, _ => false
  end.

(** The loop of [selectRemote]. *)
Fixpoint quickPicksFrom (previousCategory : option string) (commands : list Command)
  : list QuickPickInput :=
  match commands with
  | [] => []
  | command :: rest =>
      if sameCategory previousCategory (command_category command)
      then QuickPickItem (command_label command) (command_id command)
             :: quickPicksFrom previousCategory rest
      else QuickPickSeparator (command_category command)
             :: QuickPickItem (command_label command) (command_id command)
             :: quickPicksFrom (command_category command) rest
  end.

(** What [selectRemote] hands to [showQuickPick]. *)
Definition selectRemote (fe : Frontend) : list QuickPickInput :=
  let commands := if fe_connected fe then [REMOTE_DISCONNECT] else fe_remoteCommands fe in
  quickPicksFrom None commands.

(** The frontend before [registerCommands]. *)
Definition newFrontend (connected : bool) : Frontend := mkFrontend connected None [] [].

(** The items among the quick picks, and the ids registered. *)
Definition pickedIds (picks : list QuickPickInput) : list string :=
  flat_map (fun pick => match pick with
                        | QuickPickItem _ id => [id]
                        | QuickPickSeparator _ => []
                        end) picks.

Definition registeredIds (fe : Frontend) : list string :=
  map (fun entry => command_id (fst entry)) (fe_commandRegistry fe).

(** [RemoteFrontendContribution.configure]: the status is what the backend
    answered to the status request.  An answer that did not come from the
    status route is no status object, and what the frontend makes of it is
    left open ([None]). *)
Definition RemoteFrontendContribution_configure (response : Response) (fe : Frontend)
  : option Frontend :=
  match response with
  | AnsweredLocally info => Some (setStatusBar info fe)
  | _ => None
  end.

(** A string of white space only. *)
Fixpoint allWhiteSpace (s : string) : bool :=
  match s with
  | EmptyString => true
  | String c rest => isWhiteSpace c && allWhiteSpace rest
  end.

(** A transport that stays silent for [quiet] calls and then fails to open
    a channel. *)
Definition failingAfter (quiet : nat) (cmd : string) (n : nat) : ExecResponse :=
  if (n <? quiet)%nat then printed "" "" else ExecError "Channel open failure".




(** ** Theorems *)

(** *** [execPartial] *)

Lemma accumulatedFrom_cons r c chunks :
  accumulatedFrom r (c :: chunks) = accumulatedFrom (received r c) chunks.
Proof. reflexivity. Qed.


Lemma firstHit_Some tester chunks : forall r n,
  firstHit tester r chunks = Some n ->
  (1 <= n <= length chunks)%nat /\ holdsAfter tester r chunks n = true /\
  forall k, (1 <= k < n)%nat -> holdsAfter tester r chunks k = false.
Proof.
  induction chunks as [|c chunks IH]; intros r n H; [discriminate|].
  cbn [firstHit] in H.
  destruct (tester (stdout (received r c)) (stderr (received r c))) eqn:Ht.
  - injection H as <-. cbn [length]. split; [lia|]. split.
    + unfold holdsAfter. cbn [take].
      replace (take 0 chunks) with (@nil Chunk) by (destruct chunks; reflexivity).
      exact Ht.
    + intros k Hk. lia.
  - destruct (firstHit tester (received r c) chunks) as [m|] eqn:Hm; [|discriminate].
    injection H as <-. destruct (IH _ _ Hm) as (Hr & Hn & Hlt).
    cbn [length]. split; [lia|]. split; [exact Hn|].
    intros [|[|k]] Hk; [lia| |].
    + unfold holdsAfter. cbn [take].
      replace (take 0 chunks) with (@nil Chunk) by (destruct chunks; reflexivity).
      exact Ht.
    + apply (Hlt (S k)). lia.
Qed.

Lemma firstHit_None tester chunks : forall r,
  firstHit tester r chunks = None ->
  forall k, (1 <= k <= length chunks)%nat -> holdsAfter tester r chunks k = false.
Proof.
  induction chunks as [|c chunks IH]; intros r H k Hk; [simpl in Hk; lia|].
  cbn [firstHit] in H.
  destruct (tester (stdout (received r c)) (stderr (received r c))) eqn:Ht; [discriminate|].
  destruct (firstHit tester (received r c) chunks) eqn:Hm; [discriminate|].
  destruct k as [|[|k]]; [lia| |].
  - unfold holdsAfter. cbn [take].
    replace (take 0 chunks) with (@nil Chunk) by (destruct chunks; reflexivity).
    exact Ht.
  - apply (IH _ Hm (S k)). cbn [length] in Hk. lia.
Qed.

(** A promise that is resolved stays as it is, whatever the listeners see. *)
Lemma execPartial_on_keeps tester ch ev v :
  ch_deferred ch = Some v -> ch_deferred (execPartial_on tester ch ev) = Some v.
Proof.
  intros Hv. unfold execPartial_on. destruct (ch_state ch); [|exact Hv].
  destruct ev; unfold testAndResolve; cbn [ch_deferred]; rewrite Hv; cbn [resolve];
    try reflexivity; match goal with |- context [if ?b then _ else _] => destruct b end;
    reflexivity.
Qed.

Lemma execPartial_turn_keeps tester turn : forall ch v,
  ch_deferred ch = Some v -> ch_deferred (execPartial_turn tester ch turn) = Some v.
Proof.
  unfold execPartial_turn. induction turn as [|ev turn IH]; intros ch v Hv; cbn [fold_left].
  - unfold runReactions. rewrite Hv. reflexivity.
  - apply IH, execPartial_on_keeps, Hv.
Qed.

Lemma execPartial_turns_keep tester turns : forall ch v,
  ch_deferred ch = Some v ->
  ch_deferred (fold_left (execPartial_turn tester) turns ch) = Some v.
Proof.
  induction turns as [|turn turns IH]; intros ch v Hv; cbn [fold_left]; [exact Hv|].
  apply IH, execPartial_turn_keeps, Hv.
Qed.

(** Within a turn the state of the deferred stays 'unresolved': every event
    reaches its listener, the buffers grow with every chunk, and the promise
    takes the buffers of the first event that calls for a resolution. *)
Lemma execPartial_within_turn tester events : forall ch,
  ch_state ch = state_unresolved ->
  let ch' := fold_left (execPartial_on tester) events ch in
  ch_state ch' = state_unresolved /\
  ch_deferred ch' =
    match ch_deferred ch with
    | Some v => Some v
    | None => firstResolution tester (buffersOf ch) events
    end /\
  buffersOf ch' = bufferedFrom (buffersOf ch) events.
Proof.
  induction events as [|ev events IH]; intros ch Hstate; cbn zeta.
  - cbn [fold_left firstResolution bufferedFrom]. split; [exact Hstate|]. split; [|reflexivity].
    destruct (ch_deferred ch); reflexivity.
  - cbn [fold_left].
    assert (Hstep : ch_state (execPartial_on tester ch ev) = state_unresolved /\
                    buffersOf (execPartial_on tester ch ev) = eventReceived (buffersOf ch) ev /\
                    ch_deferred (execPartial_on tester ch ev) =
                      match ch_deferred ch with
                      | Some v => Some v
                      | None =>
                          match ev with
                          | OnClose => Some (buffersOf ch)
                          | _ =>
                              let r' := eventReceived (buffersOf ch) ev in
                              if tester (stdout r') (stderr r') then Some r' else None
                          end
                      end).
    { unfold execPartial_on. rewrite Hstate.
      destruct ev; unfold testAndResolve, buffersOf;
        cbn [ch_state ch_deferred ch_stdout ch_stderr eventReceived received stdout stderr];
        (split; [first [exact Hstate | reflexivity]|]); (split; [reflexivity|]);
        destruct (ch_deferred ch); cbn [resolve]; try reflexivity;
        match goal with |- context [if ?b then _ else _] => destruct b end; reflexivity. }
    destruct Hstep as (Hstate1 & Hbuf1 & Hdef1).
    destruct (IH (execPartial_on tester ch ev) Hstate1) as (Hstate' & Hdef' & Hbuf').
    cbn zeta in Hstate', Hdef', Hbuf'.
    split; [exact Hstate'|]. split.
    + rewrite Hdef', Hdef1, Hbuf1. destruct (ch_deferred ch) as [v|]; [reflexivity|].
      destruct ev; cbn [firstResolution]; try reflexivity;
        match goal with |- context [if ?b then _ else _] => destruct b end; reflexivity.
    + rewrite Hbuf', Hbuf1. reflexivity.
Qed.

Lemma firstResolution_app tester e1 : forall r e2,
  firstResolution tester r (e1 ++ e2) =
  match firstResolution tester r e1 with
  | Some v => Some v
  | None => firstResolution tester (bufferedFrom r e1) e2
  end.
Proof.
  induction e1 as [|ev e1 IH]; intros r e2; [reflexivity|].
  destruct ev; cbn [app firstResolution bufferedFrom fold_left]; try reflexivity;
    match goal with |- context [if ?b then _ else _] => destruct b end;
    try reflexivity; apply IH.
Qed.

(** What the promise of [execPartial] is resolved with depends on the
    events alone, not on the turns they come in. *)
Lemma execPartial_value_from tester turns : forall ch,
  ch_state ch = state_unresolved -> ch_deferred ch = None ->
  ch_deferred (fold_left (execPartial_turn tester) turns ch) =
  firstResolution tester (buffersOf ch) (concat turns).
Proof.
  induction turns as [|turn turns IH]; intros ch Hstate Hnone; cbn [fold_left concat].
  - exact Hnone.
  - rewrite firstResolution_app.
    destruct (execPartial_within_turn tester turn ch Hstate) as (Hstate' & Hdef' & Hbuf').
    cbn zeta in Hstate', Hdef', Hbuf'. rewrite Hnone in Hdef'.
    destruct (firstResolution tester (buffersOf ch) turn) as [v|] eqn:Hfirst.
    + apply execPartial_turns_keep. unfold execPartial_turn, runReactions.
      rewrite Hdef'. reflexivity.
    + assert (Hturn : execPartial_turn tester ch turn =
                      fold_left (execPartial_on tester) turn ch).
      { unfold execPartial_turn, runReactions. rewrite Hdef'. reflexivity. }
      rewrite Hturn, (IH _ Hstate' Hdef'), Hbuf'. reflexivity.
Qed.

Lemma execPartial_value tester turns :
  ch_deferred (execPartial_events tester turns) =
  firstResolution tester (mkResult "" "") (concat turns).
Proof. apply (execPartial_value_from tester turns newChannel); reflexivity. Qed.

Lemma bufferedFrom_chunks chunks : forall r,
  bufferedFrom r (map chunkEvent chunks) = accumulatedFrom r chunks.
Proof.
  induction chunks as [|c chunks IH]; intros r; [reflexivity|].
  cbn [map bufferedFrom fold_left]. rewrite accumulatedFrom_cons, <- IH.
  destruct c; reflexivity.
Qed.

(** The first resolution among chunks: at the first hit of the tester. *)
Lemma firstResolution_chunks tester chunks : forall r later,
  firstResolution tester r (map chunkEvent chunks ++ later) =
  match firstHit tester r chunks with
  | Some n => Some (accumulatedFrom r (take n chunks))
  | None => firstResolution tester (accumulatedFrom r chunks) later
  end.
Proof.
  induction chunks as [|c chunks IH]; intros r later; [reflexivity|].
  cbn [map app firstHit].
  assert (Hstep : firstResolution tester r (chunkEvent c :: map chunkEvent chunks ++ later) =
                  if tester (stdout (received r c)) (stderr (received r c))
                  then Some (received r c)
                  else firstResolution tester (received r c) (map chunkEvent chunks ++ later)).
  { destruct c; reflexivity. }
  rewrite Hstep.
  destruct (tester (stdout (received r c)) (stderr (received r c))).
  - cbn [take]. replace (take 0 chunks) with (@nil Chunk) by (destruct chunks; reflexivity).
    reflexivity.
  - rewrite IH. destruct (firstHit tester (received r c) chunks) as [n|]; reflexivity.
Qed.

(** *** [retry] *)

Lemma hasOutput_false r : hasOutput r = false -> r = emptyResult.
Proof.
  destruct r as [o e]. unfold hasOutput, emptyResult. simpl.
  destruct e, o; simpl; intros H; try discriminate. reflexivity.
Qed.

Lemma counted_run {W A} (action : M W A) (st : St W) c :
  counted action (counting c st) = (fst (action st), counting (S c) (snd (action st))).
Proof.
  unfold counted, counting. simpl. destruct st as [w t p]. simpl.
  destruct (action (mkSt w t p)) as [o st']. reflexivity.
Qed.

Lemma retry_loop_S {W} (action : M W RemoteExecResult) n result st :
  retry_loop (S n) action result st =
  match action st with
  | (Resolved r, st') =>
      if hasOutput r then (Resolved r, st') else retry_loop n action r st'
  | (Rejected err, st') => (Rejected err, st')
  | (Pending, st') => (Pending, st')
  end.
Proof.
  cbn [retry_loop]. unfold bind. destruct (action st) as [[r|err|] st']; try reflexivity.
  destruct (hasOutput r); reflexivity.
Qed.

(** The loop of [retry] against the outcomes of the calls it makes. *)
Lemma retry_loop_counted {W} (action : M W RemoteExecResult) n : forall st c result,
  let run := retry_loop n (counted action) result (counting c st) in
  let tries := attempts n action st in
  (c <= calls (snd run) <= c + n)%nat /\
  (fst run, withoutCounter (snd run)) = retry_loop n action result st /\
  (forall i r, tries !! i = Some (Resolved r) -> hasOutput r = true ->
               (forall j o, (j < i)%nat -> tries !! j = Some o -> isSilent o = true) ->
               fst run = Resolved r /\ calls (snd run) = (c + S i)%nat) /\
  (forallb isSilent tries = true ->
   calls (snd run) = (c + n)%nat /\
   exists r, fst run = Resolved r /\ (n = O -> r = result) /\ ((0 < n)%nat -> r = emptyResult)).
Proof.
  induction n as [|n IH]; intros st c result run tries; subst run tries.
  - cbn [retry_loop attempts]. unfold ret, calls, withoutCounter, counting. simpl.
    split; [lia|]. split; [destruct st; reflexivity|]. split.
    + intros i r H. rewrite lookup_nil in H. discriminate.
    + intros _. split; [lia|]. exists result. split; [reflexivity|]. split; [reflexivity|lia].
  - rewrite !retry_loop_S, counted_run. cbn [attempts].
    destruct (action st) as [o st'] eqn:Hact. cbn [fst snd].
    destruct o as [r|err|].
    + destruct (hasOutput r) eqn:Hout.
      * cbn [fst snd]. unfold calls, withoutCounter, counting. cbn [world snd fst trace remotePort].
        split; [lia|]. split; [destruct st'; reflexivity|]. split.
        -- intros [|i] r' Hi Hr' Hsilent.
           ++ cbn in Hi. injection Hi as <-. split; [reflexivity|lia].
           ++ specialize (Hsilent O (Resolved r) ltac:(lia) eq_refl).
              cbn in Hsilent. rewrite Hout in Hsilent. discriminate.
        -- cbn [forallb isSilent]. rewrite Hout. cbn. discriminate.
      * specialize (IH st' (S c) r). cbn zeta in IH.
        destruct IH as (Hcalls & Herase & Hfirst & Hall).
        split; [lia|]. split; [exact Herase|]. split.
        -- intros [|i] r' Hi Hr' Hsilent.
           ++ cbn in Hi. injection Hi as <-. congruence.
           ++ cbn in Hi. destruct (Hfirst i r' Hi Hr') as [H1 H2].
              { intros j o Hj Ho. apply (Hsilent (S j) o); [lia|exact Ho]. }
              split; [exact H1|lia].
        -- cbn [forallb]. intros Hs. apply andb_prop in Hs as [_ Hs].
           destruct (Hall Hs) as (Hc & r' & Hr' & Hzero & Hpos).
           split; [lia|]. exists r'. split; [exact Hr'|]. split; [lia|].
           intros _. destruct n as [|n'].
           ++ rewrite (Hzero eq_refl). apply hasOutput_false, Hout.
           ++ apply Hpos. lia.
    + cbn [fst snd]. unfold calls, withoutCounter, counting. cbn [world snd fst trace remotePort].
      split; [lia|]. split; [destruct st'; reflexivity|]. split.
      * intros [|i] r' Hi Hr' Hsilent.
        -- cbn in Hi. discriminate.
        -- specialize (Hsilent O (Rejected err) ltac:(lia) eq_refl). discriminate.
      * cbn. discriminate.
    + cbn [fst snd]. unfold calls, withoutCounter, counting. cbn [world snd fst trace remotePort].
      split; [lia|]. split; [destruct st'; reflexivity|]. split.
      * intros [|i] r' Hi Hr' Hsilent.
        -- cbn in Hi. discriminate.
        -- specialize (Hsilent O Pending ltac:(lia) eq_refl). discriminate.
      * cbn. discriminate.
Qed.

(** C4.  [retry] with its default ceiling calls the action at most 20
    times, whatever the action is.  The counter next to the outside world
    records the calls; erasing it gives the run of the plain action.  When
    the [i]-th call is the first to return output on either stream, [retry]
    returns that result after [i] calls; when all 20 calls return with both
    streams empty, [retry] stops after the 20th and returns the empty
    result. *)
Theorem retry_stops_at_ceiling {W} (action : M W RemoteExecResult) (st : St W) :
  let run := retry (counted action) retry_times (withCounter st) in
  let tries := attempts 20 action st in
  (calls (snd run) <= 20)%nat /\
  (fst run, withoutCounter (snd run)) = retry action retry_times st /\
  (forall i r, tries !! i = Some (Resolved r) -> hasOutput r = true ->
               (forall j o, (j < i)%nat -> tries !! j = Some o -> isSilent o = true) ->
               fst run = Resolved r /\ calls (snd run) = S i) /\
  (forallb isSilent tries = true ->
   fst run = Resolved (mkResult "" "") /\ calls (snd run) = 20%nat).
Proof.
  intros run tries. subst run tries. unfold retry, retry_times, withCounter.
  change (Z.to_nat 20) with 20%nat.
  pose proof (retry_loop_counted action 20 st 0 emptyResult) as H. cbn zeta in H.
  destruct H as (Hcalls & Herase & Hfirst & Hall).
  split; [lia|]. split; [exact Herase|]. split.
  - intros i r Hi Hr Hs. destruct (Hfirst i r Hi Hr Hs) as [H1 H2]. split; [exact H1|lia].
  - intros Hs. destruct (Hall Hs) as (Hc & r & Hr & _ & Hpos).
    rewrite Hr, (Hpos ltac:(lia)). split; [reflexivity|lia].
Qed.

(** *** Probes *)

Lemma append_empty_r (s : string) : s +:+ "" = s.
Proof.
  induction s as [|c s IH]; [reflexivity|].
  change (String c (s +:+ "") = String c s). f_equal. exact IH.
Qed.

Lemma buildCmd_no_args cmd : buildCmd cmd [] = cmd.
Proof. unfold buildCmd. simpl. apply append_empty_r. Qed.

Lemma truthy_false s : truthy s = false <-> s = "".
Proof. destruct s; simpl; split; intros H; congruence. Qed.

Lemma truthy_true s : truthy s = true <-> s <> "".
Proof. destruct s; simpl; split; intros H; congruence. Qed.

(** What [exec] leaves behind: the world the client moved to, and one more
    entry in the trace. *)
Lemma exec_trace {W} (host : Host W) cmd args st :
  snd (exec host cmd args st) =
  mkSt (snd (client_exec host (buildCmd cmd args) (world st)))
       (trace st ++ [EvExec (buildCmd cmd args)]) (remotePort st).
Proof.
  unfold exec. destruct (client_exec host (buildCmd cmd args) (world st)) as [[err|events] w];
    reflexivity.
Qed.

Lemma repeat_snoc {A} (x : A) k : repeat x k ++ [x] = repeat x (S k).
Proof. induction k as [|k IH]; simpl; [reflexivity|]. f_equal. exact IH. Qed.

(** A retried [exec] issues the one command, between once and [n] times. *)
Lemma retry_exec_trace {W} (host : Host W) cmd n : forall result st,
  let run := retry_loop n (exec host cmd []) result st in
  exists k, (k <= n)%nat /\ ((0 < n)%nat -> (1 <= k)%nat) /\
            trace (snd run) = trace st ++ repeat (EvExec cmd) k /\
            remotePort (snd run) = remotePort st.
Proof.
  induction n as [|n IH]; intros result st run; subst run.
  - exists O. simpl. rewrite app_nil_r. repeat split; lia.
  - rewrite retry_loop_S.
    pose proof (exec_trace host cmd [] st) as Hst. rewrite buildCmd_no_args in Hst.
    destruct (exec host cmd [] st) as [o st1]. cbn [snd] in Hst.
    assert (Hone : trace st1 = trace st ++ repeat (EvExec cmd) 1 /\ remotePort st1 = remotePort st).
    { rewrite Hst. split; reflexivity. }
    destruct o as [r|err|].
    + destruct (hasOutput r).
      * exists 1%nat. cbn [snd]. destruct Hone. repeat split; try lia; assumption.
      * destruct (IH r st1) as (k & Hk & _ & Htr & Hport).
        exists (S k). destruct Hone as [H1 H2]. split; [lia|]. split; [lia|]. split.
        -- rewrite Htr, H1. simpl. rewrite <- app_assoc. reflexivity.
        -- congruence.
    + exists 1%nat. cbn [snd]. destruct Hone. repeat split; try lia; assumption.
    + exists 1%nat. cbn [snd]. destruct Hone. repeat split; try lia; assumption.
Qed.

Lemma platformOf_cases (result : RemoteExecResult) :
  platformOf result =
  if truthy (stderr result) || includes "windows32" (stdout result)
     || includes "MINGW64" (stdout result) then Some windows
  else if includes "Linux" (stdout result) then Some linux
  else if includes "Darwin" (stdout result) then Some darwin
  else None.
Proof.
  unfold platformOf. destruct (truthy (stderr result)); [reflexivity|].
  destruct (stdout result) as [|c s]; [reflexivity|]. reflexivity.
Qed.

(** C7.  Whatever the retried platform probe returned, [detectRemotePlatform]
    classifies it in this order: windows when stderr is not empty or stdout
    contains [windows32] or [MINGW64]; else linux when stdout contains
    [Linux]; else darwin when stdout contains [Darwin]; and for every other
    result it throws the detection error.  No other platform is returned. *)
Theorem detectRemotePlatform_classifies {W} (host : Host W) (st st' : St W)
        (result : RemoteExecResult) :
  retry (exec host "uname -s" []) retry_times st = (Resolved result, st') ->
  detectRemotePlatform host st =
  (if truthy (stderr result) || includes "windows32" (stdout result)
      || includes "MINGW64" (stdout result) then Resolved windows
   else if includes "Linux" (stdout result) then Resolved linux
   else if includes "Darwin" (stdout result) then Resolved darwin
   else Rejected ("Failed to identify remote system: " +:+ stdout result +:+ nl +:+ stderr result),
   st').
Proof.
  intros Hprobe. unfold detectRemotePlatform, bind. rewrite Hprobe, platformOf_cases.
  destruct (truthy (stderr result) || includes "windows32" (stdout result)
            || includes "MINGW64" (stdout result)); [reflexivity|].
  destruct (includes "Linux" (stdout result)); [reflexivity|].
  destruct (includes "Darwin" (stdout result)); reflexivity.
Qed.

Lemma detectRemotePlatform_classifies_witness :
  detectRemotePlatform (scriptedHost installedLinux) (startOf 0) =
  (Resolved linux, mkSt 1%nat [EvExec "uname -s"] 0%N).
Proof.
  exact (detectRemotePlatform_classifies (scriptedHost installedLinux) (startOf 0)
           (mkSt 1%nat [EvExec "uname -s"] 0%N) (mkResult ("Linux" +:+ nl) "") eq_refl).
Defined.

(** C10.  A platform probe that returned anything on stderr is classified
    as windows, whatever its stdout holds. *)
Theorem stderr_means_windows {W} (host : Host W) (st st' : St W) (result : RemoteExecResult) :
  retry (exec host "uname -s" []) retry_times st = (Resolved result, st') ->
  stderr result <> "" ->
  detectRemotePlatform host st = (Resolved windows, st').
Proof.
  intros Hprobe Herr. unfold detectRemotePlatform, bind. rewrite Hprobe, platformOf_cases.
  apply truthy_true in Herr. rewrite Herr. reflexivity.
Qed.

Lemma stderr_means_windows_witness :
  includes "Linux" ("Linux" +:+ nl) = true /\
  detectRemotePlatform (scriptedHost noisyLinux) (startOf 0) =
  (Resolved windows, mkSt 1%nat [EvExec "uname -s"] 0%N).
Proof.
  split; [reflexivity|].
  apply (stderr_means_windows (scriptedHost noisyLinux) (startOf 0)
           (mkSt 1%nat [EvExec "uname -s"] 0%N)
           (mkResult ("Linux" +:+ nl) "Warning: no tty") eq_refl).
  discriminate.
Defined.

(** C9.  [dirExistsRemote] answers from the stdout of the retried probe
    alone: the directory is reported to exist exactly when that stdout is
    not empty, whatever stderr holds.  Every command it executes is the
    probe [cd "<remotePath>";echo "Success"], issued between once and 20
    times; the [echo] follows the [cd] behind a semicolon, so a probe that
    returns the output of the [echo] is taken as an existing directory
    whatever the [cd] reported. *)
Theorem dirExistsRemote_reads_stdout {W} (host : Host W) (remotePath : string)
        (st st' : St W) (result : RemoteExecResult) :
  retry (exec host (cdCommand remotePath) []) retry_times st = (Resolved result, st') ->
  dirExistsRemote host remotePath st = (Resolved (truthy (stdout result)), st') /\
  (stdout result <> "" -> dirExistsRemote host remotePath st = (Resolved true, st')) /\
  (stdout result = "" -> dirExistsRemote host remotePath st = (Resolved false, st')) /\
  exists k, (1 <= k <= 20)%nat /\
    trace st' = trace st ++
      repeat (EvExec ("cd " +:+ dq +:+ remotePath +:+ dq +:+ ";echo " +:+ dq +:+ "Success" +:+ dq)) k.
Proof.
  intros Hprobe.
  assert (Hrun : dirExistsRemote host remotePath st = (Resolved (truthy (stdout result)), st')).
  { unfold dirExistsRemote, bind. rewrite Hprobe. reflexivity. }
  split; [exact Hrun|]. split; [|split].
  - intros Hout. apply truthy_true in Hout. rewrite Hrun, Hout. reflexivity.
  - intros Hout. apply truthy_false in Hout. rewrite Hrun, Hout. reflexivity.
  - pose proof (retry_exec_trace host (cdCommand remotePath) 20 emptyResult st) as Htrace.
    cbn zeta in Htrace. unfold retry, retry_times in Hprobe.
    change (Z.to_nat 20) with 20%nat in Hprobe. rewrite Hprobe in Htrace.
    destruct Htrace as (k & Hk & Hpos & Htr & _). exists k. split; [lia|exact Htr].
Qed.

Lemma dirExistsRemote_reads_stdout_witness :
  dirExistsRemote (scriptedHost emptyLinux) "/home/user/.theia-1.0.0-remote/lib" (startOf 0) =
  (Resolved true,
   mkSt 1%nat [EvExec (cdCommand "/home/user/.theia-1.0.0-remote/lib")] 0%N).
Proof.
  exact (proj1 (dirExistsRemote_reads_stdout (scriptedHost emptyLinux)
                  "/home/user/.theia-1.0.0-remote/lib" (startOf 0)
                  (mkSt 1%nat [EvExec (cdCommand "/home/user/.theia-1.0.0-remote/lib")] 0%N)
                  (mkResult ("Success" +:+ nl) "sh: 1: cd: can't cd to it") eq_refl)).
Defined.

(** *** The authentication handler *)

(** C6, as the code has it.  Called without a list of methods
    ([methodsLeft] is [null], as in the first call of ssh2), the handler
    submits the method [none] with the user name and changes nothing.
    Called with a list of methods of which no branch applies (no public key
    to try, no password budget, no keyboard-interactive budget, or the
    method not offered; the empty list is such a list), it signals that
    authentication failed. *)
Theorem none_when_no_methods_left (store : KeyStore) (user host : string) (s : AuthState) :
  authHandler store user host None s = (AuthNone user, s) /\
  forall methods,
    publicKeyApplies methods s = false ->
    passwordApplies methods s = false ->
    keyboardApplies methods s = false ->
    authHandler store user host (Some methods) s = (END_AUTH, s).
Proof.
  split; [reflexivity|].
  intros methods Hkey Hpw Hkbd.
  unfold publicKeyApplies in Hkey. unfold passwordApplies in Hpw. unfold keyboardApplies in Hkbd.
  unfold authHandler. rewrite Hpw, Hkbd.
  destruct (offers methods "publickey"); [|reflexivity].
  destruct (identityKeys s); [reflexivity|discriminate].
Qed.

Lemma none_when_no_methods_left_witness :
  authHandler (mkKeyStore (fun _ => false) (fun _ => "") (fun _ _ => ParseError "no key"))
              "user" "host" (Some ["publickey"; "password"; "hostbased"])
              (mkAuth 0 3 [] [] []) =
  (END_AUTH, mkAuth 0 3 [] [] []).
Proof.
  apply (none_when_no_methods_left
           (mkKeyStore (fun _ => false) (fun _ => "") (fun _ _ => ParseError "no key"))
           "user" "host" (mkAuth 0 3 [] [] []));
    reflexivity.
Defined.

(** C6, as stated, fails: called with the empty list, no method remaining
    to try, the handler does not submit the method [none]; it signals that
    authentication failed.  The test of the handler is [!methodsLeft], which
    holds of [null] and not of an empty array. *)
Lemma no_methods_remaining_counterexample :
  let s := getAuthHandler [] [] in
  authHandler noKeyFiles "user" "host" (Some []) s = (END_AUTH, s) /\
  fst (authHandler noKeyFiles "user" "host" (Some []) s) <> AuthNone "user".
Proof. cbv zeta. split; [reflexivity|discriminate]. Qed.

Lemma passwordUntouched_refl s : passwordUntouched s s.
Proof. split; reflexivity. Qed.

Lemma passwordUntouched_trans s1 s2 s3 :
  passwordUntouched s1 s2 -> passwordUntouched s2 s3 -> passwordUntouched s1 s3.
Proof. intros [H1 H2] [H3 H4]. split; congruence. Qed.

Lemma passwordPrompts_asked pw kb keys ans qs q :
  passwordPrompts (mkAuth pw kb keys ans (qs ++ [q])) =
  (passwordPrompts (mkAuth pw kb keys ans qs) + if isPasswordQuestion q then 1 else 0)%nat.
Proof.
  unfold passwordPrompts. cbn [asked]. rewrite List.filter_app, length_app. cbn [List.filter].
  destruct (isPasswordQuestion q); reflexivity.
Qed.

Lemma input_untouched q s :
  isPasswordQuestion q = false -> passwordUntouched s (snd (input q s)).
Proof.
  intros Hq. unfold input. destruct s as [pw kb keys ans qs]. cbn [answers].
  destruct ans as [|a rest]; cbn [snd]; split; try reflexivity;
    rewrite passwordPrompts_asked, Hq; unfold passwordPrompts; cbn [asked]; lia.
Qed.

Lemma passphraseLoop_untouched store file keyBuffer count : forall result s,
  passwordUntouched s (snd (passphraseLoop store file keyBuffer count result s)).
Proof.
  induction count as [|count IH]; intros result s; cbn [passphraseLoop].
  - apply passwordUntouched_refl.
  - destruct (isError result); [|apply passwordUntouched_refl].
    pose proof (input_untouched (AskPassphrase ("Enter passphrase for " +:+ file)) s eq_refl) as Hin.
    destruct (input (AskPassphrase ("Enter passphrase for " +:+ file)) s) as [[p|] s1];
      cbn [snd] in Hin |- *; [|exact Hin].
    destruct (truthy p); [|exact Hin].
    eapply passwordUntouched_trans; [exact Hin|apply IH].
Qed.

Lemma tryIdentityKey_untouched store user key s :
  passwordUntouched s (snd (tryIdentityKey store user key s)).
Proof.
  unfold tryIdentityKey.
  destruct (isPrivate key); [apply passwordUntouched_refl|].
  destruct (negb (pathExists store (filename key))); [apply passwordUntouched_refl|].
  set (keyBuffer := readFile store (filename key)).
  assert (Hloop : passwordUntouched s
            (snd (match parseKey store keyBuffer None with
                  | ParseError message =>
                      if String.eqb message encryptedKeyMessage
                      then passphraseLoop store (filename key) keyBuffer
                             (Z.to_nat passphraseRetryCount_default)
                             (parseKey store keyBuffer None) s
                      else (parseKey store keyBuffer None, s)
                  | _ => (parseKey store keyBuffer None, s)
                  end))).
  { destruct (parseKey store keyBuffer None) as [k|ks|message];
      try apply passwordUntouched_refl.
    destruct (String.eqb message encryptedKeyMessage);
      [apply passphraseLoop_untouched|apply passwordUntouched_refl]. }
  destruct (parseKey store keyBuffer None) as [k|ks|message] eqn:Hparse.
  - exact Hloop.
  - exact Hloop.
  - destruct (String.eqb message encryptedKeyMessage).
    + destruct (passphraseLoop store (filename key) keyBuffer
                  (Z.to_nat passphraseRetryCount_default) (ParseError message) s)
        as [[k|ks|m] s1]; exact Hloop.
    + exact Hloop.
Qed.

Lemma promptLoop_untouched user host prompts : forall responses s,
  passwordUntouched s (snd (promptLoop user host prompts responses s)).
Proof.
  induction prompts as [|p prompts IH]; intros responses s; cbn [promptLoop].
  - apply passwordUntouched_refl.
  - set (q := AskKeyboard ("(" +:+ user +:+ "@" +:+ host +:+ ") " +:+ prompt_text p)
                          (negb (prompt_echo p))).
    pose proof (input_untouched q s eq_refl) as Hin.
    destruct (input q s) as [[r|] s1]; cbn [snd] in Hin |- *.
    + eapply passwordUntouched_trans; [exact Hin|apply IH].
    + destruct Hin as [H1 H2]. split; [exact H1|exact H2].
Qed.

Lemma keyboardPrompt_untouched user host prompts s :
  passwordUntouched s (snd (keyboardPrompt user host prompts s)).
Proof.
  unfold keyboardPrompt.
  pose proof (promptLoop_untouched user host prompts [] s) as H.
  destruct (promptLoop user host prompts [] s) as [responses s1]. cbn [snd] in *.
  destruct H as [H1 H2]. split; [exact H1|exact H2].
Qed.

(** One call of the handler or of the prompt function: the budget is kept,
    and a submitted password was asked for in that call. *)
Lemma authStep_budget store user host c s :
  budgetKept s ->
  let (reply, s') := authStep store user host c s in
  budgetKept s' /\
  (passwordPrompts s + (if isPasswordReply reply then 1 else 0) <= passwordPrompts s')%nat.
Proof.
  intros [Hpos Hsum]. destruct c as [[methods|]|prompts]; cbn [authStep].
  - unfold authHandler.
    destruct (if offers methods "publickey" then identityKeys s else []) as [|key rest] eqn:Hkeys.
    + destruct (offers methods "password" && (0 <? passwordRetryCount s)%Z) eqn:Hpw.
      * apply andb_prop in Hpw as [_ Hpw]. apply Z.ltb_lt in Hpw.
        set (q := AskPassword ("Enter password for " +:+ user +:+ "@" +:+ host)).
        assert (Hin : passwordRetryCount (snd (input q s)) = passwordRetryCount s /\
                      passwordPrompts (snd (input q s)) = S (passwordPrompts s)).
        { unfold input. destruct s as [pw kb keys ans qs]. cbn [answers].
          destruct ans as [|a ans]; cbn [snd]; split; try reflexivity;
            rewrite passwordPrompts_asked; unfold passwordPrompts; cbn [asked isPasswordQuestion q];
            lia. }
        destruct (input q s) as [password s1]. cbn [snd] in Hin. destruct Hin as [H1 H2].
        assert (Hkept : budgetKept (mkAuth (passwordRetryCount s1 - 1) (keyboardRetryCount s1)
                                           (identityKeys s1) (answers s1) (asked s1))).
        { unfold budgetKept, passwordPrompts in *. cbn [passwordRetryCount asked]. lia. }
        assert (Hasked : passwordPrompts (mkAuth (passwordRetryCount s1 - 1) (keyboardRetryCount s1)
                                                 (identityKeys s1) (answers s1) (asked s1)) =
                         S (passwordPrompts s)).
        { unfold passwordPrompts in *. cbn [asked]. exact H2. }
        destruct password as [p|]; [destruct (truthy p)|];
          (split; [exact Hkept|rewrite Hasked; cbn [isPasswordReply]; lia]).
      * destruct (offers methods "keyboard-interactive" && (0 <? keyboardRetryCount s)%Z);
          (split; [split; assumption|cbn [isPasswordReply]; lia]).
    + set (s0 := mkAuth (passwordRetryCount s) (keyboardRetryCount s) rest (answers s) (asked s)).
      pose proof (tryIdentityKey_untouched store user key s0) as [H1 H2].
      assert (Hd : forall d, fst (tryIdentityKey store user key s0) = d ->
                             isPasswordReply (Decision d) = false).
      { intros d <-. unfold tryIdentityKey.
        destruct (isPrivate key); [reflexivity|].
        destruct (negb (pathExists store (filename key))); [reflexivity|].
        match goal with |- context [let (_, _) := ?x in _] => destruct x as [[k|ks|m] sx] end;
          reflexivity. }
      destruct (tryIdentityKey store user key s0) as [d s1]. cbn [fst snd] in *.
      rewrite (Hd d eq_refl).
      assert (Hs0 : passwordPrompts s0 = passwordPrompts s) by reflexivity.
      split; [|lia].
      unfold budgetKept. rewrite H1, H2, Hs0. cbn [s0 passwordRetryCount]. split; assumption.
  - split; [split; assumption|cbn [isPasswordReply]; lia].
  - pose proof (keyboardPrompt_untouched user host prompts s) as [H1 H2].
    destruct (keyboardPrompt user host prompts s) as [responses s1]. cbn [snd] in *.
    split; [|cbn [isPasswordReply]; lia].
    unfold budgetKept. rewrite H1, H2. split; assumption.
Qed.

Lemma authRun_budget store user host cs : forall s,
  budgetKept s ->
  let (replies, s') := authRun store user host cs s in
  budgetKept s' /\ (passwordPrompts s + passwordSubmissions replies <= passwordPrompts s')%nat.
Proof.
  induction cs as [|c cs IH]; intros s Hs; cbn [authRun].
  - split; [exact Hs|]. unfold passwordSubmissions. simpl. lia.
  - pose proof (authStep_budget store user host c s Hs) as Hstep.
    destruct (authStep store user host c s) as [reply s1]. destruct Hstep as [Hs1 Hle].
    specialize (IH s1 Hs1). destruct (authRun store user host cs s1) as [replies s2].
    destruct IH as [Hs2 Hle2]. split; [exact Hs2|].
    unfold passwordSubmissions in *. cbn [List.filter].
    destruct (isPasswordReply reply); cbn [length]; lia.
Qed.

Lemma getAuthHandler_budget keys ans : budgetKept (getAuthHandler keys ans).
Proof. unfold budgetKept, getAuthHandler, passwordPrompts. simpl. split; [discriminate|reflexivity]. Qed.

(** C3, as the code has it.  In every run of the handler during one
    connection attempt the password method is submitted at most 3 times and
    the password is asked for at most 3 times: the budget is one variable
    of the closure and only ever counts down.  Once the password was asked
    for three times, a call that offers [password] asks no more; when in
    that call the public-key branch does not apply ([publickey] is not
    offered, or no identity key is left), the handler moves on to
    keyboard-interactive if that is offered and has budget, and signals
    failure otherwise. *)
Theorem password_budget_never_exceeded (store : KeyStore) (user host : string)
        (keys : list SSHKey) (ans : list (option string)) (cs : list AuthCall) :
  let run := authRun store user host cs (getAuthHandler keys ans) in
  (passwordSubmissions (fst run) <= passwordPrompts (snd run) <= 3)%nat /\
  forall methods,
    passwordPrompts (snd run) = 3%nat ->
    offers methods "password" = true ->
    let next := authHandler store user host (Some methods) (snd run) in
    passwordPrompts (snd next) = 3%nat /\
    isPasswordReply (Decision (fst next)) = false /\
    (publicKeyApplies methods (snd run) = false ->
     next = (if keyboardApplies methods (snd run) then AuthKeyboardInteractive user else END_AUTH,
             snd run)).
Proof.
  intros run. subst run.
  pose proof (authRun_budget store user host cs _ (getAuthHandler_budget keys ans)) as Hrun.
  destruct (authRun store user host cs (getAuthHandler keys ans)) as [replies s].
  destruct Hrun as [[Hpos Hsum] Hle]. cbn [fst snd].
  assert (Hstart : passwordPrompts (getAuthHandler keys ans) = 0%nat) by reflexivity.
  unfold passwordRetryCount_default in Hsum.
  split; [lia|].
  intros methods Hthree Hoffer.
  assert (Hzero : passwordRetryCount s = 0%Z) by lia.
  pose proof (authStep_budget store user host (Invoke (Some methods)) s
                (conj Hpos Hsum)) as Hstep.
  cbn [authStep] in Hstep.
  destruct (authHandler store user host (Some methods) s) as [d s'] eqn:Hnext.
  destruct Hstep as [[Hpos' Hsum'] Hle']. unfold passwordRetryCount_default in Hsum'.
  cbn [fst snd]. split; [|split].
  - destruct (isPasswordReply (Decision d)); lia.
  - destruct (isPasswordReply (Decision d)); [lia|reflexivity].
  - intros Hkey. unfold publicKeyApplies in Hkey. unfold keyboardApplies.
    unfold authHandler in Hnext. rewrite Hzero in Hnext.
    rewrite andb_false_r in Hnext.
    destruct (offers methods "publickey").
    + destruct (identityKeys s); [|discriminate]. rewrite <- Hnext.
      destruct (offers methods "keyboard-interactive" && (0 <? keyboardRetryCount s)%Z); reflexivity.
    + rewrite <- Hnext.
      destruct (offers methods "keyboard-interactive" && (0 <? keyboardRetryCount s)%Z); reflexivity.
Qed.

Lemma password_budget_never_exceeded_witness :
  let run := authRun noKeyFiles "user" "host"
                     (threeRounds ["password"; "keyboard-interactive"])
                     (getAuthHandler [] threePasswords) in
  passwordSubmissions (fst run) = 3%nat /\
  authHandler noKeyFiles "user" "host" (Some ["password"; "keyboard-interactive"]) (snd run) =
  (AuthKeyboardInteractive "user", snd run).
Proof.
  split; [reflexivity|].
  apply (proj2 (password_budget_never_exceeded noKeyFiles "user" "host" [] threePasswords
                  (threeRounds ["password"; "keyboard-interactive"]))
               ["password"; "keyboard-interactive"]);
    reflexivity.
Defined.

(** C3, as stated, fails: after three password attempts a call that offers
    [password] next to [publickey], while an identity key is left, submits
    the key; it neither moves on to keyboard-interactive (offered here, and
    with budget) nor signals failure. *)
Lemma password_fallthrough_counterexample :
  let run := authRun noKeyFiles "user" "host" (threeRounds ["password"])
                     (getAuthHandler [agentKey] threePasswords) in
  let methods := ["publickey"; "password"; "keyboard-interactive"] in
  let d := fst (authHandler noKeyFiles "user" "host" (Some methods) (snd run)) in
  passwordSubmissions (fst run) = 3%nat /\
  offers methods "password" = true /\
  keyboardApplies methods (snd run) = true /\
  d = AuthPublicKey "user" (Some "KEY") /\
  ~ (d = AuthKeyboardInteractive "user" \/ d = END_AUTH).
Proof.
  cbv zeta. repeat split; try reflexivity.
  intros [H|H]; vm_compute in H; discriminate.
Qed.

(** *** [setup] on a host where both directories exist *)

Lemma grows_refl {W} (st : St W) : grows st st.
Proof. exists []. rewrite app_nil_r. split; reflexivity. Qed.

Lemma grows_trans {W} (st1 st2 st3 : St W) : grows st1 st2 -> grows st2 st3 -> grows st1 st3.
Proof.
  intros (e1 & H1 & Q1) (e2 & H2 & Q2). exists (e1 ++ e2). split.
  - rewrite H2, H1, <- app_assoc. reflexivity.
  - rewrite forallb_app, Q1, Q2. reflexivity.
Qed.

Lemma grows_emit {W} (st : St W) e : harmless e = true -> grows st (emit e st).
Proof. intros He. exists [e]. split; [reflexivity|]. simpl. rewrite He. reflexivity. Qed.

Lemma forallb_repeat {A} (p : A -> bool) x k : p x = true -> forallb p (repeat x k) = true.
Proof. intros Hx. induction k as [|k IH]; simpl; [reflexivity|]. rewrite Hx, IH. reflexivity. Qed.

(** A retried command that is not an extraction. *)
Lemma grows_retry_exec {W} (host : Host W) cmd st :
  String.prefix "tar -xf" cmd = false ->
  grows st (snd (retry (exec host cmd []) retry_times st)).
Proof.
  intros Hcmd. unfold retry.
  destruct (retry_exec_trace host cmd (Z.to_nat retry_times) emptyResult st) as (k & _ & _ & Htr & _).
  exists (repeat (EvExec cmd) k). split; [exact Htr|].
  apply forallb_repeat. unfold harmless. simpl. rewrite Hcmd. reflexivity.
Qed.

(** [await]: the continuation runs on what the first part resolved with. *)
Lemma bind_run {W A B} (c : M W A) (k : A -> M W B) st :
  bind c k st =
  match fst (c st) with
  | Resolved a => k a (snd (c st))
  | Rejected err => (Rejected err, snd (c st))
  | Pending => (Pending, snd (c st))
  end.
Proof. unfold bind. destruct (c st) as [[a|err|] st']; reflexivity. Qed.

Lemma grows_bind {W A B} (c : M W A) (k : A -> M W B) st :
  grows st (snd (c st)) ->
  (forall a, fst (c st) = Resolved a -> grows (snd (c st)) (snd (k a (snd (c st))))) ->
  grows st (snd (bind c k st)).
Proof.
  intros Hc Hk. rewrite bind_run. destruct (fst (c st)) as [a|err|] eqn:Ho.
  - eapply grows_trans; [exact Hc|apply Hk; reflexivity].
  - exact Hc.
  - exact Hc.
Qed.






Lemma grows_startApplication {W} (host : Host W) platform remotePath nodeDir st :
  grows st (snd (startApplication host platform remotePath nodeDir st)).
Proof.
  unfold startApplication. apply grows_bind.
  - unfold execPartial.
    set (cmd := buildCmd (startCommand platform remotePath nodeDir) _).
    assert (Hcmd : harmless (EvExec cmd) = true) by reflexivity.
    destruct (client_exec host cmd (world st)) as [[err|events] w]; cbn [snd];
      (eapply grows_trans; [apply (grows_emit st (EvExec cmd) Hcmd)|]);
      exists []; rewrite app_nil_r; split; reflexivity.
  - intros r _. destruct (localAddressRegex_exec (stdout r)); apply grows_refl.
Qed.

Lemma grows_report {W} (st : St W) message : grows st (snd (report message st)).
Proof. apply grows_emit. reflexivity. Qed.

Lemma harmless_counts events :
  forallb harmless events = true ->
  countEvents isDownload events = 0%nat /\ countEvents isCopy events = 0%nat /\
  countEvents isExtraction events = 0%nat.
Proof.
  unfold countEvents. induction events as [|e events IH]; simpl; [auto|].
  intros H. apply andb_prop in H as [He H]. destruct (IH H) as (H1 & H2 & H3).
  unfold harmless in He. apply andb_prop in He as [He He3]. apply andb_prop in He as [He1 He2].
  apply negb_true_iff in He1, He2, He3. rewrite He1, He2, He3. auto.
Qed.

Lemma resolved_inj {A} (a b : A) : Resolved a = Resolved b -> a = b.
Proof. congruence. Qed.


Lemma bind_resolved {W A B} (c : M W A) (k : A -> M W B) st a :
  fst (c st) = Resolved a -> bind c k st = k a (snd (c st)).
Proof. intros H. rewrite bind_run, H. reflexivity. Qed.


(** What [startApplication] resolves with is the number in the listening
    line of the backend's output. *)
Lemma startApplication_port {W} (host : Host W) platform remotePath nodeDir st port :
  fst (startApplication host platform remotePath nodeDir st) = Resolved port ->
  exists events w digits,
    client_exec host
      (buildCmd (startCommand platform remotePath nodeDir)
                [joinRemotePath platform [remotePath; "lib"; "backend"; "main.js"];
                 "--port=0"; "--remote"]) (world st) = (ExecStream events, w) /\
    (exists r, ch_deferred (execPartial_events (fun out _ => localAddressRegex_test out) events)
               = Some r /\ localAddressRegex_exec (stdout r) = Some digits) /\
    port = Number digits.
Proof.
  unfold startApplication. rewrite bind_run. unfold execPartial.
  destruct (client_exec host _ (world st)) as [[err|events] w]; cbn [fst snd]; [discriminate|].
  destruct (ch_deferred (execPartial_events _ events)) as [r|] eqn:Hr; cbn [settled];
    [|discriminate].
  destruct (localAddressRegex_exec (stdout r)) as [digits|] eqn:Hd; cbn; [|discriminate].
  intros H. apply resolved_inj in H. subst port.
  exists events, w, digits. split; [reflexivity|]. split; [|reflexivity].
  exists r. split; [exact Hr|exact Hd].
Qed.

(** *** The router stack *)

Lemma removeAt_last {A} (l : list A) x : removeAt (length (l ++ [x]) - 1) (l ++ [x]) = l.
Proof.
  rewrite length_app. cbn [length]. replace (length l + 1 - 1)%nat with (length l) by lia.
  induction l as [|y l IH]; [reflexivity|]. cbn [length app removeAt]. f_equal. exact IH.
Qed.

Lemma removeAt_app {A} (l1 : list A) x l2 : removeAt (length l1) (l1 ++ x :: l2) = l1 ++ l2.
Proof. induction l1 as [|y l1 IH]; [reflexivity|]. cbn [length app removeAt]. f_equal. exact IH. Qed.

Lemma insertAt_app {A} (l1 : list A) k x l2 :
  insertAt (length l1 + k) x (l1 ++ l2) = l1 ++ insertAt k x l2.
Proof.
  induction l1 as [|y l1 IH]; [reflexivity|].
  cbn [length app Nat.add insertAt]. f_equal. exact IH.
Qed.

Lemma insertAt_perm {A} k (x : A) l : insertAt k x l ≡ₚ x :: l.
Proof.
  revert l. induction k as [|k IH]; intros l; [reflexivity|].
  destruct l as [|y l]; [reflexivity|]. cbn [insertAt]. rewrite IH. apply Permutation_swap.
Qed.

Lemma findPosition_static position pre static more offset : forall i,
  forallb (fun l => negb (isStatic l)) pre = true ->
  isStatic static = true ->
  position = behindServeStatic offset ->
  findPosition position i (pre ++ static :: more) = Some ((i + length pre)%nat, offset).
Proof.
  intros i Hpre Hstatic ->. revert i. induction pre as [|l pre IH]; intros i.
  - cbn [app findPosition]. unfold behindServeStatic. unfold isStatic in Hstatic.
    rewrite Hstatic. cbn [length]. f_equal. f_equal. lia.
  - cbn [forallb] in Hpre. apply andb_prop in Hpre as [Hl Hpre].
    cbn [app findPosition]. unfold behindServeStatic at 1. unfold isStatic in Hl.
    apply negb_true_iff in Hl. rewrite Hl. rewrite (IH Hpre). cbn [length]. f_equal. f_equal. lia.
Qed.

(** [spliceRouter] on a stack with a static-file layer that the loop
    reaches: the new layer lands [offset] layers behind it. *)
Lemma spliceRouter_behind_static pre static rest router offset :
  forallb (fun l => negb (isStatic l)) pre = true ->
  isStatic static = true ->
  rest <> [] ->
  spliceRouter ((pre ++ static :: rest) ++ [router]) (behindServeStatic offset) =
  (pre ++ static :: insertAt offset router rest, Some (layer_ref router)).
Proof.
  intros Hpre Hstatic Hrest. unfold spliceRouter.
  rewrite last_snoc, removeAt_last.
  destruct rest as [|r rest]; [congruence|].
  assert (Hlen : (length (pre ++ static :: r :: rest) - 1 = length pre + S (length rest))%nat).
  { rewrite length_app. cbn [length]. lia. }
  rewrite Hlen, firstn_app_2. cbn [firstn].
  rewrite (findPosition_static _ pre static _ offset 0 Hpre Hstatic eq_refl).
  cbn [Nat.add].
  replace (length pre + offset + 1)%nat with (length pre + S offset)%nat by lia.
  rewrite insertAt_app. reflexivity.
Qed.

Lemma indexOf_app ref (l1 : list ExpressLayer) layer l2 :
  ref ∉ map layer_ref l1 -> layer_ref layer = ref ->
  indexOf ref (l1 ++ layer :: l2) = Some (length l1).
Proof.
  intros Hnot Href. induction l1 as [|y l1 IH].
  - cbn [app indexOf]. rewrite Href, Nat.eqb_refl. reflexivity.
  - cbn [map] in Hnot. apply not_elem_of_cons in Hnot as [Hy Hnot].
    cbn [app indexOf length]. destruct (Nat.eqb (layer_ref y) ref) eqn:E.
    + apply Nat.eqb_eq in E. congruence.
    + rewrite (IH Hnot). reflexivity.
Qed.

Lemma servesStatic_split names :
  servesStatic names = true ->
  exists before behind,
    names = before ++ "serveStatic" :: behind /\ behind <> [] /\
    forallb (fun name => negb (String.eqb name "serveStatic")) before = true.
Proof.
  unfold servesStatic. induction names as [|name names IH]; [discriminate|].
  destruct names as [|name' names]; [discriminate|].
  change (List.removelast (name :: name' :: names)) with (name :: List.removelast (name' :: names)).
  cbn [existsb]. destruct (String.eqb "serveStatic" name) eqn:E.
  - intros _. apply String.eqb_eq in E. subst name.
    exists [], (name' :: names). split; [reflexivity|]. split; [discriminate|reflexivity].
  - cbn [orb]. intros H. destruct (IH H) as (before & behind & Hn & Hb & Hf).
    exists (name :: before), behind. split; [rewrite Hn; reflexivity|]. split; [exact Hb|].
    cbn [forallb]. rewrite String.eqb_sym, E. exact Hf.
Qed.

Lemma foreignStack_app names1 names2 : forall ref,
  foreignStack ref (names1 ++ names2) =
  foreignStack ref names1 ++ foreignStack (ref + length names1) names2.
Proof.
  induction names1 as [|name names1 IH]; intros ref.
  - cbn [app foreignStack length]. f_equal. lia.
  - cbn [app foreignStack length]. f_equal. rewrite IH. f_equal. f_equal. lia.
Qed.

Lemma foreignStack_refs names : forall ref,
  map layer_ref (foreignStack ref names) = seq ref (length names).
Proof.
  induction names as [|name names IH]; intros ref; [reflexivity|].
  cbn [foreignStack map length seq layer_ref]. f_equal. apply IH.
Qed.

Lemma foreignStack_foreign names : forall ref,
  forallb isForeign (foreignStack ref names) = true.
Proof. induction names as [|name names IH]; intros ref; [reflexivity|]. cbn. apply IH. Qed.

Lemma foreignStack_not_static names : forall ref,
  forallb (fun name => negb (String.eqb name "serveStatic")) names = true ->
  forallb (fun l => isForeign l && negb (isStatic l)) (foreignStack ref names) = true.
Proof.
  induction names as [|name names IH]; intros ref H; [reflexivity|].
  cbn [forallb] in H. apply andb_prop in H as [H1 H2].
  cbn [foreignStack forallb]. unfold isStatic at 1. cbn [layer_name isForeign layer_handler].
  rewrite H1. cbn [andb]. apply IH, H2.
Qed.

Lemma foreignStack_empty names ref : foreignStack ref names = [] -> names = [].
Proof. destruct names; [reflexivity|discriminate]. Qed.

Lemma forallb_weaken {A} (p q : A -> bool) l :
  (forall x, p x = true -> q x = true) -> forallb p l = true -> forallb q l = true.
Proof.
  intros Hpq. induction l as [|x l IH]; [reflexivity|]. cbn [forallb].
  intros H. apply andb_prop in H as [H1 H2]. rewrite (Hpq x H1), (IH H2). reflexivity.
Qed.

Lemma splice_perm {A} (pre : list A) static rest router offset :
  pre ++ static :: insertAt offset router rest ≡ₚ router :: (pre ++ static :: rest).
Proof.
  rewrite insertAt_perm. rewrite <- !Permutation_middle. apply perm_swap.
Qed.

(** A layer pushed with the next free reference keeps references unique. *)
Lemma pushed_refs (stack stack' : list ExpressLayer) router next :
  stack' ≡ₚ router :: stack ->
  layer_ref router = next ->
  NoDup (map layer_ref stack) ->
  Forall (fun l => (layer_ref l < next)%nat) stack ->
  NoDup (map layer_ref stack') /\ Forall (fun l => (layer_ref l < S next)%nat) stack'.
Proof.
  intros Hperm Href Hnodup Hfresh. split.
  - change (NoDup (layer_ref <$> stack')). rewrite Hperm. cbn [fmap list_fmap].
    apply NoDup_cons. split; [|exact Hnodup].
    intros Hin. apply list_elem_of_fmap in Hin as (l & Hl & Hin).
    rewrite Forall_forall in Hfresh. specialize (Hfresh l Hin). lia.
  - rewrite Hperm. constructor; [lia|].
    eapply Forall_impl; [exact Hfresh|]. cbn. intros l Hl. lia.
Qed.

Lemma nodup_remove {A B} (f : A -> B) l1 x l2 :
  NoDup (map f (l1 ++ x :: l2)) ->
  NoDup (map f (l1 ++ l2)) /\ forall y, y ∈ l1 ++ l2 -> f y <> f x.
Proof.
  intros H. change (NoDup (f <$> (l1 ++ x :: l2))) in H.
  rewrite <- Permutation_middle in H. cbn [fmap list_fmap] in H.
  apply NoDup_cons in H as [Hx H]. split; [exact H|].
  intros y Hy Heq. apply Hx. rewrite <- Heq. apply list_elem_of_fmap_2. exact Hy.
Qed.

Lemma elem_of_middle {A} (l1 : list A) x l2 y :
  y ∈ l1 ++ x :: l2 <-> y = x \/ y ∈ l1 ++ l2.
Proof. rewrite !elem_of_app, elem_of_cons. tauto. Qed.

(** *** The books of the sessions *)

Lemma book_empty installed : Book ∅ ∅ ∅ installed [].
Proof.
  split.
  - constructor.
  - constructor.
  - constructor.
  - intros id l. rewrite lookup_empty. split; [discriminate|]. intros (s & Hin & _). inversion Hin.
  - intros id r. rewrite lookup_empty. split; [discriminate|]. intros (s & Hin & _). inversion Hin.
  - intros port. split.
    + intros H. apply elem_of_empty in H. contradiction.
    + intros (s & Hin & _). inversion Hin.
Qed.

(** A new session with a fresh id and a free port enters the books. *)
Lemma book_establish conns srvs lsts installed sessions remote port ref :
  Book conns srvs lsts installed sessions ->
  remote_id remote <> "" ->
  lsts !! remote_id remote = None ->
  port ∉ srvs ->
  Book (<[remote_id remote := remote]> conns) ({[port]} ∪ srvs)
       (<[remote_id remote := sessionListener installed (mkSession remote port ref)]> lsts)
       installed (mkSession remote port ref :: sessions).
Proof.
  intros Hb Hname Hnew Hport. set (new := mkSession remote port ref).
  assert (Hnoid : forall s, s ∈ sessions -> remote_id (s_remote s) <> remote_id remote).
  { intros s Hs Heq.
    assert (lsts !! remote_id remote = Some (sessionListener installed s)) as H.
    { apply (bk_listeners _ _ _ _ _ Hb). exists s. auto. }
    congruence. }
  assert (Hnoport : forall s, s ∈ sessions -> s_port s <> port).
  { intros s Hs Heq. apply Hport. apply (bk_servers _ _ _ _ _ Hb). exists s. auto. }
  split.
  - cbn [map]. apply NoDup_cons. split; [|apply (bk_ids _ _ _ _ _ Hb)].
    intros Hin.
    change (remote_id (s_remote new) ∈ (fun s => remote_id (s_remote s)) <$> sessions) in Hin.
    apply list_elem_of_fmap in Hin as (s & Hs & Hin). apply (Hnoid s Hin). symmetry. exact Hs.
  - constructor; [exact Hname|apply (bk_named _ _ _ _ _ Hb)].
  - cbn [map]. apply NoDup_cons. split; [|apply (bk_ports _ _ _ _ _ Hb)].
    intros Hin. change (s_port new ∈ s_port <$> sessions) in Hin.
    apply list_elem_of_fmap in Hin as (s & Hs & Hin). apply (Hnoport s Hin). symmetry. exact Hs.
  - intros id l. destruct (decide (id = remote_id remote)) as [->|Hne].
    + rewrite lookup_insert_eq. split.
      * intros H. injection H as <-. exists new. split; [left|]. split; reflexivity.
      * intros (s & Hs & Hid & ->). apply elem_of_cons in Hs as [->|Hs]; [reflexivity|].
        exfalso. apply (Hnoid s Hs Hid).
    + rewrite lookup_insert_ne by congruence. rewrite (bk_listeners _ _ _ _ _ Hb). split.
      * intros (s & Hs & Hid & Hl). exists s. split; [right; exact Hs|]. auto.
      * intros (s & Hs & Hid & Hl). apply elem_of_cons in Hs as [->|Hs]; [cbn in Hid; congruence|].
        exists s. auto.
  - intros id r. destruct (decide (id = remote_id remote)) as [->|Hne].
    + rewrite lookup_insert_eq. split.
      * intros H. injection H as <-. exists new. split; [left|]. split; reflexivity.
      * intros (s & Hs & Hid & <-). apply elem_of_cons in Hs as [->|Hs]; [reflexivity|].
        exfalso. apply (Hnoid s Hs Hid).
    + rewrite lookup_insert_ne by congruence. rewrite (bk_connections _ _ _ _ _ Hb). split.
      * intros (s & Hs & Hid & Hl). exists s. split; [right; exact Hs|]. auto.
      * intros (s & Hs & Hid & Hl). apply elem_of_cons in Hs as [->|Hs]; [cbn in Hid; congruence|].
        exists s. auto.
  - intros p. rewrite elem_of_union, elem_of_singleton, (bk_servers _ _ _ _ _ Hb). split.
    + intros [->|(s & Hs & Hp)]; [exists new; split; [left|reflexivity]|].
      exists s. split; [right; exact Hs|exact Hp].
    + intros (s & Hs & Hp). apply elem_of_cons in Hs as [->|Hs]; [left; symmetry; exact Hp|].
      right. exists s. auto.
Qed.

(** A session leaves the books; the others stay as they are. *)
Lemma book_disconnect conns srvs lsts installed before s behind :
  Book conns srvs lsts installed (before ++ s :: behind) ->
  Book (delete (remote_id (s_remote s)) conns) (srvs ∖ {[s_port s]})
       (delete (remote_id (s_remote s)) lsts) installed (before ++ behind).
Proof.
  intros Hb.
  destruct (nodup_remove _ _ _ _ (bk_ids _ _ _ _ _ Hb)) as [Hids Hid].
  destruct (nodup_remove _ _ _ _ (bk_ports _ _ _ _ _ Hb)) as [Hports Hport].
  split.
  - exact Hids.
  - pose proof (bk_named _ _ _ _ _ Hb) as H.
    apply Forall_app in H as [H1 H2]. apply Forall_cons in H2 as [_ H2].
    apply Forall_app. split; assumption.
  - exact Hports.
  - intros id l. destruct (decide (id = remote_id (s_remote s))) as [->|Hne].
    + rewrite lookup_delete_eq. split; [discriminate|].
      intros (s' & Hs' & Hid' & _). exfalso. apply (Hid s' Hs' Hid').
    + rewrite lookup_delete_ne by congruence. rewrite (bk_listeners _ _ _ _ _ Hb). split.
      * intros (s' & Hs' & Hid' & Hl). apply elem_of_middle in Hs' as [->|Hs']; [congruence|].
        exists s'. auto.
      * intros (s' & Hs' & Hid' & Hl). exists s'. split; [|auto].
        apply elem_of_middle. right. exact Hs'.
  - intros id r. destruct (decide (id = remote_id (s_remote s))) as [->|Hne].
    + rewrite lookup_delete_eq. split; [discriminate|].
      intros (s' & Hs' & Hid' & _). exfalso. apply (Hid s' Hs' Hid').
    + rewrite lookup_delete_ne by congruence. rewrite (bk_connections _ _ _ _ _ Hb). split.
      * intros (s' & Hs' & Hid' & Hl). apply elem_of_middle in Hs' as [->|Hs']; [congruence|].
        exists s'. auto.
      * intros (s' & Hs' & Hid' & Hl). exists s'. split; [|auto].
        apply elem_of_middle. right. exact Hs'.
  - intros p. rewrite elem_of_difference, elem_of_singleton, (bk_servers _ _ _ _ _ Hb). split.
    + intros [(s' & Hs' & Hp) Hne]. apply elem_of_middle in Hs' as [->|Hs']; [congruence|].
      exists s'. auto.
    + intros (s' & Hs' & Hp). split.
      * exists s'. split; [|exact Hp]. apply elem_of_middle. right. exact Hs'.
      * rewrite <- Hp. apply (Hport s' Hs').
Qed.

(** The live sessions are those in the books. *)
Lemma book_live b installed sessions remote port :
  Book (connections b) (servers b) (listeners b) installed sessions ->
  live b remote port <-> exists s, s ∈ sessions /\ s_remote s = remote /\ s_port s = port.
Proof.
  intros Hb. unfold live. split.
  - intros (l & Hl & Hport & Hconn).
    apply (bk_listeners _ _ _ _ _ Hb) in Hl as (s & Hs & Hid & ->).
    apply (bk_connections _ _ _ _ _ Hb) in Hconn as (s' & Hs' & Hid' & Hr).
    assert (s' = s) as ->.
    { pose proof (bk_ids _ _ _ _ _ Hb) as Hnodup.
      apply list_elem_of_lookup in Hs as [i Hi]. apply list_elem_of_lookup in Hs' as [j Hj].
      assert (i = j) as ->; [|congruence].
      change (NoDup ((fun s => remote_id (s_remote s)) <$> sessions)) in Hnodup.
      eapply NoDup_lookup; [exact Hnodup| |].
      - rewrite list_lookup_fmap, Hi. reflexivity.
      - rewrite list_lookup_fmap, Hj. cbn. congruence. }
    exists s. auto.
  - intros (s & Hs & <- & <-). exists (sessionListener installed s). split; [|split].
    + apply (bk_listeners _ _ _ _ _ Hb). exists s. auto.
    + reflexivity.
    + apply (bk_connections _ _ _ _ _ Hb). exists s. auto.
Qed.

(** *** Backends on an application that serves static files *)

Lemma configure_shaped names :
  servesStatic names = true -> shaped (configure (newBackend names)) [].
Proof.
  intros Hs. destruct (servesStatic_split names Hs) as (before & behind & -> & Hbehind & Hbefore).
  set (names := before ++ "serveStatic" :: behind).
  set (n := length before).
  set (pre := foreignStack 0 before).
  set (static := mkLayer (0 + n) "serveStatic" Foreign).
  set (post := foreignStack (0 + n + 1) behind).
  set (status := mkLayer (length names) "bound dispatch" StatusRoute).
  assert (Hstack0 : foreignStack 0 names = pre ++ static :: post).
  { subst names. rewrite foreignStack_app. cbn [foreignStack]. subst pre static post n.
    do 3 f_equal. lia. }
  assert (Hpre : forallb (fun l => isForeign l && negb (isStatic l)) pre = true).
  { apply foreignStack_not_static, Hbefore. }
  assert (Hpost : post <> []).
  { intros H. apply foreignStack_empty in H. contradiction. }
  assert (Hconf : routerStack (configure (newBackend names)) = pre ++ static :: status :: post).
  { unfold configure, newBackend, pushLayer. cbn [routerStack nextRef setStack fst].
    rewrite Hstack0. fold status.
    rewrite (spliceRouter_behind_static pre static post status 0); [reflexivity| |reflexivity|exact Hpost].
    eapply forallb_weaken; [|exact Hpre]. intros x Hx. apply andb_prop in Hx as [_ Hx]. exact Hx. }
  destruct (pushed_refs (foreignStack 0 names) (pre ++ static :: status :: post) status (length names))
    as [Hnodup Hfresh].
  { rewrite Hstack0. apply (splice_perm pre static post status 0). }
  { reflexivity. }
  { rewrite foreignStack_refs. apply NoDup_seq. }
  { apply Forall_forall. intros l Hl. apply (list_elem_of_fmap_2 layer_ref) in Hl.
    change (layer_ref <$> foreignStack 0 names) with (map layer_ref (foreignStack 0 names)) in Hl.
    rewrite foreignStack_refs in Hl. apply elem_of_seq in Hl. lia. }
  exists pre, static, status, post. split.
  - rewrite Hconf. reflexivity.
  - exact Hpre.
  - reflexivity.
  - split; reflexivity.
  - apply foreignStack_foreign.
  - exact Hpost.
  - rewrite Hconf. exact Hnodup.
  - rewrite Hconf. exact Hfresh.
  - apply book_empty.
Qed.

Lemma not_static_pre (pre : list ExpressLayer) :
  forallb (fun l => isForeign l && negb (isStatic l)) pre = true ->
  forallb (fun l => negb (isStatic l)) pre = true.
Proof. apply forallb_weaken. intros x Hx. apply andb_prop in Hx as [_ Hx]. exact Hx. Qed.

(** [establishConnection] on a shaped backend, spelled out. *)
Lemma establishConnection_shaped_eq b sessions pre static status post remote port :
  Shape b sessions pre static status post ->
  establishConnection remote port b =
  mkBackend (pre ++ static :: status ::
               map proxyLayer (mkSession remote port (nextRef b) :: sessions) ++ post)
            (S (nextRef b))
            (<[remote_id remote := remote]> (connections b))
            ({[port]} ∪ servers b)
            (<[remote_id remote := sessionListener true (mkSession remote port (nextRef b))]>
               (listeners b)).
Proof.
  intros Hb. unfold establishConnection, register, getProxyServer, setupProxyRouter, pushLayer.
  cbn [routerStack nextRef connections servers listeners].
  rewrite (sh_stack _ _ _ _ _ _ Hb).
  rewrite (spliceRouter_behind_static pre static (status :: map proxyLayer sessions ++ post) _ 1).
  - reflexivity.
  - apply not_static_pre, (sh_pre_foreign _ _ _ _ _ _ Hb).
  - pose proof (sh_static_foreign _ _ _ _ _ _ Hb) as H. apply andb_prop in H as [_ H]. exact H.
  - discriminate.
Qed.

Lemma establish_shaped b sessions remote port :
  shaped b sessions ->
  enabled (Establish remote port) b ->
  shaped (establishConnection remote port b) (mkSession remote port (nextRef b) :: sessions).
Proof.
  intros (pre & static & status & post & Hb) (Hname & Hnew & Hunreg & Hport).
  rewrite (establishConnection_shaped_eq _ _ _ _ _ _ remote port Hb).
  set (new := mkSession remote port (nextRef b)).
  destruct (pushed_refs (routerStack b)
              (pre ++ static :: status :: map proxyLayer (new :: sessions) ++ post)
              (proxyLayer new) (nextRef b)) as [Hnodup Hfresh].
  { rewrite (sh_stack _ _ _ _ _ _ Hb).
    apply (splice_perm pre static (status :: map proxyLayer sessions ++ post) (proxyLayer new) 1). }
  { reflexivity. }
  { apply (sh_refs _ _ _ _ _ _ Hb). }
  { apply (sh_fresh _ _ _ _ _ _ Hb). }
  exists pre, static, status, post. split; cbn [routerStack nextRef connections servers listeners].
  - reflexivity.
  - apply (sh_pre_foreign _ _ _ _ _ _ Hb).
  - apply (sh_static_foreign _ _ _ _ _ _ Hb).
  - apply (sh_status_route _ _ _ _ _ _ Hb).
  - apply (sh_post_foreign _ _ _ _ _ _ Hb).
  - apply (sh_post_some _ _ _ _ _ _ Hb).
  - exact Hnodup.
  - exact Hfresh.
  - apply book_establish; [apply (sh_book _ _ _ _ _ _ Hb)|exact Hname|exact Hnew|exact Hport].
Qed.

Lemma stack_with_session (pre : list ExpressLayer) static status before s behind post :
  pre ++ static :: status :: map proxyLayer (before ++ s :: behind) ++ post =
  (pre ++ static :: status :: map proxyLayer before) ++
  proxyLayer s :: (map proxyLayer behind ++ post).
Proof. rewrite map_app. cbn [map]. rewrite <- !app_assoc. reflexivity. Qed.

Lemma stack_without_session (pre : list ExpressLayer) static status before behind post :
  pre ++ static :: status :: map proxyLayer (before ++ behind) ++ post =
  (pre ++ static :: status :: map proxyLayer before) ++ (map proxyLayer behind ++ post).
Proof. rewrite map_app. rewrite <- !app_assoc. reflexivity. Qed.

(** The disconnect of an established session on a shaped backend, spelled
    out: the proxy layer is found where it is, and taken out. *)
Lemma fireDisconnect_shaped_eq b pre static status post before s behind :
  Shape b (before ++ s :: behind) pre static status post ->
  fireDisconnect (remote_id (s_remote s)) b =
  mkBackend (pre ++ static :: status :: map proxyLayer (before ++ behind) ++ post)
            (nextRef b)
            (delete (remote_id (s_remote s)) (connections b))
            (servers b ∖ {[s_port s]})
            (delete (remote_id (s_remote s)) (listeners b)).
Proof.
  intros Hb. unfold fireDisconnect.
  assert (Hl : listeners b !! remote_id (s_remote s) = Some (sessionListener true s)).
  { apply (bk_listeners _ _ _ _ _ (sh_book _ _ _ _ _ _ Hb)). exists s. split; [|auto].
    apply elem_of_middle. left. reflexivity. }
  rewrite Hl. unfold onDidDisconnect, closeServer, setStack, disposeRegistration, disposeRouter.
  cbn [routerStack nextRef connections servers listeners sessionListener
       l_server l_proxyRouter l_registration].
  assert (Hstack : routerStack b =
                   (pre ++ static :: status :: map proxyLayer before) ++
                   proxyLayer s :: (map proxyLayer behind ++ post)).
  { rewrite (sh_stack _ _ _ _ _ _ Hb). apply stack_with_session. }
  pose proof (sh_refs _ _ _ _ _ _ Hb) as Hrefs. rewrite Hstack in Hrefs.
  change (NoDup (layer_ref <$> ((pre ++ static :: status :: map proxyLayer before) ++
                                proxyLayer s :: (map proxyLayer behind ++ post)))) in Hrefs.
  rewrite fmap_app in Hrefs. apply NoDup_app in Hrefs as (_ & Hnot & _).
  rewrite Hstack, indexOf_app; [|intros Hin; apply (Hnot _ Hin); left|reflexivity].
  rewrite removeAt_app. f_equal. symmetry. apply stack_without_session.
Qed.

Lemma disconnect_shaped b before s behind :
  shaped b (before ++ s :: behind) ->
  shaped (fireDisconnect (remote_id (s_remote s)) b) (before ++ behind).
Proof.
  intros (pre & static & status & post & Hb).
  rewrite (fireDisconnect_shaped_eq _ _ _ _ _ _ _ _ Hb).
  assert (Hstack : routerStack b =
                   (pre ++ static :: status :: map proxyLayer before) ++
                   proxyLayer s :: (map proxyLayer behind ++ post)).
  { rewrite (sh_stack _ _ _ _ _ _ Hb). apply stack_with_session. }
  assert (Hstack' : pre ++ static :: status :: map proxyLayer (before ++ behind) ++ post =
                    (pre ++ static :: status :: map proxyLayer before) ++
                    (map proxyLayer behind ++ post)).
  { apply stack_without_session. }
  exists pre, static, status, post. split; cbn [routerStack nextRef connections servers listeners].
  - reflexivity.
  - apply (sh_pre_foreign _ _ _ _ _ _ Hb).
  - apply (sh_static_foreign _ _ _ _ _ _ Hb).
  - apply (sh_status_route _ _ _ _ _ _ Hb).
  - apply (sh_post_foreign _ _ _ _ _ _ Hb).
  - apply (sh_post_some _ _ _ _ _ _ Hb).
  - rewrite Hstack'. pose proof (sh_refs _ _ _ _ _ _ Hb) as H. rewrite Hstack in H.
    apply (nodup_remove layer_ref _ _ _ H).
  - rewrite Hstack'. pose proof (sh_fresh _ _ _ _ _ _ Hb) as H. rewrite Hstack in H.
    apply Forall_app in H as [H1 H2]. apply Forall_cons in H2 as [_ H2].
    apply Forall_app. split; assumption.
  - apply book_disconnect, (sh_book _ _ _ _ _ _ Hb).
Qed.

(** Every backend that arises on an application that serves static files
    is shaped, for some list of sessions. *)
Lemma reachable_shaped names b :
  servesStatic names = true -> reachable names b -> exists sessions, shaped b sessions.
Proof.
  intros Hs. induction 1 as [|e b Hreach [sessions IH] Hen].
  - exists []. apply configure_shaped, Hs.
  - destruct e as [remote port|id]; cbn [step].
    + eexists. apply (establish_shaped _ _ _ _ IH Hen).
    + cbn [enabled] in Hen. destruct Hen as [l Hl].
      destruct IH as (pre & static & status & post & Hb).
      pose proof (proj1 (bk_listeners _ _ _ _ _ (sh_book _ _ _ _ _ _ Hb) id l) Hl)
        as (s & Hin & <- & _).
      apply list_elem_of_split in Hin as (before & behind & ->).
      exists (before ++ behind). apply disconnect_shaped.
      exists pre, static, status, post. exact Hb.
Qed.

(** *** Backends on an application without a static-file layer in reach *)

Lemma findPosition_none offset layers : forall i,
  forallb (fun l => negb (isStatic l)) layers = true ->
  findPosition (behindServeStatic offset) i layers = None.
Proof.
  induction layers as [|l layers IH]; intros i H; [reflexivity|].
  cbn [forallb] in H. apply andb_prop in H as [Hl H].
  cbn [findPosition]. unfold behindServeStatic at 1. unfold isStatic in Hl.
  apply negb_true_iff in Hl. rewrite Hl. apply IH, H.
Qed.

Lemma foreignStack_removelast names : forall ref,
  List.firstn (length (foreignStack ref names) - 1) (foreignStack ref names) =
  foreignStack ref (List.removelast names).
Proof.
  induction names as [|name names IH]; intros ref; [reflexivity|].
  destruct names as [|name' names]; [reflexivity|].
  change (List.removelast (name :: name' :: names)) with (name :: List.removelast (name' :: names)).
  cbn [foreignStack]. rewrite <- IH. cbn [foreignStack length]. cbn [Nat.sub].
  rewrite Nat.sub_0_r. reflexivity.
Qed.

Lemma foreignStack_no_static names : forall ref,
  existsb (String.eqb "serveStatic") names = false ->
  forallb (fun l => negb (isStatic l)) (foreignStack ref names) = true.
Proof.
  induction names as [|name names IH]; intros ref H; [reflexivity|].
  cbn [existsb] in H. apply orb_false_elim in H as [H1 H2].
  cbn [foreignStack forallb]. unfold isStatic at 1. cbn [layer_name].
  rewrite String.eqb_sym, H1. cbn [negb andb]. apply IH, H2.
Qed.

(** [spliceRouter] on such a stack: the new layer is taken off and not put
    back. *)
Lemma spliceRouter_no_static names router offset :
  servesStatic names = false ->
  spliceRouter (foreignStack 0 names ++ [router]) (behindServeStatic offset) =
  (foreignStack 0 names, None).
Proof.
  intros Hs. unfold spliceRouter. rewrite last_snoc, removeAt_last.
  rewrite foreignStack_removelast, findPosition_none; [reflexivity|].
  apply foreignStack_no_static, Hs.
Qed.

Lemma configure_flat names :
  servesStatic names = false -> Flat names (configure (newBackend names)) [].
Proof.
  intros Hs. split.
  - unfold configure, newBackend, pushLayer. cbn [routerStack nextRef setStack].
    rewrite (spliceRouter_no_static names _ 0 Hs). reflexivity.
  - apply book_empty.
Qed.

Lemma establishConnection_flat_eq names b sessions remote port :
  servesStatic names = false ->
  Flat names b sessions ->
  establishConnection remote port b =
  mkBackend (foreignStack 0 names) (S (nextRef b))
            (<[remote_id remote := remote]> (connections b))
            ({[port]} ∪ servers b)
            (<[remote_id remote := sessionListener false (mkSession remote port (nextRef b))]>
               (listeners b)).
Proof.
  intros Hs Hb. unfold establishConnection, register, getProxyServer, setupProxyRouter, pushLayer.
  cbn [routerStack nextRef connections servers listeners].
  rewrite (fl_stack _ _ _ Hb), (spliceRouter_no_static names _ 1 Hs). reflexivity.
Qed.

Lemma establish_flat names b sessions remote port :
  servesStatic names = false ->
  Flat names b sessions ->
  enabled (Establish remote port) b ->
  Flat names (establishConnection remote port b) (mkSession remote port (nextRef b) :: sessions).
Proof.
  intros Hs Hb (Hname & Hnew & Hunreg & Hport).
  rewrite (establishConnection_flat_eq names b sessions remote port Hs Hb). split.
  - reflexivity.
  - cbn [connections servers listeners].
    apply book_establish; [apply (fl_book _ _ _ Hb)|exact Hname|exact Hnew|exact Hport].
Qed.

Lemma fireDisconnect_flat_eq names b before s behind :
  Flat names b (before ++ s :: behind) ->
  fireDisconnect (remote_id (s_remote s)) b =
  mkBackend (foreignStack 0 names) (nextRef b)
            (delete (remote_id (s_remote s)) (connections b))
            (servers b ∖ {[s_port s]})
            (delete (remote_id (s_remote s)) (listeners b)).
Proof.
  intros Hb. unfold fireDisconnect.
  assert (Hl : listeners b !! remote_id (s_remote s) = Some (sessionListener false s)).
  { apply (bk_listeners _ _ _ _ _ (fl_book _ _ _ Hb)). exists s. split; [|auto].
    apply elem_of_middle. left. reflexivity. }
  rewrite Hl. unfold onDidDisconnect, closeServer, setStack, disposeRegistration, disposeRouter.
  cbn [routerStack nextRef connections servers listeners sessionListener
       l_server l_proxyRouter l_registration].
  rewrite (fl_stack _ _ _ Hb). reflexivity.
Qed.

Lemma disconnect_flat names b before s behind :
  Flat names b (before ++ s :: behind) ->
  Flat names (fireDisconnect (remote_id (s_remote s)) b) (before ++ behind).
Proof.
  intros Hb. rewrite (fireDisconnect_flat_eq _ _ _ _ _ Hb). split.
  - reflexivity.
  - cbn [connections servers listeners]. apply book_disconnect, (fl_book _ _ _ Hb).
Qed.

Lemma reachable_flat names b :
  servesStatic names = false -> reachable names b -> exists sessions, Flat names b sessions.
Proof.
  intros Hs. induction 1 as [|e b Hreach [sessions IH] Hen].
  - exists []. apply configure_flat, Hs.
  - destruct e as [remote port|id]; cbn [step].
    + eexists. apply (establish_flat _ _ _ _ _ Hs IH Hen).
    + cbn [enabled] in Hen. destruct Hen as [l Hl].
      pose proof (proj1 (bk_listeners _ _ _ _ _ (fl_book _ _ _ IH) id l) Hl)
        as (s & Hin & <- & _).
      apply list_elem_of_split in Hin as (before & behind & ->).
      exists (before ++ behind). apply disconnect_flat. exact IH.
Qed.
(** *** Routing *)

Lemma dispatch_foreign ex conns layers rest req :
  forallb isForeign layers = true ->
  (passedOn ex layers req = true ->
   dispatch ex conns (layers ++ rest) req = dispatch ex conns rest req) /\
  (passedOn ex layers req = false ->
   exists ref, dispatch ex conns (layers ++ rest) req = EndedBy ref).
Proof.
  induction layers as [|layer layers IH]; intros Hf.
  - split; [reflexivity|discriminate].
  - cbn [forallb] in Hf. apply andb_prop in Hf as [Hl Hf]. destruct (IH Hf) as [IH1 IH2].
    unfold isForeign in Hl. cbn [app dispatch passedOn forallb].
    destruct (layer_handler layer); try discriminate.
    destruct (ends ex (layer_ref layer) req); cbn [negb andb].
    + split; [discriminate|]. intros _. eexists. reflexivity.
    + split; [exact IH1|exact IH2].
Qed.

Lemma dispatch_foreign_only ex conns layers req port :
  forallb isForeign layers = true -> dispatch ex conns layers req <> Forwarded port.
Proof.
  intros Hf. destruct (passedOn ex layers req) eqn:Hp.
  - pose proof (proj1 (dispatch_foreign ex conns layers [] req Hf) Hp) as H.
    rewrite app_nil_r in H. rewrite H. discriminate.
  - destruct (proj2 (dispatch_foreign ex conns layers [] req Hf) Hp) as [ref H].
    rewrite app_nil_r in H. rewrite H. discriminate.
Qed.

(** The proxies in a row: the first whose session id is the cookie takes
    the request; without one the request goes on. *)
Lemma dispatch_proxies ex conns sessions rest req :
  (forall s, s ∈ sessions -> req_remoteId req = Some (remote_id (s_remote s)) ->
             NoDup (map (fun s => remote_id (s_remote s)) sessions) ->
             dispatch ex conns (map proxyLayer sessions ++ rest) req = Forwarded (s_port s)) /\
  ((forall s, s ∈ sessions -> req_remoteId req <> Some (remote_id (s_remote s))) ->
   dispatch ex conns (map proxyLayer sessions ++ rest) req = dispatch ex conns rest req) /\
  (forall port, dispatch ex conns (map proxyLayer sessions ++ rest) req = Forwarded port ->
                dispatch ex conns rest req = Forwarded port \/
                exists s, s ∈ sessions /\ s_port s = port /\
                          req_remoteId req = Some (remote_id (s_remote s))).
Proof.
  induction sessions as [|s0 sessions (IH1 & IH2 & IH3)].
  - split; [intros s Hs; inversion Hs|]. split; [reflexivity|]. intros port H. left. exact H.
  - cbn [map app dispatch proxyLayer layer_handler].
    assert (Hfilter : proxyFilter (s_remote s0) req = true <->
                      req_remoteId req = Some (remote_id (s_remote s0))).
    { unfold proxyFilter. destruct (req_remoteId req) as [c|].
      - rewrite String.eqb_eq. split; congruence.
      - split; discriminate. }
    split; [|split].
    + intros s Hs Hcookie Hnodup. cbn [map] in Hnodup. apply NoDup_cons in Hnodup as [Hnot Hnodup].
      apply elem_of_cons in Hs as [->|Hs].
      * rewrite (proj2 Hfilter Hcookie). reflexivity.
      * destruct (proxyFilter (s_remote s0) req) eqn:Hf0.
        -- exfalso. apply Hnot. pose proof (proj1 Hfilter eq_refl) as Hc.
           assert (remote_id (s_remote s0) = remote_id (s_remote s)) as -> by congruence.
           apply (list_elem_of_fmap_2 (fun s => remote_id (s_remote s))). exact Hs.
        -- apply (IH1 s Hs Hcookie Hnodup).
    + intros Hnone. destruct (proxyFilter (s_remote s0) req) eqn:Hf0.
      * exfalso. apply (Hnone s0); [left|]. apply Hfilter. reflexivity.
      * apply IH2. intros s Hs. apply Hnone. right. exact Hs.
    + intros port. destruct (proxyFilter (s_remote s0) req) eqn:Hf0.
      * intros H. injection H as <-. right. exists s0. split; [left|]. split; [reflexivity|].
        apply Hfilter. reflexivity.
      * intros H. destruct (IH3 port H) as [Hrest|(s & Hs & Hp & Hc)]; [left; exact Hrest|].
        right. exists s. split; [right; exact Hs|]. auto.
Qed.

Lemma aheadOfStatus_shaped pre static status rest :
  forallb (fun l => isForeign l && negb (isStatic l)) pre = true ->
  isForeign static && isStatic static = true ->
  layer_handler status = StatusRoute ->
  aheadOfStatus (pre ++ static :: status :: rest) = pre ++ [static] /\
  forallb isForeign (pre ++ [static]) = true.
Proof.
  intros Hpre Hstatic Hstatus. apply andb_prop in Hstatic as [Hstatic _].
  induction pre as [|l pre IH].
  - cbn [app aheadOfStatus forallb]. rewrite Hstatic. unfold isForeign in Hstatic.
    destruct (layer_handler static); try discriminate. rewrite Hstatus. split; reflexivity.
  - cbn [forallb] in Hpre. apply andb_prop in Hpre as [Hl Hpre]. apply andb_prop in Hl as [Hl _].
    destruct (IH Hpre) as [IH1 IH2]. cbn [app aheadOfStatus forallb]. rewrite Hl.
    unfold isForeign in Hl. destruct (layer_handler l); try discriminate.
    rewrite IH1. split; [reflexivity|exact IH2].
Qed.

(** What a shaped backend does with a request. *)
Lemma serve_shaped ex b sessions pre static status post req :
  Shape b sessions pre static status post ->
  aheadOfStatus (routerStack b) = pre ++ [static] /\
  (passedOn ex (pre ++ [static]) req = false -> exists ref, serve ex b req = EndedBy ref) /\
  (passedOn ex (pre ++ [static]) req = true ->
   serve ex b req =
   if isStatusRequest ex req then AnsweredLocally (statusHandler (connections b) req)
   else dispatch ex (connections b) (map proxyLayer sessions ++ post) req).
Proof.
  intros Hb. unfold serve. rewrite (sh_stack _ _ _ _ _ _ Hb).
  destruct (aheadOfStatus_shaped pre static status (map proxyLayer sessions ++ post)
              (sh_pre_foreign _ _ _ _ _ _ Hb) (sh_static_foreign _ _ _ _ _ _ Hb)
              (proj1 (sh_status_route _ _ _ _ _ _ Hb))) as [Hahead Hforeign].
  split; [exact Hahead|].
  change (pre ++ static :: status :: map proxyLayer sessions ++ post)
    with (pre ++ [static] ++ status :: map proxyLayer sessions ++ post).
  rewrite app_assoc.
  destruct (dispatch_foreign ex (connections b) (pre ++ [static])
              (status :: map proxyLayer sessions ++ post) req Hforeign) as [Hpass Hend].
  split; [exact Hend|].
  intros Hp. rewrite (Hpass Hp). cbn [dispatch].
  rewrite (proj1 (sh_status_route _ _ _ _ _ _ Hb)). reflexivity.
Qed.

(** C5, as the code has it.  On every backend that arises on an
    application whose static-file layer the loop of [spliceRouter]
    reaches, for every inbound request:
    - the request is forwarded only when its [remoteId] cookie is the id of
      a live session, and then to the port of that session's proxy server;
      so a request without the cookie, or with a cookie that matches no
      live session, is not forwarded;
    - a request for [GET /remote/status] is never forwarded; once the
      layers ahead of the status route (those up to and including the
      static-file layer) have passed it on, it is answered locally, with
      [alive: true] and the name and type of the connection when the cookie
      maps to a registered connection and with [alive: false] otherwise;
    - every other request that the layers ahead have passed on is
      forwarded to the port of the live session whose id is its cookie. *)
Theorem routing_by_cookie (names : list string) (ex : Express) (b : Backend) (req : Request) :
  servesStatic names = true ->
  reachable names b ->
  (forall port, serve ex b req = Forwarded port ->
                exists remote, live b remote port /\
                               req_remoteId req = Some (remote_id remote)) /\
  ((req_remoteId req = None \/
    forall remote port, live b remote port -> req_remoteId req <> Some (remote_id remote)) ->
   forall port, serve ex b req <> Forwarded port) /\
  (isStatusRequest ex req = true -> forall port, serve ex b req <> Forwarded port) /\
  (passedOn ex (aheadOfStatus (routerStack b)) req = true ->
   (isStatusRequest ex req = true ->
    serve ex b req = AnsweredLocally (statusHandler (connections b) req)) /\
   (isStatusRequest ex req = false ->
    forall remote port, live b remote port ->
                        req_remoteId req = Some (remote_id remote) ->
                        serve ex b req = Forwarded port)) /\
  statusHandler (connections b) req =
  match req_remoteId req with
  | Some id =>
      match connections b !! id with
      | Some remote => Alive (remote_name remote) (remote_type remote)
      | None => NotAlive
      end
  | None => NotAlive
  end.
Proof.
  intros Hstatic Hreach.
  destruct (reachable_shaped names b Hstatic Hreach)
    as (sessions & pre & static & status & post & Hb).
  pose proof (sh_book _ _ _ _ _ _ Hb) as Hbook.
  destruct (serve_shaped ex b sessions pre static status post req Hb) as (Hahead & Hend & Hpass).
  destruct (dispatch_proxies ex (connections b) sessions post req) as (Hhit & Hmiss & Honly).
  assert (Hforward : forall port, serve ex b req = Forwarded port ->
            isStatusRequest ex req = false /\
            exists s, s ∈ sessions /\ s_port s = port /\
                      req_remoteId req = Some (remote_id (s_remote s))).
  { intros port Hf. destruct (passedOn ex (pre ++ [static]) req) eqn:Hp.
    - rewrite (Hpass eq_refl) in Hf. destruct (isStatusRequest ex req); [discriminate|].
      split; [reflexivity|]. destruct (Honly port Hf) as [Hpost|Hs]; [|exact Hs].
      exfalso. apply (dispatch_foreign_only ex (connections b) post req port); [|exact Hpost].
      apply (sh_post_foreign _ _ _ _ _ _ Hb).
    - destruct (Hend eq_refl) as [ref Href]. rewrite Href in Hf. discriminate. }
  assert (Honly' : forall port, serve ex b req = Forwarded port ->
            exists remote, live b remote port /\ req_remoteId req = Some (remote_id remote)).
  { intros port Hf. destruct (Hforward port Hf) as (_ & s & Hs & Hport & Hcookie).
    exists (s_remote s). split; [|exact Hcookie].
    apply (book_live _ _ _ _ _ Hbook). exists s. auto. }
  split; [exact Honly'|]. split; [|split; [|split]].
  - intros Hno port Hf. destruct (Honly' port Hf) as (remote & Hlive & Hcookie).
    destruct Hno as [Hnone|Hno]; [congruence|]. apply (Hno remote port Hlive Hcookie).
  - intros Hstatus port Hf. destruct (Hforward port Hf) as [Hnot _]. congruence.
  - rewrite Hahead. intros Hp. rewrite (Hpass Hp). split.
    + intros ->. reflexivity.
    + intros -> remote port Hlive Hcookie.
      apply (book_live _ _ _ _ _ Hbook) in Hlive as (s & Hs & <- & <-).
      apply (Hhit s Hs Hcookie), (bk_ids _ _ _ _ _ Hbook).
  - unfold statusHandler. destruct (req_remoteId req) as [id|]; [|reflexivity].
    destruct (truthy id) eqn:Hid; [reflexivity|].
    apply truthy_false in Hid. subst id.
    destruct (connections b !! "") as [remote|] eqn:Hconn; [|reflexivity].
    exfalso. apply (bk_connections _ _ _ _ _ Hbook) in Hconn as (s & Hs & Hid & _).
    pose proof (bk_named _ _ _ _ _ Hbook) as Hnamed. rewrite Forall_forall in Hnamed.
    apply (Hnamed s Hs Hid).
Qed.

Lemma oneSession_reachable : reachable exampleApp oneSession.
Proof.
  apply reach_step; [apply reach_configured|].
  cbn [enabled]. split; [discriminate|]. split; [reflexivity|]. split; [reflexivity|].
  apply not_elem_of_empty.
Qed.

Lemma twoSessions_reachable : reachable exampleApp twoSessions.
Proof.
  apply reach_step; [apply oneSession_reachable|].
  cbn [enabled]. split; [discriminate|]. split; [reflexivity|]. split; [reflexivity|].
  intros H. apply elem_of_union in H as [H|H].
  - apply elem_of_singleton in H. discriminate.
  - apply elem_of_empty in H. exact H.
Qed.

Lemma routing_by_cookie_witness :
  serve plainExpress twoSessions (mkRequest "GET" "/remote/status" (Some "s1")) =
    AnsweredLocally (Alive "build.example.org" "SSH") /\
  serve plainExpress twoSessions (mkRequest "POST" "/services" (Some "s1")) = Forwarded 40001 /\
  forall port,
    serve plainExpress twoSessions (mkRequest "POST" "/services" None) <> Forwarded port.
Proof.
  pose proof (fun req => routing_by_cookie exampleApp plainExpress twoSessions req eq_refl
                                           twoSessions_reachable) as H.
  split; [|split].
  - destruct (H (mkRequest "GET" "/remote/status" (Some "s1"))) as (_ & _ & _ & Hpass & _).
    apply (proj1 (Hpass eq_refl) eq_refl).
  - destruct (H (mkRequest "POST" "/services" (Some "s1"))) as (_ & _ & _ & Hpass & _).
    apply (proj2 (Hpass eq_refl) eq_refl firstRemote 40001%N); [|reflexivity].
    exists (mkListener 40001%N (Some 5%nat) "s1"). repeat split; reflexivity.
  - destruct (H (mkRequest "POST" "/services" None)) as (_ & Hnone & _).
    apply Hnone. left. reflexivity.
Defined.

(** C5, as stated, fails: the proxy handler sits behind the static-file
    layer, so a request that layer serves is not forwarded although its
    cookie is the id of a live session. *)
Lemma routing_static_first_counterexample :
  let req := mkRequest "GET" "/bundle.js" (Some "s1") in
  map layer_name (routerStack oneSession) =
    ["query"; "expressInit"; "serveStatic"; "bound dispatch"; "handleProxy"; "router"] /\
  live oneSession firstRemote 40001 /\
  req_remoteId req = Some (remote_id firstRemote) /\
  serve bundleServed oneSession req = EndedBy 2 /\
  ~ (serve bundleServed oneSession req = Forwarded 40001 <->
     req_remoteId req = Some (remote_id firstRemote)).
Proof.
  cbv zeta. split; [reflexivity|]. split.
  - exists (mkListener 40001%N (Some 5%nat) "s1"). repeat split; reflexivity.
  - split; [reflexivity|]. split; [reflexivity|].
    intros [_ H]. specialize (H eq_refl). vm_compute in H. discriminate.
Qed.

(** *** Disconnect *)

Lemma filter_keeps {A} (p : A -> bool) l : forallb p l = true -> List.filter p l = l.
Proof.
  induction l as [|x l IH]; [reflexivity|]. cbn [forallb List.filter].
  intros H. apply andb_prop in H as [Hx H]. rewrite Hx, (IH H). reflexivity.
Qed.

Lemma foreign_not_proxy id layer : isForeign layer = true -> negb (isProxyOf id layer) = true.
Proof. unfold isForeign, isProxyOf. destruct (layer_handler layer); [discriminate..|reflexivity]. Qed.

Lemma other_proxies_kept id (sessions : list Session) :
  (forall s, s ∈ sessions -> remote_id (s_remote s) <> id) ->
  forallb (fun layer => negb (isProxyOf id layer)) (map proxyLayer sessions) = true.
Proof.
  induction sessions as [|s sessions IH]; intros H; [reflexivity|].
  cbn [map forallb]. rewrite IH by (intros s' Hs'; apply H; right; exact Hs').
  unfold isProxyOf, proxyLayer. cbn [layer_handler].
  destruct (String.eqb (remote_id (s_remote s)) id) eqn:E; [|reflexivity].
  apply String.eqb_eq in E. exfalso. apply (H s); [left|exact E].
Qed.

Lemma no_proxy_layer id layers layer :
  forallb (fun layer => negb (isProxyOf id layer)) layers = true ->
  layer ∈ layers -> isProxyOf id layer = false.
Proof.
  intros H Hin. rewrite forallb_forall in H. apply list_elem_of_In in Hin.
  apply negb_true_iff, (H layer Hin).
Qed.

(** What leaving the books means for the session and for the others. *)
Lemma book_release conns srvs lsts installed before s behind :
  Book conns srvs lsts installed (before ++ s :: behind) ->
  let id := remote_id (s_remote s) in
  (s_port s ∈ srvs /\ s_port s ∉ srvs ∖ {[s_port s]}) /\
  (is_Some (conns !! id) /\ delete id conns !! id = None) /\
  (forall id', id' <> id ->
               delete id conns !! id' = conns !! id' /\ delete id lsts !! id' = lsts !! id') /\
  (forall port, port <> s_port s -> port ∈ srvs ∖ {[s_port s]} <-> port ∈ srvs) /\
  (forall id' l', id' <> id -> lsts !! id' = Some l' ->
                  l_server l' <> s_port s /\ l_server l' ∈ srvs ∖ {[s_port s]}).
Proof.
  intros Hb id. subst id.
  destruct (nodup_remove _ _ _ _ (bk_ports _ _ _ _ _ Hb)) as [_ Hport].
  assert (Hin : s ∈ before ++ s :: behind) by (apply elem_of_middle; left; reflexivity).
  split; [|split; [|split; [|split]]].
  - split.
    + apply (bk_servers _ _ _ _ _ Hb). exists s. auto.
    + rewrite elem_of_difference, elem_of_singleton. tauto.
  - split.
    + exists (s_remote s). apply (bk_connections _ _ _ _ _ Hb). exists s. auto.
    + apply lookup_delete_eq.
  - intros id' Hne. split; apply lookup_delete_ne; congruence.
  - intros port Hne. rewrite elem_of_difference, elem_of_singleton. tauto.
  - intros id' l' Hne Hl'.
    apply (bk_listeners _ _ _ _ _ Hb) in Hl' as (s' & Hs' & Hid' & ->).
    apply elem_of_middle in Hs' as [->|Hs']; [congruence|].
    cbn [sessionListener l_server]. split; [apply (Hport s' Hs')|].
    rewrite elem_of_difference, elem_of_singleton. split; [|apply (Hport s' Hs')].
    apply (bk_servers _ _ _ _ _ Hb). exists s'. split; [|reflexivity].
    apply elem_of_middle. right. exact Hs'.
Qed.

(** C8.  On every backend that arises, whatever the application, when the
    disconnect event of an established session fires, its listener, in one
    go, closes the proxy server of that session, disposes of the session's
    proxy router handler (the layer [setupProxyRouter] installed leaves the
    router stack; where [spliceRouter] found no place for it there is no
    layer, and none to take out) and removes the session from the
    connection registry.  Nothing else changes: every other layer stays in
    the stack, in order; every other session keeps its registry entry and
    its listener, and its proxy server, which listens on another port,
    stays open. *)
Theorem disconnect_releases_session (names : list string) (b : Backend)
        (id : string) (l : DisconnectListener) :
  reachable names b ->
  listeners b !! id = Some l ->
  let b' := fireDisconnect id b in
  (l_server l ∈ servers b /\ l_server l ∉ servers b') /\
  (match l_proxyRouter l with
   | Some ref => exists layer, layer ∈ routerStack b /\ layer_ref layer = ref /\
                               isProxyOf id layer = true
   | None => forall layer, layer ∈ routerStack b -> isProxyOf id layer = false
   end /\
   forall layer, layer ∈ routerStack b' -> isProxyOf id layer = false) /\
  (is_Some (connections b !! id) /\ l_registration l = id /\ connections b' !! id = None) /\
  routerStack b' = List.filter (fun layer => negb (isProxyOf id layer)) (routerStack b) /\
  (forall id', id' <> id ->
               connections b' !! id' = connections b !! id' /\
               listeners b' !! id' = listeners b !! id') /\
  (forall port, port <> l_server l -> port ∈ servers b' <-> port ∈ servers b) /\
  (forall id' l', id' <> id -> listeners b !! id' = Some l' ->
                  l_server l' <> l_server l /\ l_server l' ∈ servers b').
Proof.
  intros Hreach Hl b'. subst b'. destruct (servesStatic names) eqn:Hstatic.
  - destruct (reachable_shaped names b Hstatic Hreach)
      as (sessions & pre & static & status & post & Hb).
    pose proof (sh_book _ _ _ _ _ _ Hb) as Hbook.
    pose proof (proj1 (bk_listeners _ _ _ _ _ Hbook id l) Hl) as (s & Hs & <- & ->).
    apply list_elem_of_split in Hs as (before & behind & ->).
    rewrite (fireDisconnect_shaped_eq _ _ _ _ _ _ _ _ Hb).
    cbn [routerStack connections servers listeners sessionListener
         l_server l_proxyRouter l_registration].
    destruct (book_release _ _ _ _ _ _ _ Hbook) as (Hserver & Hreg & Hother & Hports & Hopen).
    destruct (nodup_remove _ _ _ _ (bk_ids _ _ _ _ _ Hbook)) as [_ Hid].
    assert (Hothers : forallb (fun layer => negb (isProxyOf (remote_id (s_remote s)) layer))
                              (map proxyLayer (before ++ behind)) = true).
    { apply other_proxies_kept. exact Hid. }
    assert (Hpre : forallb (fun layer => negb (isProxyOf (remote_id (s_remote s)) layer))
                           (pre ++ [static; status]) = true).
    { rewrite forallb_app. apply andb_true_intro. split.
      - eapply forallb_weaken; [|apply (sh_pre_foreign _ _ _ _ _ _ Hb)].
        intros x Hx. apply andb_prop in Hx as [Hx _]. apply foreign_not_proxy, Hx.
      - cbn [forallb]. pose proof (sh_static_foreign _ _ _ _ _ _ Hb) as H.
        apply andb_prop in H as [H _]. rewrite (foreign_not_proxy _ _ H).
        unfold isProxyOf. rewrite (proj1 (sh_status_route _ _ _ _ _ _ Hb)). reflexivity. }
    assert (Hpost : forallb (fun layer => negb (isProxyOf (remote_id (s_remote s)) layer)) post
                    = true).
    { eapply forallb_weaken; [|apply (sh_post_foreign _ _ _ _ _ _ Hb)].
      intros x Hx. apply foreign_not_proxy, Hx. }
    assert (Hkept : forallb (fun layer => negb (isProxyOf (remote_id (s_remote s)) layer))
                      (pre ++ static :: status :: map proxyLayer (before ++ behind) ++ post)
                    = true).
    { change (pre ++ static :: status :: map proxyLayer (before ++ behind) ++ post)
        with (pre ++ [static; status] ++ map proxyLayer (before ++ behind) ++ post).
      rewrite app_assoc, forallb_app, Hpre, forallb_app, Hothers, Hpost. reflexivity. }
    split; [exact Hserver|]. split; [|split; [|split; [|split; [|split]]]].
    + split.
      * exists (proxyLayer s). split; [|split].
        -- rewrite (sh_stack _ _ _ _ _ _ Hb), stack_with_session.
           apply elem_of_app. right. left.
        -- reflexivity.
        -- unfold isProxyOf, proxyLayer. cbn [layer_handler]. apply String.eqb_refl.
      * intros layer. apply no_proxy_layer, Hkept.
    + split; [apply Hreg|]. split; [reflexivity|apply Hreg].
    + rewrite (sh_stack _ _ _ _ _ _ Hb), stack_with_session, stack_without_session.
      rewrite List.filter_app. cbn [List.filter].
      assert (Hs : negb (isProxyOf (remote_id (s_remote s)) (proxyLayer s)) = false).
      { unfold isProxyOf, proxyLayer. cbn [layer_handler]. rewrite String.eqb_refl. reflexivity. }
      rewrite Hs. rewrite stack_without_session in Hkept. rewrite forallb_app in Hkept.
      apply andb_prop in Hkept as [H1 H2]. rewrite (filter_keeps _ _ H1), (filter_keeps _ _ H2).
      reflexivity.
    + exact Hother.
    + exact Hports.
    + exact Hopen.
  - destruct (reachable_flat names b Hstatic Hreach) as (sessions & Hb).
    pose proof (fl_book _ _ _ Hb) as Hbook.
    pose proof (proj1 (bk_listeners _ _ _ _ _ Hbook id l) Hl) as (s & Hs & <- & ->).
    apply list_elem_of_split in Hs as (before & behind & ->).
    rewrite (fireDisconnect_flat_eq _ _ _ _ _ Hb).
    cbn [routerStack connections servers listeners sessionListener
         l_server l_proxyRouter l_registration].
    destruct (book_release _ _ _ _ _ _ _ Hbook) as (Hserver & Hreg & Hother & Hports & Hopen).
    assert (Hkept : forallb (fun layer => negb (isProxyOf (remote_id (s_remote s)) layer))
                            (foreignStack 0 names) = true).
    { eapply forallb_weaken; [|apply foreignStack_foreign].
      intros x Hx. apply foreign_not_proxy, Hx. }
    split; [exact Hserver|]. split; [|split; [|split; [|split; [|split]]]].
    + rewrite (fl_stack _ _ _ Hb). split; intros layer; apply no_proxy_layer, Hkept.
    + split; [apply Hreg|]. split; [reflexivity|apply Hreg].
    + rewrite (fl_stack _ _ _ Hb), (filter_keeps _ _ Hkept). reflexivity.
    + exact Hother.
    + exact Hports.
    + exact Hopen.
Qed.

Lemma disconnect_releases_session_witness :
  let b' := fireDisconnect "s1" twoSessions in
  map layer_name (routerStack b') =
    ["query"; "expressInit"; "serveStatic"; "bound dispatch"; "handleProxy"; "router"] /\
  connections b' !! "s1" = None /\
  connections b' !! "s2" = Some secondRemote /\
  (40001%N ∉ servers b') /\
  (40002%N ∈ servers b').
Proof.
  pose proof (disconnect_releases_session exampleApp twoSessions "s1"
                (mkListener 40001%N (Some 5%nat) "s1") twoSessions_reachable eq_refl)
    as (Hserver & _ & Hreg & Hstack & Hother & _ & Hopen).
  split; [rewrite Hstack; reflexivity|].
  split; [apply Hreg|].
  split; [rewrite (proj1 (Hother "s2" ltac:(discriminate))); reflexivity|].
  split; [apply Hserver|].
  apply (Hopen "s2" (mkListener 40002%N (Some 6%nat) "s2") ltac:(discriminate) eq_refl).
Defined.

(** ** Runs on concrete inputs *)

(** [execPartial] with the tester of [startApplication], every chunk in a
    turn of its own: the promise resolves at the listening line; the tester
    ran three times; what arrives later is not in the value. *)
Example execPartial_stops_at_listening_line :
  let ch := execPartial_events (fun out _ => localAddressRegex_test out)
              [[OnData "starting "]; [OnStderrData "warning "];
               [OnData "listening on http://localhost:3000 "]; [OnData "ready "]; [OnClose]] in
  ch_deferred ch = Some (mkResult "starting listening on http://localhost:3000 " "warning ") /\
  length (ch_tested ch) = 3%nat.
Proof. split; reflexivity. Qed.

(** [retry] on a transport that stays silent: 20 executions, then the
    empty result. *)
Example retry_gives_up_after_20 :
  retry (exec (scriptedHost (flakyLinux 100)) "uname -s" []) retry_times (startOf 0) =
  (Resolved (mkResult "" ""), mkSt 20%nat (repeat (EvExec "uname -s") 20) 0%N).
Proof. reflexivity. Qed.

(** [retry] on a transport that drops the first two executions. *)
Example retry_returns_third_attempt :
  retry (exec (scriptedHost (flakyLinux 2)) "uname -s" []) retry_times (startOf 0) =
  (Resolved (mkResult ("Linux" +:+ nl) ""), mkSt 3%nat (repeat (EvExec "uname -s") 3) 0%N).
Proof. reflexivity. Qed.

(** On a fresh host the runtime is downloaded, copied and extracted, and
    so is the application. *)
Example setup_provisions_fresh_host :
  let run := setup (scriptedHost (fun cmd n =>
                      if String.prefix "cd " cmd && includes "echo" cmd
                      then printed "" "sh: 1: cd: can't cd to it"
                      else installedLinux cmd n)) (startOf 0) in
  fst run = Resolved tt /\
  countEvents isDownload (trace (snd run)) = 1%nat /\
  countEvents isCopy (trace (snd run)) = 2%nat /\
  countEvents isExtraction (trace (snd run)) = 2%nat.
Proof. repeat split; reflexivity. Qed.

(** On an application without a static-file layer [spliceRouter] finds no
    place for the layers of the contribution and leaves them out: the
    stack is the application's own, the listener holds the null
    disposable, and no layer answers the status request. *)
Example layers_left_out_without_static :
  map layer_name (routerStack bareSession) = bareApp /\
  option_map l_proxyRouter (listeners bareSession !! "s1") = Some None /\
  serve plainExpress bareSession (mkRequest "GET" "/remote/status" (Some "s1")) = FellThrough.
Proof. repeat split; reflexivity. Qed.

(** The same when the static-file layer is the last one: the loop stops
    one short of it. *)
Example layers_left_out_behind_last_static :
  map layer_name (routerStack (configure (newBackend ["query"; "serveStatic"]))) =
  ["query"; "serveStatic"].
Proof. reflexivity. Qed.

(** ** Further properties of the connection *)

Lemma append_assoc (a b c : string) : (a +:+ b) +:+ c = a +:+ (b +:+ c).
Proof.
  induction a as [|x a IH]; [reflexivity|].
  change (String x ((a +:+ b) +:+ c) = String x (a +:+ (b +:+ c))). f_equal. exact IH.
Qed.

(** The data listeners of [exec], chunk by chunk. *)
Lemma exec_chunks chunks : forall out err d state log,
  fold_left exec_on (map chunkEvent chunks) (mkChannel out err d state log) =
  mkChannel (out +:+ outs chunks) (err +:+ errs chunks) d state log.
Proof.
  induction chunks as [|c chunks IH]; intros out err d state log.
  - cbn [map fold_left outs errs]. rewrite !append_empty_r. reflexivity.
  - destruct c as [data|data]; cbn [map fold_left chunkEvent exec_on outs errs
                                     ch_stdout ch_stderr ch_deferred ch_state ch_tested];
      rewrite IH, append_assoc; reflexivity.
Qed.

Lemma exec_settled_stays events : forall out err v state log,
  ch_deferred (fold_left exec_on events (mkChannel out err (Some v) state log)) = Some v.
Proof.
  induction events as [|ev events IH]; intros out err v state log; [reflexivity|].
  destruct ev; cbn [fold_left exec_on ch_stdout ch_stderr ch_deferred ch_state ch_tested resolve];
    apply IH.
Qed.

Lemma exec_closed chunks later :
  ch_deferred (exec_events (map chunkEvent chunks ++ OnClose :: later)) =
  Some (mkResult (outs chunks) (errs chunks)).
Proof.
  unfold exec_events. rewrite fold_left_app. unfold newChannel. rewrite exec_chunks.
  cbn [fold_left]. unfold exec_on at 2. cbn [ch_deferred ch_stdout ch_stderr resolve].
  apply exec_settled_stays.
Qed.

(** X1.  [exec] resolves when the channel closes, with everything that
    arrived on stdout and everything that arrived on stderr before the
    close, each in its order of arrival; how the two streams interleave
    does not matter, and what the stream emits after the close does not
    change the value.  Until the channel closes the promise stays open. *)
Theorem exec_resolves_on_close (chunks : list Chunk) (later : list StreamEvent) :
  ch_deferred (exec_events (map chunkEvent chunks ++ OnClose :: later)) =
    Some (mkResult (outs chunks) (errs chunks)) /\
  ch_deferred (exec_events (map chunkEvent chunks)) = None.
Proof.
  unfold exec_events, newChannel. split.
  - rewrite fold_left_app, exec_chunks. cbn [fold_left exec_on ch_stdout ch_stderr
                                              ch_deferred ch_state ch_tested resolve].
    apply exec_settled_stays.
  - rewrite exec_chunks. reflexivity.
Qed.

(** A tester that never held of the buffers has no first hit. *)
Lemma firstHit_never tester chunks :
  (forall k, tester (stdout (accumulated (take k chunks))) (stderr (accumulated (take k chunks)))
             = false) ->
  firstHit tester (mkResult "" "") chunks = None.
Proof.
  intros Hnever.
  destruct (firstHit tester (mkResult "" "") chunks) as [n|] eqn:E; [|reflexivity].
  destruct (firstHit_Some _ _ _ _ E) as (_ & Htrue & _). unfold holdsAfter in Htrue.
  specialize (Hnever n). unfold accumulated in Hnever. congruence.
Qed.

(** What [startApplication] makes of the result of [execPartial]. *)
Lemma startApplication_of_stream {W} (host : Host W) platform remotePath nodeDir st turns :
  fst (client_exec host
         (buildCmd (startCommand platform remotePath nodeDir)
                   [joinRemotePath platform [remotePath; "lib"; "backend"; "main.js"];
                    "--port=0"; "--remote"]) (world st)) = ExecStream turns ->
  fst (startApplication host platform remotePath nodeDir st) =
  match firstResolution (fun out _ => localAddressRegex_test out) (mkResult "" "")
                        (concat turns) with
  | Some r =>
      match localAddressRegex_exec (stdout r) with
      | Some digits => Resolved (Number digits)
      | None => Rejected ("Could not start remote system: " +:+ stderr r)
      end
  | None => Pending
  end.
Proof.
  intros Hexec. unfold startApplication. rewrite bind_run. unfold execPartial.
  destruct (client_exec host _ (world st)) as [response w]. cbn [fst] in Hexec. subst response.
  cbn [fst snd]. rewrite execPartial_value.
  destruct (firstResolution _ _ (concat turns)) as [r|]; cbn [settled]; [|reflexivity].
  destruct (localAddressRegex_exec (stdout r)); reflexivity.
Qed.

(** X2.  [startApplication] has no timeout: when the launched backend
    keeps its channel open and its output never holds a listening line,
    the promise of [startApplication] never settles, in whatever turns the
    output arrives. *)
Theorem startApplication_waits_forever {W} (host : Host W) (platform : RemotePlatform)
        (remotePath nodeDir : string) (st : St W)
        (turns : list (list StreamEvent)) (chunks : list Chunk) :
  fst (client_exec host
         (buildCmd (startCommand platform remotePath nodeDir)
                   [joinRemotePath platform [remotePath; "lib"; "backend"; "main.js"];
                    "--port=0"; "--remote"]) (world st)) =
    ExecStream turns ->
  concat turns = map chunkEvent chunks ->
  (forall k, localAddressRegex_test (stdout (accumulated (take k chunks))) = false) ->
  fst (startApplication host platform remotePath nodeDir st) = Pending.
Proof.
  intros Hexec Hturns Hnever. rewrite (startApplication_of_stream _ _ _ _ _ _ Hexec), Hturns.
  rewrite <- (app_nil_r (map chunkEvent chunks)), firstResolution_chunks.
  rewrite (firstHit_never (fun out _ => localAddressRegex_test out) chunks Hnever).
  reflexivity.
Qed.

Lemma startApplication_waits_forever_witness :
  fst (startApplication
         (scriptedHost (fun cmd n =>
            if includes "main.js" cmd
            then ExecStream [[OnData "starting"]; [OnStderrData "warning"]]
            else installedLinux cmd n))
         linux "/home/user/.theia-1.0.0-remote"
         "/home/user/.theia-1.0.0-remote/node-v16.14.0-linux-x64" (startOf 0)) = Pending.
Proof.
  apply (startApplication_waits_forever _ linux _ _ (startOf 0)
           [[OnData "starting"]; [OnStderrData "warning"]] [Out "starting"; Err "warning"]).
  - reflexivity.
  - reflexivity.
  - intros [|[|[|k]]]; reflexivity.
Defined.

Lemma accumulatedFrom_streams chunks : forall r,
  accumulatedFrom r chunks = mkResult (stdout r +:+ outs chunks) (stderr r +:+ errs chunks).
Proof.
  induction chunks as [|c chunks IH]; intros r.
  - cbn [outs errs]. rewrite !append_empty_r. destruct r; reflexivity.
  - rewrite accumulatedFrom_cons, IH.
    destruct c as [d|d]; cbn [received stdout stderr outs errs]; rewrite append_assoc; reflexivity.
Qed.

Lemma accumulated_streams chunks : accumulated chunks = mkResult (outs chunks) (errs chunks).
Proof. unfold accumulated. rewrite accumulatedFrom_streams. reflexivity. Qed.

Lemma takeDigits_allDigits s : allDigits (takeDigits s) = true.
Proof.
  induction s as [|c s IH]; [reflexivity|]. cbn [takeDigits].
  destruct (isDigit c) eqn:E; [|reflexivity]. cbn [allDigits]. rewrite E, IH. reflexivity.
Qed.

(** What the pattern captures is a run of decimal digits, and not empty. *)
Lemma localAddressRegex_exec_digits s digits :
  localAddressRegex_exec s = Some digits -> allDigits digits = true /\ digits <> "".
Proof.
  assert (Hhere : forall t, matchHere t = Some digits -> allDigits digits = true /\ digits <> "").
  { intros t. unfold matchHere.
    destruct (stripPrefix "listening on http://localhost:" t) as [rest|]; [|discriminate].
    cbn zeta. destruct (truthy (takeDigits rest)) eqn:E; [|discriminate].
    intros H. injection H as <-. split; [apply takeDigits_allDigits|apply truthy_true, E]. }
  induction s as [|c s IH]; cbn [localAddressRegex_exec].
  - destruct (matchHere "") eqn:E; [|discriminate]. intros H. injection H as ->. apply (Hhere _ E).
  - destruct (matchHere (String c s)) eqn:E.
    + intros H. injection H as ->. apply (Hhere _ E).
    + exact IH.
Qed.

(** A double holds every integer below 2^53 as it is. *)
Lemma toDouble_exact n : (n < 2 ^ 53)%N -> toDouble n = Finite n.
Proof.
  intros Hn. unfold toDouble.
  assert (Hsize : (N.size n <= 53)%N).
  { destruct (N.eq_dec n 0%N) as [->|Hpos]; [cbn; lia|].
    rewrite N.size_log2 by exact Hpos.
    apply N.le_succ_l, N.log2_lt_pow2; lia. }
  apply N.leb_le in Hsize. rewrite Hsize. reflexivity.
Qed.

(** X3.  [startApplication] takes the port from stdout as it stands at the
    first moment the listening pattern matches, in whatever turns the
    output arrives: the port is [Number] of the digits the pattern captures
    there, a run of decimal digits that is not empty, and output that
    arrives afterwards, further digits of the same number included, does
    not change it.  [Number] gives the double nearest to the number the
    digits denote: that number itself when it is below 2^53, as every port
    is. *)
Theorem startApplication_port_at_first_match {W} (host : Host W) (platform : RemotePlatform)
        (remotePath nodeDir : string) (st : St W)
        (turns : list (list StreamEvent)) (chunks : list Chunk) (later : list StreamEvent)
        (n : nat) :
  fst (client_exec host
         (buildCmd (startCommand platform remotePath nodeDir)
                   [joinRemotePath platform [remotePath; "lib"; "backend"; "main.js"];
                    "--port=0"; "--remote"]) (world st)) =
    ExecStream turns ->
  concat turns = map chunkEvent chunks ++ later ->
  firstHit (fun out _ => localAddressRegex_test out) (mkResult "" "") chunks = Some n ->
  exists digits,
    localAddressRegex_exec (outs (take n chunks)) = Some digits /\
    allDigits digits = true /\ digits <> "" /\
    fst (startApplication host platform remotePath nodeDir st) = Resolved (Number digits) /\
    ((decimalValue digits < 2 ^ 53)%N -> Number digits = Finite (decimalValue digits)).
Proof.
  intros Hexec Hturns Hhit. rewrite (startApplication_of_stream _ _ _ _ _ _ Hexec), Hturns.
  rewrite firstResolution_chunks, Hhit.
  destruct (firstHit_Some _ _ _ _ Hhit) as (_ & Htrue & _). unfold holdsAfter in Htrue.
  change (accumulatedFrom (mkResult "" "") (take n chunks)) with (accumulated (take n chunks))
    in Htrue |- *.
  rewrite accumulated_streams in Htrue |- *. cbn [stdout] in Htrue |- *.
  unfold localAddressRegex_test in Htrue.
  destruct (localAddressRegex_exec (outs (take n chunks))) as [digits|] eqn:Hdigits;
    [|discriminate].
  exists digits. split; [reflexivity|].
  destruct (localAddressRegex_exec_digits _ _ Hdigits) as [H1 H2].
  split; [exact H1|]. split; [exact H2|]. split; [reflexivity|].
  intros Hsmall. unfold Number. apply toDouble_exact, Hsmall.
Qed.

Lemma startApplication_port_at_first_match_witness :
  fst (startApplication
         (scriptedHost (fun cmd n =>
            if includes "main.js" cmd
            then ExecStream [[OnData "listening on http://localhost:53"; OnData "211"];
                             [OnClose]]
            else installedLinux cmd n))
         linux "/home/user/.theia-1.0.0-remote"
         "/home/user/.theia-1.0.0-remote/node-v16.14.0-linux-x64" (startOf 0)) =
  Resolved (Finite 53).
Proof.
  destruct (startApplication_port_at_first_match
              (scriptedHost (fun cmd n =>
                 if includes "main.js" cmd
                 then ExecStream [[OnData "listening on http://localhost:53"; OnData "211"];
                                  [OnClose]]
                 else installedLinux cmd n))
              linux "/home/user/.theia-1.0.0-remote"
              "/home/user/.theia-1.0.0-remote/node-v16.14.0-linux-x64" (startOf 0)
              [[OnData "listening on http://localhost:53"; OnData "211"]; [OnClose]]
              [Out "listening on http://localhost:53"; Out "211"] [OnClose] 1
              eq_refl eq_refl eq_refl) as (digits & Hd & _ & _ & Hport & _).
  vm_compute in Hd. injection Hd as <-. rewrite Hport. reflexivity.
Defined.

(** X4.  When the channel of the launched backend closes before its stdout
    ever held a listening line, [startApplication] throws, and the message
    carries everything the backend wrote to stderr, in whatever turns the
    output and the close arrive. *)
Theorem startApplication_fails_on_close {W} (host : Host W) (platform : RemotePlatform)
        (remotePath nodeDir : string) (st : St W)
        (turns : list (list StreamEvent)) (chunks : list Chunk) (later : list StreamEvent) :
  fst (client_exec host
         (buildCmd (startCommand platform remotePath nodeDir)
                   [joinRemotePath platform [remotePath; "lib"; "backend"; "main.js"];
                    "--port=0"; "--remote"]) (world st)) =
    ExecStream turns ->
  concat turns = map chunkEvent chunks ++ OnClose :: later ->
  (forall k, localAddressRegex_test (outs (take k chunks)) = false) ->
  fst (startApplication host platform remotePath nodeDir st) =
  Rejected ("Could not start remote system: " +:+ errs chunks).
Proof.
  intros Hexec Hturns Hnever.
  rewrite (startApplication_of_stream _ _ _ _ _ _ Hexec), Hturns, firstResolution_chunks.
  rewrite (firstHit_never (fun out _ => localAddressRegex_test out) chunks).
  - cbn [firstResolution].
    change (accumulatedFrom (mkResult "" "") chunks) with (accumulated chunks).
    rewrite accumulated_streams. cbn [stdout stderr].
    specialize (Hnever (length chunks)). rewrite firstn_all in Hnever.
    unfold localAddressRegex_test in Hnever.
    destruct (localAddressRegex_exec (outs chunks)); [discriminate|reflexivity].
  - intros k. rewrite accumulated_streams. apply Hnever.
Qed.

Lemma startApplication_fails_on_close_witness :
  fst (startApplication
         (scriptedHost (fun cmd n =>
            if includes "main.js" cmd
            then ExecStream [[OnData "starting"; OnStderrData "node: not found"]; [OnClose]]
            else installedLinux cmd n))
         linux "/home/user/.theia-1.0.0-remote"
         "/home/user/.theia-1.0.0-remote/node-v16.14.0-linux-x64" (startOf 0)) =
  Rejected "Could not start remote system: node: not found".
Proof.
  apply (startApplication_fails_on_close
           (scriptedHost (fun cmd n =>
              if includes "main.js" cmd
              then ExecStream [[OnData "starting"; OnStderrData "node: not found"]; [OnClose]]
              else installedLinux cmd n))
           linux _ _ (startOf 0)
           [[OnData "starting"; OnStderrData "node: not found"]; [OnClose]]
           [Out "starting"; Err "node: not found"] []).
  - reflexivity.
  - reflexivity.
  - intros [|[|[|k]]]; reflexivity.
Defined.

(** ** Command lines and remote paths *)

Lemma bareQuotes_app a : forall escaped b,
  bareQuotes escaped (a +:+ b) =
  bareQuotes escaped a +
  bareQuotes (match a with EmptyString => escaped | _ => endsWithBackslash a end) b.
Proof.
  induction a as [|c a IH]; intros escaped b.
  - reflexivity.
  - change (String c a +:+ b) with (String c (a +:+ b)). cbn [bareQuotes].
    destruct (Ascii.eqb c (ascii_of_nat 34)) eqn:Hq.
    + rewrite IH. destruct a as [|c' a'].
      * apply Ascii.eqb_eq in Hq. subst c.
        change (endsWithBackslash (String (ascii_of_nat 34) "")) with false.
        cbn [bareQuotes]. lia.
      * cbn [endsWithBackslash]. lia.
    + rewrite IH. destruct a as [|c' a']; reflexivity.
Qed.

Lemma bareQuotes_escapeQuotes s : forall escaped, bareQuotes escaped (escapeQuotes s) = 0.
Proof.
  induction s as [|c s IH]; intros escaped; [reflexivity|].
  cbn [escapeQuotes]. destruct (Ascii.eqb c (ascii_of_nat 34)) eqn:Hq.
  - apply Ascii.eqb_eq in Hq. subst c. cbn [bareQuotes].
    change (Ascii.eqb "\" (ascii_of_nat 34)) with false.
    change (Ascii.eqb "\" "\") with true.
    change (Ascii.eqb (ascii_of_nat 34) (ascii_of_nat 34)) with true. cbn iota. apply IH.
  - cbn [bareQuotes]. rewrite Hq. apply IH.
Qed.

Lemma endsWithBackslash_escapeQuotes s :
  endsWithBackslash (escapeQuotes s) = endsWithBackslash s.
Proof.
  induction s as [|c s IH]; [reflexivity|].
  cbn [escapeQuotes]. destruct (Ascii.eqb c (ascii_of_nat 34)) eqn:Hq.
  - destruct s as [|c' s'].
    + apply Ascii.eqb_eq in Hq. subst c. reflexivity.
    + cbn [endsWithBackslash]. cbn [escapeQuotes] in IH |- *.
      destruct (Ascii.eqb c' (ascii_of_nat 34)); exact IH.
  - destruct s as [|c' s']; [reflexivity|].
    cbn [endsWithBackslash]. cbn [escapeQuotes] in IH |- *.
    destruct (Ascii.eqb c' (ascii_of_nat 34)); exact IH.
Qed.

Lemma endsWithBackslash_snoc s c : endsWithBackslash (s +:+ String c "") = Ascii.eqb c "\".
Proof.
  induction s as [|c' s IH]; [reflexivity|].
  change (String c' s +:+ String c "") with (String c' (s +:+ String c "")).
  cbn [endsWithBackslash]. destruct (s +:+ String c "") eqn:E; [|exact IH].
  destruct s; discriminate.
Qed.

(** The quoted form of one argument holds its two delimiters as bare
    quotes, less the closing one when the argument ends in a backslash. *)
Lemma bareQuotes_quoted arg escaped' :
  bareQuotes false (dq +:+ escapeQuotes arg +:+ dq) +
  (if endsWithBackslash arg then 1 else 0) = 2 /\
  bareQuotes escaped' (String " " (dq +:+ escapeQuotes arg +:+ dq)) +
  (if endsWithBackslash arg then 1 else 0) = 2.
Proof.
  assert (H : bareQuotes false (dq +:+ escapeQuotes arg +:+ dq) +
              (if endsWithBackslash arg then 1 else 0) = 2).
  { change (dq +:+ escapeQuotes arg +:+ dq)
      with (String (ascii_of_nat 34) (escapeQuotes arg +:+ dq)).
    cbn [bareQuotes].
    change (Ascii.eqb (ascii_of_nat 34) (ascii_of_nat 34)) with true. cbn iota.
    rewrite bareQuotes_app, bareQuotes_escapeQuotes.
    rewrite <- (endsWithBackslash_escapeQuotes arg).
    destruct (escapeQuotes arg) as [|c s]; [reflexivity|].
    destruct (endsWithBackslash (String c s)); reflexivity. }
  split; [exact H|]. cbn [bareQuotes].
  change (Ascii.eqb " " (ascii_of_nat 34)) with false. cbn iota.
  change (Ascii.eqb " " "\") with false. exact H.
Qed.

Lemma join_cons separator s rest :
  rest <> [] -> join separator (s :: rest) = s +:+ separator +:+ join separator rest.
Proof. destruct rest; [congruence|reflexivity]. Qed.

Lemma bareQuotes_join args : forall escaped,
  args <> [] ->
  bareQuotes escaped
    (String " " (join " " (map (fun arg => dq +:+ escapeQuotes arg +:+ dq) args))) +
  length (List.filter endsWithBackslash args) = 2 * length args.
Proof.
  induction args as [|arg args IH]; intros escaped Hne; [congruence|].
  destruct args as [|arg' args].
  - cbn [map join List.filter length].
    destruct (bareQuotes_quoted arg escaped) as [_ H].
    destruct (endsWithBackslash arg); cbn [length]; lia.
  - set (rest := arg' :: args) in *.
    cbn [map]. rewrite join_cons by (subst rest; discriminate).
    change (String " " ((dq +:+ escapeQuotes arg +:+ dq) +:+ " " +:+ ?x))
      with (String " " (dq +:+ escapeQuotes arg +:+ dq) +:+ String " " x).
    rewrite bareQuotes_app.
    destruct (bareQuotes_quoted arg escaped) as [_ H].
    specialize (IH (endsWithBackslash (String " " (dq +:+ escapeQuotes arg +:+ dq)))).
    assert (Hrest : rest <> []) by (subst rest; discriminate). specialize (IH Hrest).
    cbn [List.filter length]. destruct (endsWithBackslash arg); cbn [length]; lia.
Qed.

(** X5.  [buildCmd] leaves the command as it is when there are no
    arguments, and otherwise the only double quotes it adds that do not come
    directly after a backslash are the two delimiters of each argument:
    every quote inside an argument is escaped.  Backslashes are not: the
    closing delimiter of an argument that ends in a backslash comes out
    escaped as well. *)
Theorem buildCmd_quotes_arguments (cmd : string) (args : list string) :
  buildCmd cmd [] = cmd /\
  bareQuotes false (buildCmd cmd args) + length (List.filter endsWithBackslash args) =
  bareQuotes false cmd + 2 * length args.
Proof.
  split; [apply buildCmd_no_args|].
  destruct args as [|arg args].
  - rewrite buildCmd_no_args. cbn. lia.
  - unfold buildCmd. rewrite length_map. cbn [length Nat.ltb Nat.leb].
    change (" " +:+ ?x) with (String " " x).
    rewrite bareQuotes_app.
    match goal with
    | |- context [bareQuotes ?e (String " " _)] =>
        pose proof (bareQuotes_join (arg :: args) e ltac:(discriminate)) as H
    end.
    change (length (arg :: args)) with (S (length args)) in H. lia.
Qed.

Lemma join_app separator xs : forall ys,
  xs <> [] -> ys <> [] ->
  join separator (xs ++ ys) = join separator xs +:+ separator +:+ join separator ys.
Proof.
  induction xs as [|x xs IH]; intros ys Hxs Hys; [congruence|].
  destruct xs as [|x' xs].
  - cbn [app]. apply join_cons, Hys.
  - change ((x :: x' :: xs) ++ ys) with (x :: ((x' :: xs) ++ ys)).
    rewrite join_cons by discriminate. rewrite IH by (discriminate || assumption).
    rewrite (join_cons separator x (x' :: xs)) by discriminate.
    rewrite !append_assoc. reflexivity.
Qed.

(** X6.  Remote paths can be built in steps: joining further segments onto
    a path that [joinRemotePath] made of at least one segment gives the same
    path as joining all the segments at once.  (With no segment to start
    from the first path is empty and the second join starts with a
    separator.) *)
Theorem joinRemotePath_in_steps (platform : RemotePlatform) (first rest : list string) :
  first <> [] ->
  joinRemotePath platform (joinRemotePath platform first :: rest) =
  joinRemotePath platform (first ++ rest).
Proof.
  intros Hfirst. unfold joinRemotePath.
  set (separator := match platform with windows => "\" | _ => "/" end).
  destruct rest as [|r rest].
  - rewrite app_nil_r. reflexivity.
  - rewrite join_cons by discriminate. rewrite join_app by (discriminate || assumption).
    reflexivity.
Qed.

Lemma joinRemotePath_in_steps_witness :
  joinRemotePath windows [joinRemotePath windows ["C:\Users\me"; ".theia-1.0.0-remote"];
                          "lib"; "backend"; "main.js"] =
  joinRemotePath windows (["C:\Users\me"; ".theia-1.0.0-remote"] ++ ["lib"; "backend"; "main.js"]).
Proof.
  apply (joinRemotePath_in_steps windows ["C:\Users\me"; ".theia-1.0.0-remote"]
           ["lib"; "backend"; "main.js"]).
  discriminate.
Defined.

Lemma hasChar_app p a b : hasChar p (a +:+ b) = hasChar p a || hasChar p b.
Proof.
  induction a as [|c a IH]; [reflexivity|].
  change (String c a +:+ b) with (String c (a +:+ b)). cbn [hasChar].
  rewrite IH, orb_assoc. reflexivity.
Qed.

Lemma cleanupDirectoryName_char c :
  (if existsb (Ascii.eqb c) ["@"; "<"; ">"; ":"; ascii_of_nat 34; "\"; "|"; "?"; "*"]%char
   then true
   else if Ascii.eqb c "/" then true else negb (unsafeInDirectoryName c)) = true.
Proof. destruct c as [[] [] [] [] [] [] [] []]; reflexivity. Qed.

Lemma cleanupDirectoryName_safe name :
  hasChar unsafeInDirectoryName (cleanupDirectoryName name) = false.
Proof.
  induction name as [|c name IH]; [reflexivity|].
  cbn [cleanupDirectoryName]. pose proof (cleanupDirectoryName_char c) as Hc.
  destruct (existsb (Ascii.eqb c) _); [exact IH|].
  destruct (Ascii.eqb c "/").
  - cbn [hasChar]. rewrite IH. reflexivity.
  - cbn [hasChar]. rewrite IH. apply negb_true_iff in Hc. rewrite Hc. reflexivity.
Qed.

Lemma cleanupDirectoryName_fixes safe :
  hasChar unsafeInDirectoryName safe = false -> cleanupDirectoryName safe = safe.
Proof.
  induction safe as [|c safe IH]; [reflexivity|].
  cbn [hasChar]. intros H. apply orb_false_iff in H as [Hc Hrest].
  cbn [cleanupDirectoryName]. rewrite (IH Hrest).
  revert Hc. destruct c as [[] [] [] [] [] [] [] []]; (discriminate || reflexivity).
Qed.

(** X7.  The directory name of the remote application is a single, portable
    path segment: whatever the package's name and version,
    [getRemoteAppName] holds none of the characters at, less-than,
    greater-than, colon, double quote, backslash, bar, question mark, star
    or slash; and [cleanupDirectoryName] changes nothing in a name it has
    already cleaned. *)
Theorem getRemoteAppName_is_one_segment {W} (host : Host W) (name : string) :
  hasChar unsafeInDirectoryName (getRemoteAppName host) = false /\
  hasChar unsafeInDirectoryName (cleanupDirectoryName name) = false /\
  cleanupDirectoryName (cleanupDirectoryName name) = cleanupDirectoryName name.
Proof.
  split; [|split].
  - unfold getRemoteAppName. cbn zeta. rewrite hasChar_app, cleanupDirectoryName_safe.
    reflexivity.
  - apply cleanupDirectoryName_safe.
  - apply cleanupDirectoryName_fixes, cleanupDirectoryName_safe.
Qed.

(** ** The setup steps on transports that stay silent or complain *)

(** On a transport that answers a command with silence, [retry] runs the
    command as often as it may and ends with the empty result. *)
Lemma retry_silent {W} (host : Host W) cmd n :
  silentOn host cmd ->
  forall st, exists st',
    retry_loop n (exec host cmd []) emptyResult st = (Resolved emptyResult, st') /\
    trace st' = trace st ++ repeat (EvExec cmd) n /\
    remotePort st' = remotePort st.
Proof.
  intros Hsilent. induction n as [|n IH]; intros st.
  - exists st. cbn [retry_loop repeat]. rewrite app_nil_r. repeat split.
  - rewrite retry_loop_S. unfold exec at 1. rewrite buildCmd_no_args.
    destruct (Hsilent (world st)) as (events & Hevents & Hclosed).
    destruct (client_exec host cmd (world st)) as [response w]. cbn [fst] in Hevents.
    subst response. rewrite Hclosed. cbn [settled].
    change (hasOutput emptyResult) with false. cbn iota.
    destruct (IH (setWorld w (emit (EvExec cmd) st))) as (st' & Hrun & Htrace & Hport).
    exists st'. split; [exact Hrun|]. split; [|exact Hport].
    rewrite Htrace. cbn [setWorld emit trace repeat]. rewrite <- app_assoc. reflexivity.
Qed.

(** X8.  [mkdirRemote] takes silence for success: on a transport that
    answers the mkdir command with nothing at all, it runs the command the
    full 20 times and then reports the directory as created. *)
Theorem mkdirRemote_takes_silence_for_success {W} (host : Host W) (platform : RemotePlatform)
        (remotePath : string) (st : St W) :
  silentOn host (mkdirCommand platform remotePath) ->
  fst (mkdirRemote host platform remotePath st) = Resolved tt /\
  trace (snd (mkdirRemote host platform remotePath st)) =
    trace st ++ repeat (EvExec (mkdirCommand platform remotePath)) 20.
Proof.
  intros Hsilent. unfold mkdirRemote, retry.
  destruct (retry_silent host _ (Z.to_nat retry_times) Hsilent st) as (st' & Hrun & Htrace & _).
  rewrite bind_resolved with (a := emptyResult) by (rewrite Hrun; reflexivity).
  rewrite Hrun. cbn [snd stderr emptyResult]. change (truthy "") with false. cbn iota.
  split; [reflexivity|]. exact Htrace.
Qed.

Lemma mkdirRemote_takes_silence_for_success_witness :
  fst (mkdirRemote (scriptedHost deadTransport) linux "/home/user/.theia-1.0.0-remote"
                   (startOf 0)) = Resolved tt /\
  trace (snd (mkdirRemote (scriptedHost deadTransport) linux "/home/user/.theia-1.0.0-remote"
                          (startOf 0))) =
    trace (startOf 0) ++
    repeat (EvExec (mkdirCommand linux "/home/user/.theia-1.0.0-remote")) 20.
Proof.
  apply (mkdirRemote_takes_silence_for_success (scriptedHost deadTransport) linux
           "/home/user/.theia-1.0.0-remote" (startOf 0)).
  intros w. exists [[OnClose]]. split; reflexivity.
Defined.

(** X9.  [detectRemotePlatform] gives up on a silent transport: after 20
    unanswered probes it throws the detection error, with nothing to show
    but the line break between the two empty streams. *)
Theorem detectRemotePlatform_gives_up_on_silence {W} (host : Host W) (st : St W) :
  silentOn host "uname -s" ->
  fst (detectRemotePlatform host st) = Rejected ("Failed to identify remote system: " +:+ nl) /\
  trace (snd (detectRemotePlatform host st)) = trace st ++ repeat (EvExec "uname -s") 20.
Proof.
  intros Hsilent. unfold detectRemotePlatform, retry.
  destruct (retry_silent host _ (Z.to_nat retry_times) Hsilent st) as (st' & Hrun & Htrace & _).
  rewrite bind_resolved with (a := emptyResult) by (rewrite Hrun; reflexivity).
  rewrite Hrun. cbn [snd]. change (platformOf emptyResult) with (@None RemotePlatform).
  cbn iota. split; [|exact Htrace].
  cbn [throw fst stdout stderr emptyResult]. rewrite append_empty_r. reflexivity.
Qed.

Lemma detectRemotePlatform_gives_up_on_silence_witness :
  fst (detectRemotePlatform (scriptedHost deadTransport) (startOf 0)) =
    Rejected ("Failed to identify remote system: " +:+ nl) /\
  trace (snd (detectRemotePlatform (scriptedHost deadTransport) (startOf 0))) =
    trace (startOf 0) ++ repeat (EvExec "uname -s") 20.
Proof.
  apply (detectRemotePlatform_gives_up_on_silence (scriptedHost deadTransport) (startOf 0)).
  intros w. exists [[OnClose]]. split; reflexivity.
Defined.

(** X10.  [unzipRemote] runs tar once, without [retry], and whatever tar
    writes to stderr before the channel closes is fatal: the step succeeds
    exactly when stderr stayed empty, in whatever turns the output and the
    close arrive. *)
Theorem unzipRemote_runs_tar_once {W} (host : Host W) (remoteFile remoteDirectory : string)
        (st : St W) (turns : list (list StreamEvent)) (chunks : list Chunk)
        (later : list StreamEvent) :
  fst (client_exec host (buildCmd "tar -xf" [remoteFile; "-C"; remoteDirectory]) (world st)) =
    ExecStream turns ->
  concat turns = map chunkEvent chunks ++ OnClose :: later ->
  fst (unzipRemote host remoteFile remoteDirectory st) =
    (if truthy (errs chunks) then Rejected ("Failed to unzip: " +:+ errs chunks)
     else Resolved tt) /\
  trace (snd (unzipRemote host remoteFile remoteDirectory st)) =
    trace st ++ [EvExec (buildCmd "tar -xf" [remoteFile; "-C"; remoteDirectory])].
Proof.
  intros Hexec Hturns. unfold unzipRemote.
  assert (Hrun : fst (exec host "tar -xf" [remoteFile; "-C"; remoteDirectory] st) =
                 Resolved (mkResult (outs chunks) (errs chunks))).
  { unfold exec.
    destruct (client_exec host _ (world st)) as [response w]. cbn [fst] in Hexec.
    subst response. cbn [fst].
    rewrite Hturns, exec_closed. reflexivity. }
  rewrite bind_resolved with (a := mkResult (outs chunks) (errs chunks)) by exact Hrun.
  rewrite exec_trace. cbn [stderr].
  destruct (truthy (errs chunks)); split; reflexivity.
Qed.

Lemma unzipRemote_runs_tar_once_witness :
  fst (unzipRemote
         (scriptedHost (fun _ _ =>
            ExecStream [[OnStderrData "tar: Ignoring unknown extended header keyword"];
                        [OnClose]]))
         "/home/user/app/node.tar.xz" "/home/user/app" (startOf 0)) =
  Rejected "Failed to unzip: tar: Ignoring unknown extended header keyword".
Proof.
  apply (unzipRemote_runs_tar_once
           (scriptedHost (fun _ _ =>
              ExecStream [[OnStderrData "tar: Ignoring unknown extended header keyword"];
                          [OnClose]]))
           "/home/user/app/node.tar.xz" "/home/user/app" (startOf 0)
           [[OnStderrData "tar: Ignoring unknown extended header keyword"]; [OnClose]]
           [Err "tar: Ignoring unknown extended header keyword"] []);
    reflexivity.
Defined.

Lemma trimEnd_allWhiteSpace ws : allWhiteSpace ws = true -> trimEnd ws = "".
Proof.
  induction ws as [|c ws IH]; [reflexivity|]. cbn [allWhiteSpace trimEnd].
  intros H. apply andb_prop in H as [Hc Hws]. rewrite (IH Hws), Hc. reflexivity.
Qed.

Lemma trimEnd_app_allWhiteSpace s ws :
  allWhiteSpace ws = true -> trimEnd (s +:+ ws) = trimEnd s.
Proof.
  intros Hws. induction s as [|c s IH].
  - change ("" +:+ ws) with ws. apply trimEnd_allWhiteSpace, Hws.
  - change (String c s +:+ ws) with (String c (s +:+ ws)). cbn [trimEnd]. rewrite IH.
    reflexivity.
Qed.

(** X11.  On windows the home directory falls back to the user profile only
    when the first probe answers with exactly the unexpanded variable.  A
    shell that echoes the variable unexpanded and ends the line, as shells
    do, is not recognised: the name of the variable itself is returned as
    the home directory, and the second probe is never sent. *)
Theorem getRemoteHomeDirectory_fallback_is_exact {W} (host : Host W) (st : St W)
        (result : RemoteExecResult) (lineEnd : string) :
  fst (retry (exec host "echo $HOME" []) retry_times st) = Resolved result ->
  stdout result = "$HOME" +:+ lineEnd ->
  lineEnd <> "" ->
  allWhiteSpace lineEnd = true ->
  getRemoteHomeDirectory host windows st =
  (Resolved "$HOME", snd (retry (exec host "echo $HOME" []) retry_times st)).
Proof.
  intros Hrun Hout Hsome Hws. unfold getRemoteHomeDirectory.
  rewrite bind_resolved with (a := result) by exact Hrun. cbn zeta.
  destruct (String.eqb (stdout result) "$HOME") eqn:E.
  - apply String.eqb_eq in E. rewrite Hout in E. exfalso.
    destruct lineEnd as [|c rest]; [congruence|discriminate].
  - rewrite Hout. unfold trim.
    change (trimStart ("$HOME" +:+ lineEnd)) with ("$HOME" +:+ lineEnd).
    rewrite trimEnd_app_allWhiteSpace by exact Hws. reflexivity.
Qed.

Lemma getRemoteHomeDirectory_fallback_is_exact_witness :
  fst (getRemoteHomeDirectory
         (scriptedHost (fun cmd _ =>
            if String.eqb cmd "echo $HOME" then printed ("$HOME" +:+ nl) ""
            else printed ("C:\Users\me" +:+ nl) ""))
         windows (startOf 0)) = Resolved "$HOME".
Proof.
  rewrite (getRemoteHomeDirectory_fallback_is_exact
             (scriptedHost (fun cmd _ =>
                if String.eqb cmd "echo $HOME" then printed ("$HOME" +:+ nl) ""
                else printed ("C:\Users\me" +:+ nl) ""))
             (startOf 0) (mkResult ("$HOME" +:+ nl) "") nl eq_refl eq_refl);
    [reflexivity|discriminate|reflexivity].
Defined.

(** ** The router stack under [spliceRouter] and its disposable *)

Lemma findPosition_None_iff position layers : forall i,
  findPosition position i layers = None <-> Forall (fun l => position l = None) layers.
Proof.
  induction layers as [|l layers IH]; intros i.
  - split; [constructor|reflexivity].
  - cbn [findPosition]. destruct (position l) as [index|] eqn:E.
    + split; [discriminate|]. intros H. inversion H; subst. congruence.
    + rewrite IH. split.
      * intros H. constructor; assumption.
      * intros H. inversion H; assumption.
Qed.

Lemma insertAt_take_drop {A} (x : A) l : forall k,
  insertAt k x l =
  take (Nat.min k (length l)) l ++ x :: drop (Nat.min k (length l)) l.
Proof.
  induction l as [|y l IH]; intros k.
  - destruct k; reflexivity.
  - destruct k as [|k]; [reflexivity|].
    cbn [insertAt length Nat.min take drop app]. rewrite IH. reflexivity.
Qed.

Lemma findPosition_Some position layers : forall i found,
  findPosition position i layers = Some found -> layers <> [].
Proof. intros i found H ->. discriminate. Qed.

(** X12.  [spliceRouter] takes the last layer off the stack and either
    puts it back among the other layers, which keep their order (behind the
    first of them at least, and possibly at the end again), handing back a
    disposable for it; or it hands back the null disposable and leaves the
    layer out of the application.  It leaves it out exactly when none of
    the layers but the last two has a position: the loop stops one short, so
    the layer just ahead of the new one is never asked. *)
Theorem spliceRouter_reinserts_or_drops (stack : list ExpressLayer)
        (position : ExpressLayer -> option nat) :
  (snd (spliceRouter stack position) = None <->
   Forall (fun l => position l = None) (take (length stack - 2) stack)) /\
  match snd (spliceRouter stack position) with
  | Some ref =>
      exists router k,
        last stack = Some router /\ layer_ref router = ref /\
        (1 <= k <= length (List.removelast stack))%nat /\
        fst (spliceRouter stack position) =
          take k (List.removelast stack) ++ router :: drop k (List.removelast stack)
  | None => fst (spliceRouter stack position) = List.removelast stack
  end.
Proof.
  destruct stack as [|l0 stack0] using rev_ind.
  - split; [|reflexivity]. split; [constructor|reflexivity].
  - clear IHstack0. rename stack0 into init, l0 into router.
    unfold spliceRouter. rewrite last_snoc, removeAt_last, removelast_last.
    assert (Htake : take (length (init ++ [router]) - 2) (init ++ [router]) =
                    List.firstn (length init - 1) init).
    { rewrite length_app. cbn [length].
      replace (length init + 1 - 2)%nat with (length init - 1)%nat by lia.
      apply take_app_le. lia. }
    rewrite Htake, <- (findPosition_None_iff position _ 0).
    destruct (findPosition position 0 (List.firstn (length init - 1) init))
      as [[i index]|] eqn:Hfound.
    + cbn [fst snd]. split; [split; discriminate|].
      exists router, (Nat.min (i + index + 1) (length init)).
      split; [reflexivity|]. split; [reflexivity|]. split.
      * apply findPosition_Some in Hfound.
        destruct init as [|y init]; [exfalso; apply Hfound; reflexivity|].
        cbn [length]. lia.
      * apply insertAt_take_drop.
    + cbn [fst snd]. split; [split; reflexivity|]. reflexivity.
Qed.

Lemma indexOf_None ref stack : indexOf ref stack = None <-> ref ∉ map layer_ref stack.
Proof.
  induction stack as [|l stack IH].
  - split; [intros _; apply not_elem_of_nil|reflexivity].
  - cbn [indexOf map]. rewrite not_elem_of_cons. destruct (Nat.eqb (layer_ref l) ref) eqn:E.
    + apply Nat.eqb_eq in E. split; [discriminate|]. intros [H _]. congruence.
    + apply Nat.eqb_neq in E. destruct (indexOf ref stack) as [i|]; cbn [option_map].
      * split; [discriminate|]. intros [_ H]. apply IH in H. discriminate.
      * split; [|reflexivity]. intros _. split; [congruence|]. apply IH. reflexivity.
Qed.

Lemma removeAt_indexOf ref stack : forall i,
  NoDup (map layer_ref stack) -> indexOf ref stack = Some i ->
  ref ∉ map layer_ref (removeAt i stack).
Proof.
  induction stack as [|l stack IH]; intros i Hnodup Hi; [discriminate|].
  cbn [map] in Hnodup. apply NoDup_cons in Hnodup as [Hl Hnodup].
  cbn [indexOf] in Hi. destruct (Nat.eqb (layer_ref l) ref) eqn:E.
  - apply Nat.eqb_eq in E. injection Hi as <-. cbn [removeAt]. congruence.
  - apply Nat.eqb_neq in E. destruct (indexOf ref stack) as [j|] eqn:Hj; [|discriminate].
    injection Hi as <-. cbn [removeAt map]. apply not_elem_of_cons. split; [congruence|].
    apply IH; [exact Hnodup|reflexivity].
Qed.

Lemma removeAt_end {A} (l : list A) : removeAt (length l - 1) l = List.removelast l.
Proof.
  destruct l as [|x l] using rev_ind; [reflexivity|].
  rewrite removeAt_last, removelast_last. reflexivity.
Qed.

Lemma removelast_refs ref (stack : list ExpressLayer) :
  ref ∉ map layer_ref stack -> ref ∉ map layer_ref (List.removelast stack).
Proof.
  destruct stack as [|x l] using rev_ind; [intros H; exact H|].
  rewrite removelast_last, map_app. intros H Hin. apply H, elem_of_app. left. exact Hin.
Qed.

(** X13.  The disposable of [spliceRouter] is not safe to run twice: when
    the layers of the stack are distinct objects, the second run no longer
    finds its router and removes the last layer of the stack instead,
    whichever layer that is. *)
Theorem disposeRouter_twice_removes_last (ref : nat) (stack : list ExpressLayer) :
  NoDup (map layer_ref stack) ->
  disposeRouter (Some ref) (disposeRouter (Some ref) stack) =
  List.removelast (disposeRouter (Some ref) stack).
Proof.
  intros Hnodup.
  assert (Hgone : ref ∉ map layer_ref (disposeRouter (Some ref) stack)).
  { unfold disposeRouter. destruct (indexOf ref stack) as [i|] eqn:Hi.
    - apply removeAt_indexOf; assumption.
    - rewrite removeAt_end. apply removelast_refs, indexOf_None, Hi. }
  apply indexOf_None in Hgone.
  unfold disposeRouter at 1. rewrite Hgone. apply removeAt_end.
Qed.

Lemma disposeRouter_twice_removes_last_witness :
  disposeRouter (Some 5) (disposeRouter (Some 5) (routerStack oneSession)) =
  List.removelast (disposeRouter (Some 5) (routerStack oneSession)).
Proof.
  apply (disposeRouter_twice_removes_last 5 (routerStack oneSession)).
  vm_compute. repeat constructor; intros H; repeat (apply elem_of_cons in H as [H|H]; [discriminate|]);
    apply elem_of_nil in H; exact H.
Defined.

(** Taking a freshly inserted layer out again by its reference leaves the
    stack as it was. *)
Lemma indexOf_insertAt (router : ExpressLayer) (stack : list ExpressLayer) : forall k,
  Forall (fun l => layer_ref l <> layer_ref router) stack ->
  exists i, indexOf (layer_ref router) (insertAt k router stack) = Some i /\
            removeAt i (insertAt k router stack) = stack.
Proof.
  induction stack as [|l stack IH]; intros k Hfresh.
  - exists O. destruct k; cbn [insertAt indexOf]; rewrite Nat.eqb_refl; split; reflexivity.
  - destruct k as [|k].
    + exists O. cbn [insertAt indexOf]. rewrite Nat.eqb_refl. split; reflexivity.
    + inversion Hfresh as [|? ? Hl Hrest]; subst.
      destruct (IH k Hrest) as (i & Hi & Hremove).
      exists (S i). cbn [insertAt indexOf]. apply Nat.eqb_neq in Hl. rewrite Hl, Hi.
      split; [reflexivity|]. cbn [removeAt]. rewrite Hremove. reflexivity.
Qed.

Lemma spliceRouter_undone (stack : list ExpressLayer) (router : ExpressLayer)
      (position : ExpressLayer -> option nat) :
  Forall (fun l => layer_ref l <> layer_ref router) stack ->
  disposeRouter (snd (spliceRouter (stack ++ [router]) position))
                (fst (spliceRouter (stack ++ [router]) position)) = stack.
Proof.
  intros Hfresh. unfold spliceRouter. rewrite last_snoc, removeAt_last.
  destruct (findPosition position 0 (List.firstn (length stack - 1) stack)) as [[i index]|].
  - cbn [fst snd disposeRouter].
    destruct (indexOf_insertAt router stack (i + index + 1) Hfresh) as (j & Hj & Hremove).
    rewrite Hj. exact Hremove.
  - reflexivity.
Qed.

(** X14.  A session that is established and then disconnects leaves no
    trace in the backend: whatever the application and wherever
    [spliceRouter] put the proxy layer (or lost it), the router stack, the
    connection registry, the open servers and the listeners are what they
    were before; only the counter of layer objects has moved on. *)
Theorem disconnect_undoes_establish (b : Backend) (remote : RemoteConnection) (port : N) :
  Forall (fun l => (layer_ref l < nextRef b)%nat) (routerStack b) ->
  listeners b !! remote_id remote = None ->
  connections b !! remote_id remote = None ->
  port ∉ servers b ->
  fireDisconnect (remote_id remote) (establishConnection remote port b) =
  mkBackend (routerStack b) (S (nextRef b)) (connections b) (servers b) (listeners b).
Proof.
  intros Hfresh Hlistener Hconnection Hport.
  unfold establishConnection, register, getProxyServer, setupProxyRouter, pushLayer.
  cbn [routerStack nextRef connections servers listeners].
  set (router := mkLayer (nextRef b) "handleProxy" (HandleProxy remote port)).
  pose proof (spliceRouter_undone (routerStack b) router (behindServeStatic 1)) as Hundone.
  destruct (spliceRouter (routerStack b ++ [router]) (behindServeStatic 1)) as [stack d].
  cbn [fst snd] in Hundone.
  unfold fireDisconnect, setStack. cbn [routerStack nextRef connections servers listeners].
  rewrite lookup_insert_eq.
  unfold onDidDisconnect, closeServer, setStack, disposeRegistration.
  cbn [routerStack nextRef connections servers listeners l_server l_proxyRouter l_registration].
  rewrite Hundone.
  - f_equal.
    + rewrite delete_insert_eq. apply delete_id, Hconnection.
    + apply leibniz_equiv. intros p. rewrite elem_of_difference, elem_of_union, !elem_of_singleton.
      split; [intros [[->|H] Hne]; [congruence|exact H]|].
      intros H. split; [right; exact H|]. intros ->. contradiction.
    + rewrite delete_insert_eq. apply delete_id, Hlistener.
  - eapply Forall_impl; [exact Hfresh|]. cbn. intros l Hl. subst router. cbn [layer_ref]. lia.
Qed.

Lemma disconnect_undoes_establish_witness :
  fireDisconnect "s2" (establishConnection secondRemote 40002 oneSession) =
  mkBackend (routerStack oneSession) (S (nextRef oneSession)) (connections oneSession)
            (servers oneSession) (listeners oneSession).
Proof.
  apply (disconnect_undoes_establish oneSession secondRemote 40002%N).
  - vm_compute. repeat constructor.
  - reflexivity.
  - reflexivity.
  - intros H. apply elem_of_union in H as [H|H].
    + apply elem_of_singleton in H. discriminate.
    + apply elem_of_empty in H. exact H.
Defined.

(** X15.  [isConnectionAlive] tells of a session id exactly whether the
    session is live: on every backend that arises, it answers true for the
    ids of the sessions that were established and have not disconnected,
    each of which has its proxy server open, and false for every other id. *)
Theorem isConnectionAlive_iff_live (names : list string) (b : Backend) (remoteId : string) :
  reachable names b ->
  isConnectionAlive remoteId b = true <->
  exists remote port, remote_id remote = remoteId /\ live b remote port /\ port ∈ servers b.
Proof.
  intros Hreach.
  assert (Hbook : exists installed sessions,
             Book (connections b) (servers b) (listeners b) installed sessions).
  { destruct (servesStatic names) eqn:Hstatic.
    - destruct (reachable_shaped names b Hstatic Hreach) as (sessions & pre & static & status & post & Hb).
      exists true, sessions. apply (sh_book _ _ _ _ _ _ Hb).
    - destruct (reachable_flat names b Hstatic Hreach) as (sessions & Hb).
      exists false, sessions. apply (fl_book _ _ _ Hb). }
  destruct Hbook as (installed & sessions & Hb).
  unfold isConnectionAlive. split.
  - destruct (connections b !! remoteId) as [remote|] eqn:Hconn; [intros _|discriminate].
    apply (bk_connections _ _ _ _ _ Hb) in Hconn as (s & Hs & Hid & Hremote).
    exists (s_remote s), (s_port s). split; [exact Hid|]. split.
    + apply (book_live b installed sessions); [exact Hb|]. exists s. repeat split. exact Hs.
    + apply (bk_servers _ _ _ _ _ Hb). exists s. split; [exact Hs|reflexivity].
  - intros (remote & port & <- & (l & _ & _ & Hconn) & _). rewrite Hconn. reflexivity.
Qed.

Lemma isConnectionAlive_iff_live_witness :
  isConnectionAlive "s1" twoSessions = true <->
  exists remote port, remote_id remote = "s1" /\ live twoSessions remote port /\
                      port ∈ servers twoSessions.
Proof. apply (isConnectionAlive_iff_live exampleApp twoSessions "s1" twoSessions_reachable). Defined.

(** ** The other budgets of the authentication handler *)

Lemma keysKept_refl s : keysKept 0 s s.
Proof. repeat split. lia. Qed.

Lemma keysKept_trans n m s1 s2 s3 :
  keysKept n s1 s2 -> keysKept m s2 s3 -> keysKept (n + m) s1 s3.
Proof. intros (H1 & H2 & H3) (H4 & H5 & H6). repeat split; try congruence. lia. Qed.

Lemma keysKept_weaken n m s s' : (n <= m)%nat -> keysKept n s s' -> keysKept m s s'.
Proof. intros Hnm (H1 & H2 & H3). repeat split; try assumption. lia. Qed.

Lemma input_keysKept q s :
  keysKept (if isPassphraseQuestion q then 1 else 0) s (snd (input q s)).
Proof.
  unfold input, keysKept, passphrasePrompts. destruct s as [pw kb keys ans qs]. cbn [answers].
  destruct ans as [|a rest]; cbn [snd identityKeys keyboardRetryCount asked];
    rewrite List.filter_app, length_app; cbn [List.filter];
    destruct (isPassphraseQuestion q); cbn [length]; repeat split; lia.
Qed.

Lemma passphraseLoop_keysKept store file keyBuffer count : forall result s,
  keysKept count s (snd (passphraseLoop store file keyBuffer count result s)).
Proof.
  induction count as [|count IH]; intros result s; cbn [passphraseLoop].
  - apply keysKept_refl.
  - destruct (isError result); [|apply (keysKept_weaken 0); [lia|apply keysKept_refl]].
    pose proof (input_keysKept (AskPassphrase ("Enter passphrase for " +:+ file)) s) as Hin.
    cbn [isPassphraseQuestion] in Hin.
    destruct (input (AskPassphrase ("Enter passphrase for " +:+ file)) s) as [[p|] s1];
      cbn [snd] in Hin |- *.
    + destruct (truthy p).
      * apply (keysKept_trans 1 count _ _ _ Hin), IH.
      * apply (keysKept_weaken 1); [lia|exact Hin].
    + apply (keysKept_weaken 1); [lia|exact Hin].
Qed.

(** The public-key branch answers with a key or with [NEXT_AUTH], and shows
    the passphrase box at most three times. *)
Lemma tryIdentityKey_keysKept store user key s :
  keysKept 3 s (snd (tryIdentityKey store user key s)) /\
  isKeyReply (Decision (fst (tryIdentityKey store user key s))) = true.
Proof.
  unfold tryIdentityKey.
  destruct (isPrivate key).
  { split; [apply (keysKept_weaken 0); [lia|apply keysKept_refl]|reflexivity]. }
  destruct (negb (pathExists store (filename key))).
  { split; [apply (keysKept_weaken 0); [lia|apply keysKept_refl]|reflexivity]. }
  set (keyBuffer := readFile store (filename key)).
  assert (Hrefl : keysKept 3 s s) by (apply (keysKept_weaken 0); [lia|apply keysKept_refl]).
  destruct (parseKey store keyBuffer None) as [k|ks|message].
  - split; [exact Hrefl|reflexivity].
  - split; [exact Hrefl|reflexivity].
  - destruct (String.eqb message encryptedKeyMessage).
    + pose proof (passphraseLoop_keysKept store (filename key) keyBuffer
                    (Z.to_nat passphraseRetryCount_default) (ParseError message) s) as Hloop.
      destruct (passphraseLoop store (filename key) keyBuffer
                  (Z.to_nat passphraseRetryCount_default) (ParseError message) s)
        as [[k|ks|m] s1]; cbn [fst snd] in *; (split; [exact Hloop|reflexivity]).
    + split; [exact Hrefl|reflexivity].
Qed.

(** The loop of the [prompt] function leaves the keyboard budget alone when
    every prompt was answered, and zeroes it otherwise. *)
Lemma promptLoop_budget user host prompts : forall responses s,
  let run := promptLoop user host prompts responses s in
  identityKeys (snd run) = identityKeys s /\
  passphrasePrompts (snd run) = passphrasePrompts s /\
  ((keyboardRetryCount (snd run) = keyboardRetryCount s /\
    length (fst run) = (length responses + length prompts)%nat) \/
   (keyboardRetryCount (snd run) = 0%Z /\
    (length (fst run) < length responses + length prompts)%nat)).
Proof.
  induction prompts as [|p prompts IH]; intros responses s; cbn [promptLoop].
  - cbn [fst snd length]. repeat split. left. split; [reflexivity|lia].
  - set (q := AskKeyboard ("(" +:+ user +:+ "@" +:+ host +:+ ") " +:+ prompt_text p)
                          (negb (prompt_echo p))).
    pose proof (input_keysKept q s) as (Hk & Hb & Hp). cbn [isPassphraseQuestion q] in Hp.
    assert (Hp' : passphrasePrompts (snd (input q s)) = passphrasePrompts s).
    { unfold input, passphrasePrompts. destruct s as [pw kb keys ans qs]. cbn [answers].
      destruct ans as [|a rest]; cbn [snd asked]; rewrite List.filter_app, length_app;
        cbn [List.filter isPassphraseQuestion q length]; lia. }
    destruct (input q s) as [[r|] s1]; cbn [snd] in Hk, Hb, Hp'.
    + specialize (IH (responses ++ [r]) s1). cbn zeta in IH.
      destruct IH as (IHk & IHp & IHb). rewrite length_app in IHb. cbn [length] in IHb |- *.
      split; [congruence|]. split; [congruence|].
      destruct IHb as [[H1 H2]|[H1 H2]]; [left|right]; (split; [congruence|lia]).
    + cbn [fst snd identityKeys keyboardRetryCount length].
      split; [exact Hk|]. split; [exact Hp'|]. right. split; [reflexivity|lia].
Qed.

(** One call: what it does to the identity keys, to the passphrase prompts
    and to the keyboard budget. *)
Lemma authStep_keys store user host c s :
  let run := authStep store user host c s in
  ((if isKeyReply (fst run) then 1 else 0) + length (identityKeys (snd run)) =
   length (identityKeys s))%nat /\
  (passphrasePrompts (snd run) <=
   passphrasePrompts s + (if isKeyReply (fst run) then 3 else 0))%nat /\
  (keyboardRetryCount (snd run) <=
   Z.max (keyboardRetryCount s) 0 - (if isPrompt c then 1 else 0))%Z.
Proof.
  destruct c as [[methods|]|prompts]; cbn [authStep isPrompt].
  - unfold authHandler.
    destruct (if offers methods "publickey" then identityKeys s else []) as [|key rest] eqn:Hkeys.
    + destruct (offers methods "password" && (0 <? passwordRetryCount s)%Z).
      * set (q := AskPassword ("Enter password for " +:+ user +:+ "@" +:+ host)).
        pose proof (input_keysKept q s) as (Hk & Hb & Hp). cbn [isPassphraseQuestion q] in Hp.
        destruct (input q s) as [password s1]. cbn [snd] in Hk, Hb, Hp.
        destruct password as [p|]; [destruct (truthy p)|];
          cbn [fst snd isKeyReply identityKeys keyboardRetryCount];
          unfold passphrasePrompts in *; cbn [asked];
          (split; [rewrite Hk; reflexivity|]; split; lia).
      * destruct (offers methods "keyboard-interactive" && (0 <? keyboardRetryCount s)%Z);
          cbn [fst snd isKeyReply]; (split; [reflexivity|]; split; lia).
    + assert (Hs : identityKeys s = key :: rest).
      { destruct (offers methods "publickey"); [exact Hkeys|discriminate]. }
      set (s0 := mkAuth (passwordRetryCount s) (keyboardRetryCount s) rest (answers s) (asked s)).
      pose proof (tryIdentityKey_keysKept store user key s0) as [(Hk & Hb & Hp) Hd].
      destruct (tryIdentityKey store user key s0) as [d s1]. cbn [fst snd] in *.
      rewrite Hd, Hk, Hb, Hs. unfold passphrasePrompts in *. subst s0.
      cbn [identityKeys keyboardRetryCount asked length] in Hp |- *.
      split; [reflexivity|]. split; [exact Hp|lia].
  - cbn [authHandler fst snd isKeyReply]. split; [reflexivity|]. split; lia.
  - unfold keyboardPrompt.
    pose proof (promptLoop_budget user host prompts [] s) as (Hk & Hp & Hb). cbn zeta in *.
    destruct (promptLoop user host prompts [] s) as [responses s1]. cbn [fst snd] in *.
    cbn [isKeyReply identityKeys keyboardRetryCount].
    split; [rewrite Hk; reflexivity|]. split.
    + unfold passphrasePrompts in *. cbn [asked]. lia.
    + destruct Hb as [[H _]|[H _]]; lia.
Qed.

Lemma authRun_keys store user host cs : forall s,
  let run := authRun store user host cs s in
  (keyAttempts (fst run) + length (identityKeys (snd run)) = length (identityKeys s))%nat /\
  (passphrasePrompts (snd run) <= passphrasePrompts s + 3 * keyAttempts (fst run))%nat /\
  (keyboardRetryCount (snd run) <=
   Z.max (keyboardRetryCount s - Z.of_nat (promptRounds cs)) 0)%Z.
Proof.
  induction cs as [|c cs IH]; intros s; cbn [authRun].
  - cbn [fst snd]. unfold keyAttempts, promptRounds. cbn [List.filter length]. repeat split; lia.
  - pose proof (authStep_keys store user host c s) as (Hk & Hp & Hb). cbn zeta in Hk, Hp, Hb.
    destruct (authStep store user host c s) as [reply s1]. cbn [fst snd] in Hk, Hp, Hb.
    specialize (IH s1). cbn zeta in IH. destruct IH as (IHk & IHp & IHb).
    destruct (authRun store user host cs s1) as [replies s2]. cbn [fst snd] in *.
    unfold keyAttempts, promptRounds in *. cbn [List.filter].
    destruct (isKeyReply reply), (isPrompt c); cbn [length]; repeat split; lia.
Qed.

(** X16.  During one connection attempt every identity key is tried at
    most once: each call that takes the public-key branch uses up one key,
    so the keys submitted or skipped are exactly the keys no longer held,
    and the passphrase box is shown at most three times per key tried. *)
Theorem identity_keys_tried_once (store : KeyStore) (user host : string)
        (identityKeys0 : list SSHKey) (answers0 : list (option string)) (cs : list AuthCall) :
  let run := authRun store user host cs (getAuthHandler identityKeys0 answers0) in
  (keyAttempts (fst run) + length (identityKeys (snd run)) = length identityKeys0)%nat /\
  (passphrasePrompts (snd run) <= 3 * keyAttempts (fst run))%nat.
Proof.
  intros run. subst run.
  pose proof (authRun_keys store user host cs (getAuthHandler identityKeys0 answers0))
    as (Hk & Hp & _). cbn zeta in Hk, Hp. split; [exact Hk|exact Hp].
Qed.

(** The keyboard-interactive method is offered only on a positive budget. *)
Lemma keyboard_offer_needs_budget store user host methodsLeft s u :
  fst (authHandler store user host methodsLeft s) = AuthKeyboardInteractive u ->
  (0 < keyboardRetryCount s)%Z.
Proof.
  destruct methodsLeft as [methods|]; [|discriminate]. unfold authHandler.
  destruct (if offers methods "publickey" then identityKeys s else []) as [|key rest].
  - destruct (offers methods "password" && (0 <? passwordRetryCount s)%Z).
    + destruct (input _ s) as [[p|] s1]; [destruct (truthy p)|]; discriminate.
    + destruct (offers methods "keyboard-interactive" && (0 <? keyboardRetryCount s)%Z) eqn:E;
        [|discriminate].
      intros _. apply andb_prop in E as [_ E]. apply Z.ltb_lt, E.
  - intros H.
    pose proof (tryIdentityKey_keysKept store user key
                  (mkAuth (passwordRetryCount s) (keyboardRetryCount s) rest (answers s) (asked s)))
      as [_ Hd].
    rewrite H in Hd. discriminate.
Qed.

(** X17.  The keyboard-interactive method has a budget of three rounds:
    once the [prompt] function has run three times during a connection
    attempt, the handler never answers with keyboard-interactive again,
    whatever methods the server still offers. *)
Theorem keyboard_interactive_three_rounds (store : KeyStore) (user host : string)
        (identityKeys0 : list SSHKey) (answers0 : list (option string)) (cs : list AuthCall)
        (methodsLeft : option (list string)) (u : string) :
  (3 <= promptRounds cs)%nat ->
  fst (authHandler store user host methodsLeft
         (snd (authRun store user host cs (getAuthHandler identityKeys0 answers0)))) <>
  AuthKeyboardInteractive u.
Proof.
  intros Hrounds Hoffer. apply keyboard_offer_needs_budget in Hoffer.
  pose proof (authRun_keys store user host cs (getAuthHandler identityKeys0 answers0))
    as (_ & _ & Hb). cbn zeta in Hb.
  unfold getAuthHandler in Hb at 2. cbn [keyboardRetryCount] in Hb.
  unfold passphraseRetryCount_default in Hb. lia.
Qed.

Lemma keyboard_interactive_three_rounds_witness :
  fst (authHandler noKeyFiles "user" "host" (Some ["keyboard-interactive"])
         (snd (authRun noKeyFiles "user" "host" threeCodeRounds
                 (getAuthHandler [] [Some "111111"; Some "222222"; Some "333333"])))) <>
  AuthKeyboardInteractive "user".
Proof.
  apply (keyboard_interactive_three_rounds noKeyFiles "user" "host" []
           [Some "111111"; Some "222222"; Some "333333"] threeCodeRounds
           (Some ["keyboard-interactive"]) "user").
  vm_compute. lia.
Defined.

(** X18.  Dismissing a keyboard-interactive input ends the method for the
    rest of the connection attempt: after a round that handed back fewer
    responses than there were prompts, the handler never answers with
    keyboard-interactive again. *)
Theorem keyboard_dismissal_is_final (store : KeyStore) (user host : string) (s : AuthState)
        (prompts : list KeyboardPrompt) (cs : list AuthCall)
        (methodsLeft : option (list string)) (u : string) :
  (length (fst (keyboardPrompt user host prompts s)) < length prompts)%nat ->
  fst (authHandler store user host methodsLeft
         (snd (authRun store user host cs (snd (keyboardPrompt user host prompts s))))) <>
  AuthKeyboardInteractive u.
Proof.
  intros Hfewer Hoffer. apply keyboard_offer_needs_budget in Hoffer.
  pose proof (authRun_keys store user host cs (snd (keyboardPrompt user host prompts s)))
    as (_ & _ & Hb). cbn zeta in Hb.
  assert (Hzero : keyboardRetryCount (snd (keyboardPrompt user host prompts s)) = (-1)%Z).
  { unfold keyboardPrompt in Hfewer |- *.
    pose proof (promptLoop_budget user host prompts [] s) as (_ & _ & Hloop). cbn zeta in Hloop.
    destruct (promptLoop user host prompts [] s) as [responses s1].
    cbn [fst snd keyboardRetryCount length] in *.
    destruct Hloop as [[_ H]|[H _]]; lia. }
  rewrite Hzero in Hb. lia.
Qed.

Lemma keyboard_dismissal_is_final_witness :
  fst (authHandler noKeyFiles "user" "host" (Some ["keyboard-interactive"])
         (snd (authRun noKeyFiles "user" "host" [Invoke (Some ["publickey"; "keyboard-interactive"])]
                 (snd (keyboardPrompt "user" "host" [codePrompt]
                         (getAuthHandler [] [None])))))) <>
  AuthKeyboardInteractive "user".
Proof.
  apply (keyboard_dismissal_is_final noKeyFiles "user" "host" (getAuthHandler [] [None])
           [codePrompt] [Invoke (Some ["publickey"; "keyboard-interactive"])]
           (Some ["keyboard-interactive"]) "user").
  vm_compute. lia.
Defined.

(** ** What [setup] does on any host *)

Lemma countEvents_app p l1 l2 : countEvents p (l1 ++ l2) = (countEvents p l1 + countEvents p l2)%nat.
Proof. unfold countEvents. rewrite List.filter_app, length_app. reflexivity. Qed.

Lemma countEvents_cons p e l :
  countEvents p (e :: l) = ((if p e then 1 else 0) + countEvents p l)%nat.
Proof. unfold countEvents. cbn [List.filter]. destruct (p e); reflexivity. Qed.

Lemma tidy_refl {W} (st : St W) d c : tidy d c st st.
Proof.
  split; [reflexivity|]. exists []. rewrite app_nil_r. unfold countEvents. cbn.
  repeat split; lia.
Qed.

Lemma tidy_trans {W} (st1 st2 st3 : St W) d1 c1 d2 c2 d c :
  tidy d1 c1 st1 st2 -> tidy d2 c2 st2 st3 -> (d1 + d2 <= d)%nat -> (c1 + c2 <= c)%nat ->
  tidy d c st1 st3.
Proof.
  intros (P1 & e1 & T1 & D1 & C1 & X1) (P2 & e2 & T2 & D2 & C2 & X2) Hd Hc.
  split; [congruence|]. exists (e1 ++ e2). rewrite !countEvents_app.
  split; [rewrite T2, T1, <- app_assoc; reflexivity|]. repeat split; lia.
Qed.

Lemma tidy_bind {W A B} (c : M W A) (k : A -> M W B) st d1 c1 d2 c2 d' c' :
  tidy d1 c1 st (snd (c st)) ->
  (forall a, fst (c st) = Resolved a -> tidy d2 c2 (snd (c st)) (snd (k a (snd (c st))))) ->
  (d1 + d2 <= d')%nat -> (c1 + c2 <= c')%nat ->
  tidy d' c' st (snd (bind c k st)).
Proof.
  intros Hc Hk Hd Hcc. rewrite bind_run. destruct (fst (c st)) as [a|err|] eqn:Ho.
  - eapply tidy_trans; [exact Hc|apply Hk; reflexivity|exact Hd|exact Hcc].
  - eapply tidy_trans; [exact Hc|apply (tidy_refl _ 0 0)|lia|lia].
  - eapply tidy_trans; [exact Hc|apply (tidy_refl _ 0 0)|lia|lia].
Qed.

Lemma tidy_of_grows {W} (st st' : St W) :
  grows st st' -> remotePort st' = remotePort st -> tidy 0 0 st st'.
Proof.
  intros (events & Ht & Hh) Hp. split; [exact Hp|]. exists events. split; [exact Ht|].
  destruct (harmless_counts events Hh) as (H1 & H2 & H3). rewrite H1, H2, H3. repeat split; lia.
Qed.

(** One call to the outside that leaves one event. *)
Lemma tidy_emit {W} (st : St W) (w : W) e :
  isExtraction e = false ->
  tidy (if isDownload e then 1 else 0) (if isCopy e then 1 else 0) st (setWorld w (emit e st)).
Proof.
  intros He. split; [reflexivity|]. exists [e]. split; [reflexivity|].
  rewrite !countEvents_cons, He. unfold countEvents. cbn [List.filter length].
  destruct (isDownload e), (isCopy e); repeat split; lia.
Qed.

Lemma tidy_retry_exec {W} (host : Host W) cmd st :
  String.prefix "tar -xf" cmd = false ->
  tidy 0 0 st (snd (retry (exec host cmd []) retry_times st)).
Proof.
  intros Hcmd. apply tidy_of_grows; [apply grows_retry_exec, Hcmd|].
  unfold retry.
  destruct (retry_exec_trace host cmd (Z.to_nat retry_times) emptyResult st) as (k & _ & _ & _ & Hp).
  exact Hp.
Qed.

Lemma tidy_detectRemotePlatform {W} (host : Host W) st :
  tidy 0 0 st (snd (detectRemotePlatform host st)).
Proof.
  unfold detectRemotePlatform. apply (tidy_bind _ _ _ 0 0 0 0); [| |lia|lia].
  - apply tidy_retry_exec. reflexivity.
  - intros r _. destruct (platformOf r); apply tidy_refl.
Qed.

Lemma tidy_getRemoteHomeDirectory {W} (host : Host W) platform st :
  tidy 0 0 st (snd (getRemoteHomeDirectory host platform st)).
Proof.
  unfold getRemoteHomeDirectory. destruct platform.
  - apply (tidy_bind _ _ _ 0 0 0 0); [apply tidy_retry_exec; reflexivity| |lia|lia].
    intros r _. destruct (String.eqb (stdout r) "$HOME"); [|apply tidy_refl].
    apply (tidy_bind _ _ _ 0 0 0 0); [apply tidy_retry_exec; reflexivity| |lia|lia].
    intros; apply tidy_refl.
  - apply (tidy_bind _ _ _ 0 0 0 0); [apply tidy_retry_exec; reflexivity| |lia|lia].
    intros; apply tidy_refl.
  - apply (tidy_bind _ _ _ 0 0 0 0); [apply tidy_retry_exec; reflexivity| |lia|lia].
    intros; apply tidy_refl.
Qed.

Lemma tidy_mkdirRemote {W} (host : Host W) platform remotePath st :
  tidy 0 0 st (snd (mkdirRemote host platform remotePath st)).
Proof.
  unfold mkdirRemote. apply (tidy_bind _ _ _ 0 0 0 0); [| |lia|lia].
  - apply tidy_retry_exec. destruct platform; reflexivity.
  - intros r _. destruct (truthy (stderr r)); apply tidy_refl.
Qed.

Lemma tidy_dirExistsRemote {W} (host : Host W) remotePath st :
  tidy 0 0 st (snd (dirExistsRemote host remotePath st)).
Proof.
  unfold dirExistsRemote. apply (tidy_bind _ _ _ 0 0 0 0); [| |lia|lia].
  - apply tidy_retry_exec. reflexivity.
  - intros; apply tidy_refl.
Qed.

Lemma tidy_report {W} (st : St W) message : tidy 0 0 st (snd (report message st)).
Proof. apply tidy_of_grows; [apply grows_report|reflexivity]. Qed.

Lemma tidy_startApplication {W} (host : Host W) platform remotePath nodeDir st :
  tidy 0 0 st (snd (startApplication host platform remotePath nodeDir st)).
Proof.
  apply tidy_of_grows; [apply grows_startApplication|].
  unfold startApplication. rewrite bind_run. unfold execPartial.
  destruct (client_exec host _ (world st)) as [[err|events] w]; cbn [fst snd]; [reflexivity|].
  destruct (settled _) as [r| |]; [|reflexivity|reflexivity].
  destruct (localAddressRegex_exec (stdout r)); reflexivity.
Qed.

Lemma tidy_downloadNode {W} (host : Host W) fileName st :
  tidy 1 0 st (snd (downloadNode host fileName st)).
Proof.
  unfold downloadNode. cbn zeta.
  set (localPath := path_join host (os_tmpdir host) fileName).
  apply (tidy_bind _ _ _ 0 0 1 0); [| |lia|lia].
  - destruct (fs_pathExists host localPath (world st)) as [b w]. cbn [snd].
    apply (tidy_emit st w (EvPathExists localPath)). reflexivity.
  - intros present _. destruct (negb present); [|apply tidy_refl].
    set (downloadPath := "https://nodejs.org/dist/v" +:+ REMOTE_NODE_VERSION +:+ "/" +:+ fileName).
    set (st1 := snd _).
    apply (tidy_bind _ _ _ 1 0 0 0); [| |lia|lia].
    + destruct (request host downloadPath (world st1)) as [r w]. cbn [snd].
      apply (tidy_emit st1 w (EvRequest downloadPath)). reflexivity.
    + intros buffer _. set (st2 := snd _).
      apply (tidy_bind _ _ _ 0 0 0 0); [| |lia|lia].
      * destruct (fs_writeFile host localPath buffer (world st2)) as [[err|] w]; cbn [snd];
          apply (tidy_emit st2 w (EvWriteFile localPath)); reflexivity.
      * intros; apply tidy_refl.
Qed.

Lemma unzipRemote_state {W} (host : Host W) remoteFile remoteDirectory st :
  snd (unzipRemote host remoteFile remoteDirectory st) =
  snd (exec host "tar -xf" [remoteFile; "-C"; remoteDirectory] st).
Proof.
  unfold unzipRemote. rewrite bind_run.
  destruct (fst (exec host "tar -xf" [remoteFile; "-C"; remoteDirectory] st)) as [r|err|];
    [|reflexivity|reflexivity].
  destruct (truthy (stderr r)); reflexivity.
Qed.

(** A copy, and the extraction of what was copied. *)
Lemma tidy_copy_then_unzip {W} (host : Host W) (c : M W unit) remoteFile remoteDirectory st :
  (exists e, isCopy e = true /\ isDownload e = false /\ isExtraction e = false /\
             trace (snd (c st)) = trace st ++ [e] /\ remotePort (snd (c st)) = remotePort st) ->
  tidy 0 1 st (snd (bind c (fun _ => unzipRemote host remoteFile remoteDirectory) st)).
Proof.
  intros (e & Hcopy & Hdown & Hextr & Htrace & Hport). rewrite bind_run.
  assert (Hone : tidy 0 1 st (snd (c st)) /\
                 forall st', remotePort st' = remotePort (snd (c st)) ->
                             forall e', trace st' = trace (snd (c st)) ++ [e'] ->
                                        isDownload e' = false -> isCopy e' = false ->
                                        tidy 0 1 st st').
  { split.
    - split; [exact Hport|]. exists [e]. split; [exact Htrace|].
      rewrite !countEvents_cons, Hcopy, Hdown, Hextr. unfold countEvents. cbn. repeat split; lia.
    - intros st' Hp e' Ht Hd Hc. split; [congruence|]. exists [e; e']. split.
      + rewrite Ht, Htrace, <- app_assoc. reflexivity.
      + rewrite !countEvents_cons, Hcopy, Hdown, Hextr, Hd, Hc. unfold countEvents. cbn.
        destruct (isExtraction e'); repeat split; lia. }
  destruct Hone as [Hfirst Hboth].
  destruct (fst (c st)) as [[]|err|]; [|exact Hfirst|exact Hfirst].
  rewrite unzipRemote_state, exec_trace.
  apply Hboth with (e' := EvExec (buildCmd "tar -xf" [remoteFile; "-C"; remoteDirectory]));
    reflexivity.
Qed.

Lemma tidyRun_of_tidy {W A} d c (st : St W) (run : Outcome A * St W) :
  tidy d c st (snd run) -> tidyRun d c st run.
Proof. intros (Hp & He). split; [exact He|]. intros _. exact Hp. Qed.

Lemma tidyRun_bind {W A B} (c : M W A) (k : A -> M W B) st d1 c1 d2 c2 d' c' :
  tidy d1 c1 st (snd (c st)) ->
  (forall a, fst (c st) = Resolved a -> tidyRun d2 c2 (snd (c st)) (k a (snd (c st)))) ->
  (d1 + d2 <= d')%nat -> (c1 + c2 <= c')%nat ->
  tidyRun d' c' st (bind c k st).
Proof.
  intros Hc Hk Hd Hcc. rewrite bind_run. destruct (fst (c st)) as [a|err|] eqn:Ho.
  - destruct Hc as (P1 & e1 & T1 & D1 & C1 & X1).
    destruct (Hk a eq_refl) as ((e2 & T2 & D2 & C2 & X2) & P2). split.
    + exists (e1 ++ e2). rewrite !countEvents_app.
      split; [rewrite T2, T1, <- app_assoc; reflexivity|]. repeat split; lia.
    + intros Hn. rewrite (P2 Hn). exact P1.
  - apply tidyRun_of_tidy. cbn [snd].
    eapply tidy_trans; [exact Hc|apply (tidy_refl _ 0 0)|lia|lia].
  - apply tidyRun_of_tidy. cbn [snd].
    eapply tidy_trans; [exact Hc|apply (tidy_refl _ 0 0)|lia|lia].
Qed.

(** X19.  Whatever the remote host answers and wherever the run ends,
    [setup] first reports that it is identifying the remote system, then
    downloads the Node.js archive at most once, copies at most two archives
    to the remote and never runs more extractions than it made copies; and
    the port of the connection is written only by a setup that completes. *)
Theorem setup_is_tidy_on_every_host {W} (host : Host W) (st : St W) :
  (exists events,
     trace (snd (setup host st)) = trace st ++ EvReport "Identifying remote system..." :: events /\
     (countEvents isDownload events <= 1)%nat /\
     (countEvents isCopy events <= 2)%nat /\
     (countEvents isExtraction events <= countEvents isCopy events)%nat) /\
  (fst (setup host st) <> Resolved tt -> remotePort (snd (setup host st)) = remotePort st).
Proof.
  unfold setup. rewrite bind_resolved with (a := tt) by reflexivity.
  set (st0 := snd (report "Identifying remote system..." st)).
  assert (Hrun : forall rest : M W unit, tidyRun 1 2 st0 (rest st0) ->
            (exists events,
               trace (snd (rest st0)) =
                 trace st ++ EvReport "Identifying remote system..." :: events /\
               (countEvents isDownload events <= 1)%nat /\
               (countEvents isCopy events <= 2)%nat /\
               (countEvents isExtraction events <= countEvents isCopy events)%nat) /\
            (fst (rest st0) <> Resolved tt -> remotePort (snd (rest st0)) = remotePort st)).
  { intros rest ((events & Ht & Hd & Hc & Hx) & Hp). split.
    - exists events. split; [|repeat split; assumption].
      rewrite Ht. subst st0. cbn [report snd emit trace]. rewrite <- app_assoc. reflexivity.
    - intros Hn. rewrite Hp; [reflexivity|]. intros []. exact Hn. }
  apply (Hrun (fun st0 => _ st0)). clear Hrun. generalize st0. clear st0 st. intros st.
  apply (tidyRun_bind _ _ _ 0 0 1 2); [apply tidy_detectRemotePlatform| |lia|lia].
  intros platform _. set (st1 := snd _). clearbody st1.
  apply (tidyRun_bind _ _ _ 0 0 1 2); [apply tidy_getRemoteHomeDirectory| |lia|lia].
  intros remoteHome _. set (st2 := snd _). clearbody st2. cbn zeta.
  apply (tidyRun_bind _ _ _ 0 0 1 2); [apply tidy_mkdirRemote| |lia|lia].
  intros _ _. set (st3 := snd _). clearbody st3.
  apply (tidyRun_bind _ _ _ 0 0 1 2); [apply tidy_dirExistsRemote| |lia|lia].
  intros nodeDirExists _. set (st4 := snd _). clearbody st4.
  apply (tidyRun_bind _ _ _ 1 1 0 1); [| |lia|lia].
  { destruct (negb nodeDirExists); [|apply tidy_refl].
    apply (tidy_bind _ _ _ 0 0 1 1); [apply tidy_report| |lia|lia]. intros _ _.
    apply (tidy_bind _ _ _ 1 0 0 1); [apply tidy_downloadNode| |lia|lia]. intros nodeArchive _.
    apply tidy_copy_then_unzip. set (st5 := snd (downloadNode _ _ _)). clearbody st5.
    eexists. unfold copy.
    destruct (sftp_fastPut host _ _ (world st5)) as [[err|] w]; cbn [snd setWorld emit trace remotePort];
      repeat split; reflexivity. }
  intros _ _. set (st5 := snd _). clearbody st5.
  apply (tidyRun_bind _ _ _ 0 0 0 1); [apply tidy_report| |lia|lia].
  intros _ _. set (st6 := snd _). clearbody st6.
  apply (tidyRun_bind _ _ _ 0 0 0 1); [apply tidy_dirExistsRemote| |lia|lia].
  intros libDirExists _. set (st7 := snd _). clearbody st7.
  apply (tidyRun_bind _ _ _ 0 1 0 0); [| |lia|lia].
  { destruct (negb libDirExists); [|apply tidy_refl].
    apply tidy_copy_then_unzip.
    eexists.
    destruct (copyToRemote host _ _ (world st7)) as [r w]; cbn [snd setWorld emit trace remotePort].
    repeat split; reflexivity. }
  intros _ _. set (st8 := snd _). clearbody st8.
  apply (tidyRun_bind _ _ _ 0 0 0 0); [apply tidy_report| |lia|lia].
  intros _ _. set (st9 := snd _). clearbody st9.
  apply (tidyRun_bind _ _ _ 0 0 0 0); [apply tidy_startApplication| |lia|lia].
  intros port Hport. split.
  - exists []. rewrite app_nil_r. unfold countEvents. cbn. repeat split; lia.
  - intros Hn. exfalso. apply (Hn tt). reflexivity.
Qed.

(** *** The setup of a host that is already provisioned *)






(** ** The frontend: quick picks, commands and the status bar *)

Lemma pickedIds_quickPicksFrom commands : forall previous,
  pickedIds (quickPicksFrom previous commands) = map command_id commands.
Proof.
  induction commands as [|command rest IH]; intros previous; [reflexivity|].
  cbn [quickPicksFrom]. destruct (sameCategory previous (command_category command));
    cbn [pickedIds flat_map app map]; f_equal; apply IH.
Qed.

(** X20.  The quick pick of [selectRemote] offers the commands it is given,
    each once and in their order, and every separator in it heads a group
    that is not empty: it is directly followed by the item of a command of
    the category the separator is labelled with. *)
Theorem quickPicks_are_grouped_commands (previous : option string) (commands : list Command) :
  pickedIds (quickPicksFrom previous commands) = map command_id commands /\
  forall i label,
    quickPicksFrom previous commands !! i = Some (QuickPickSeparator label) ->
    exists command,
      command ∈ commands /\ command_category command = label /\
      quickPicksFrom previous commands !! S i =
        Some (QuickPickItem (command_label command) (command_id command)).
Proof.
  split; [apply pickedIds_quickPicksFrom|].
  revert previous. induction commands as [|command rest IH]; intros previous i label.
  - intros H. discriminate.
  - cbn [quickPicksFrom]. destruct (sameCategory previous (command_category command)).
    + destruct i as [|i]; [discriminate|]. cbn [lookup list_lookup]. intros H.
      destruct (IH previous i label H) as (c & Hc & Hcat & Hnext).
      exists c. split; [apply elem_of_cons; right; exact Hc|]. split; assumption.
    + destruct i as [|[|i]].
      * intros H. injection H as <-. exists command.
        split; [apply elem_of_cons; left; reflexivity|]. split; reflexivity.
      * discriminate.
      * cbn [lookup list_lookup]. intros H.
        destruct (IH (command_category command) i label H) as (c & Hc & Hcat & Hnext).
        exists c. split; [apply elem_of_cons; right; exact Hc|]. split; assumption.
Qed.

Lemma registerRemoteCommands_books contribution : forall fe,
  fe_connected (registerRemoteCommands contribution fe) = fe_connected fe /\
  fe_remoteCommands (registerRemoteCommands contribution fe) =
    fe_remoteCommands fe ++ map fst contribution /\
  registeredIds (registerRemoteCommands contribution fe) =
    registeredIds fe ++ map (fun call => command_id (fst call)) contribution.
Proof.
  unfold registerRemoteCommands.
  induction contribution as [|call contribution IH]; intros fe.
  - cbn [fold_left map]. rewrite !app_nil_r. repeat split.
  - cbn [fold_left map]. destruct (IH (registerCommand [onDidRegisterCommand] (fst call) (snd call) fe))
      as (H1 & H2 & H3).
    rewrite H1, H2, H3. unfold registerCommand, onDidRegisterCommand, commands_registerCommand,
      registeredIds.
    cbn [fold_left fe_connected fe_remoteCommands fe_commandRegistry].
    rewrite map_app, <- !app_assoc. repeat split.
Qed.

Lemma registerContributions_books contributions : forall fe,
  let fe' := fold_left (fun fe contribution => registerRemoteCommands contribution fe)
                       contributions fe in
  fe_connected fe' = fe_connected fe /\
  fe_remoteCommands fe' = fe_remoteCommands fe ++ map fst (concat contributions) /\
  registeredIds fe' =
    registeredIds fe ++ map (fun call => command_id (fst call)) (concat contributions).
Proof.
  induction contributions as [|contribution contributions IH]; intros fe; cbn zeta.
  - cbn [fold_left concat map]. rewrite !app_nil_r. repeat split.
  - cbn [fold_left concat]. destruct (IH (registerRemoteCommands contribution fe)) as (H1 & H2 & H3).
    destruct (registerRemoteCommands_books contribution fe) as (G1 & G2 & G3).
    rewrite H1, H2, H3, G1, G2, G3, !map_app, <- !app_assoc. repeat split.
Qed.

(** X21.  After [registerCommands] the remote registry holds the commands
    of the contributions, in the order they were registered, and whatever
    [selectRemote] then offers, connected or not, is a command the command
    registry was given. *)
Theorem selectRemote_offers_registered_commands (connected : bool)
        (contributions : list RemoteRegistryContribution) (id : string) :
  let fe := registerCommands contributions (newFrontend connected) in
  fe_remoteCommands fe = map fst (concat contributions) /\
  (id ∈ pickedIds (selectRemote fe) -> id ∈ registeredIds fe).
Proof.
  intros fe. subst fe. unfold registerCommands.
  destruct (registerContributions_books contributions (newFrontend connected)) as (H1 & H2 & H3).
  cbn zeta in H1, H2, H3.
  set (fe1 := fold_left _ contributions (newFrontend connected)) in *.
  unfold selectRemote, registeredIds, commands_registerCommand in *.
  cbn [fe_connected fe_remoteCommands fe_commandRegistry newFrontend app] in *.
  split; [exact H2|].
  rewrite pickedIds_quickPicksFrom, !map_app, H1, H3. cbn [map fst command_id REMOTE_SELECT
    REMOTE_DISCONNECT app]. intros Hin.
  destruct connected.
  - cbn [map] in Hin. apply list_elem_of_singleton in Hin. subst id.
    rewrite !elem_of_app. right. apply list_elem_of_singleton. reflexivity.
  - rewrite !elem_of_app. left. left. rewrite H2 in Hin.
    rewrite map_map in Hin. exact Hin.
Qed.

Lemma length_substring_le s : forall start len,
  (String.length (substring start len s) <= len)%nat.
Proof.
  induction s as [|c s IH]; intros start len.
  - destruct start, len; cbn; lia.
  - destruct start as [|start]; cbn [substring].
    + destruct len as [|len]; cbn [String.length]; [lia|]. specialize (IH 0%nat len). lia.
    + apply IH.
Qed.

Lemma length_append a b : String.length (a +:+ b) = (String.length a + String.length b)%nat.
Proof.
  induction a as [|c a IH]; [reflexivity|].
  change (String c a +:+ b) with (String c (a +:+ b)). cbn [String.length]. rewrite IH. reflexivity.
Qed.

Lemma dispatch_foreign_never_answers ex conns layers req body :
  forallb isForeign layers = true -> dispatch ex conns layers req <> AnsweredLocally body.
Proof.
  intros Hf. destruct (passedOn ex layers req) eqn:Hp.
  - pose proof (proj1 (dispatch_foreign ex conns layers [] req Hf) Hp) as H.
    rewrite app_nil_r in H. rewrite H. discriminate.
  - destruct (proj2 (dispatch_foreign ex conns layers [] req Hf) Hp) as [ref H].
    rewrite app_nil_r in H. rewrite H. discriminate.
Qed.

(** X22.  The status bar of a window tells the session of its cookie: on
    an application that serves static files, once the layers ahead of the
    status route have passed the status request on, the frontend shows
    itself connected exactly when the cookie of the request is the id of a
    registered connection, and then the entry names that connection, by its
    type and by at most 33 characters of its name. *)
Theorem status_bar_tells_the_session (names : list string) (ex : Express) (b : Backend)
        (req : Request) (fe : Frontend) :
  servesStatic names = true ->
  reachable names b ->
  isStatusRequest ex req = true ->
  passedOn ex (aheadOfStatus (routerStack b)) req = true ->
  exists fe',
    RemoteFrontendContribution_configure (serve ex b req) fe = Some fe' /\
    fe_connected fe' =
      match req_remoteId req with
      | Some remoteId => isConnectionAlive remoteId b
      | None => false
      end /\
    (forall remoteId remote,
        req_remoteId req = Some remoteId -> connections b !! remoteId = Some remote ->
        exists shown,
          option_map entry_text (fe_remoteInfo fe') =
            Some ("$(codicon-remote) " +:+ remote_type remote +:+ ": " +:+ shown) /\
          (String.length shown <= 33)%nat /\
          ((String.length (remote_name remote) <= 30)%nat -> shown = remote_name remote)) /\
    (fe_connected fe' = false ->
     option_map entry_text (fe_remoteInfo fe') = Some "$(codicon-remote)").
Proof.
  intros Hstatic Hreach Hstatus Hpassed.
  destruct (reachable_shaped names b Hstatic Hreach)
    as (sessions & pre & static & status & post & Hb).
  destruct (serve_shaped ex b sessions pre static status post req Hb) as (Hahead & _ & Hserve).
  rewrite Hahead in Hpassed. rewrite (Hserve Hpassed), Hstatus.
  cbn [RemoteFrontendContribution_configure]. eexists. split; [reflexivity|].
  pose proof (sh_book _ _ _ _ _ _ Hb) as Hbook.
  assert (Hempty : connections b !! "" = None).
  { destruct (connections b !! "") as [remote|] eqn:E; [|reflexivity].
    apply (bk_connections _ _ _ _ _ Hbook) in E as (s & Hs & Hid & _).
    pose proof (bk_named _ _ _ _ _ Hbook) as Hnamed. rewrite Forall_forall in Hnamed.
    exfalso. apply (Hnamed s Hs). exact Hid. }
  unfold statusHandler, isConnectionAlive.
  destruct (req_remoteId req) as [remoteId|]; [|split; [reflexivity|split; [discriminate|reflexivity]]].
  destruct (truthy remoteId) eqn:Htruthy.
  - destruct (connections b !! remoteId) as [remote|] eqn:Hconn.
    + cbn [setStatusBar fe_connected fe_remoteInfo option_map entry_text]. split; [reflexivity|].
      split; [|discriminate].
      intros remoteId' remote' Hid Hconn'. injection Hid as <-. rewrite Hconn in Hconn'.
      injection Hconn' as <-. exists (shownName (remote_name remote)). split; [reflexivity|].
      unfold shownName. destruct (30 <? String.length (remote_name remote))%nat eqn:Hlong.
      * split.
        -- rewrite length_append. pose proof (length_substring_le (remote_name remote) 0 30) as Hle.
           cbn [String.length]. lia.
        -- apply Nat.ltb_lt in Hlong. lia.
      * apply Nat.ltb_ge in Hlong. split; [lia|reflexivity].
    + cbn [setStatusBar fe_connected fe_remoteInfo option_map entry_text]. split; [reflexivity|].
      split; [|reflexivity]. intros remoteId' remote' Hid Hconn'. injection Hid as <-. congruence.
  - apply truthy_false in Htruthy. subst remoteId. rewrite Hempty.
    cbn [setStatusBar fe_connected fe_remoteInfo option_map entry_text]. split; [reflexivity|].
    split; [|reflexivity]. intros remoteId' remote' Hid Hconn'. injection Hid as <-. congruence.
Qed.

Lemma status_bar_tells_the_session_witness :
  exists fe',
    RemoteFrontendContribution_configure
      (serve plainExpress twoSessions (mkRequest "GET" "/remote/status" (Some "s1")))
      (newFrontend false) = Some fe' /\
    fe_connected fe' = true /\
    option_map entry_text (fe_remoteInfo fe') = Some "$(codicon-remote) SSH: build.example.org".
Proof.
  destruct (status_bar_tells_the_session exampleApp plainExpress twoSessions
              (mkRequest "GET" "/remote/status" (Some "s1")) (newFrontend false)
              eq_refl twoSessions_reachable eq_refl eq_refl)
    as (fe' & Hconfigure & Hconnected & Hentry & _).
  exists fe'. split; [exact Hconfigure|]. split; [exact Hconnected|].
  destruct (Hentry "s1" firstRemote eq_refl eq_refl) as (shown & Htext & _ & Hshort).
  rewrite Htext, (Hshort ltac:(vm_compute; lia)). reflexivity.
Defined.

(** X23.  On an application whose static-file layer the loop of
    [spliceRouter] does not reach (there is none, or it is the last layer)
    the contribution is not in the router stack at all: whatever sessions
    are established, no request is ever forwarded to a remote, and none is
    answered by the status route. *)
Theorem no_remote_routes_without_static (names : list string) (ex : Express) (b : Backend)
        (req : Request) :
  servesStatic names = false ->
  reachable names b ->
  routerStack b = foreignStack 0 names /\
  (forall port, serve ex b req <> Forwarded port) /\
  (forall body, serve ex b req <> AnsweredLocally body).
Proof.
  intros Hstatic Hreach.
  destruct (reachable_flat names b Hstatic Hreach) as (sessions & Hb).
  pose proof (fl_stack _ _ _ Hb) as Hstack. split; [exact Hstack|].
  unfold serve. rewrite Hstack. split.
  - intros port. apply dispatch_foreign_only, foreignStack_foreign.
  - intros body. apply dispatch_foreign_never_answers, foreignStack_foreign.
Qed.

Lemma no_remote_routes_without_static_witness :
  routerStack bareSession = foreignStack 0 bareApp /\
  (forall port, serve plainExpress bareSession (mkRequest "GET" "/" (Some "s1")) <> Forwarded port) /\
  (forall body, serve plainExpress bareSession (mkRequest "GET" "/" (Some "s1")) <>
                AnsweredLocally body).
Proof.
  apply (no_remote_routes_without_static bareApp plainExpress bareSession
           (mkRequest "GET" "/" (Some "s1"))).
  - reflexivity.
  - apply reach_step; [apply reach_configured|].
    cbn [enabled]. split; [discriminate|]. split; [reflexivity|]. split; [reflexivity|].
    apply not_elem_of_empty.
Defined.

(** ** [retry] and failures *)

Lemma retry_loop_failure {W} (action : M W RemoteExecResult) n : forall st c result i o,
  attempts n action st !! i = Some o ->
  (forall r, o <> Resolved r) ->
  (forall j o', (j < i)%nat -> attempts n action st !! j = Some o' -> isSilent o' = true) ->
  fst (retry_loop n (counted action) result (counting c st)) = o /\
  calls (snd (retry_loop n (counted action) result (counting c st))) = (c + S i)%nat.
Proof.
  induction n as [|n IH]; intros st c result i o Hi Ho Hsilent.
  - cbn [attempts] in Hi. rewrite lookup_nil in Hi. discriminate.
  - rewrite retry_loop_S, counted_run. cbn [attempts] in Hi, Hsilent.
    destruct (action st) as [o0 st'] eqn:Hact. cbn [fst snd].
    destruct i as [|i].
    + cbn in Hi. injection Hi as ->.
      destruct o as [r|err|]; [exfalso; apply (Ho r); reflexivity| |];
        cbn [fst snd]; unfold calls, counting; cbn [world snd]; split; (reflexivity || lia).
    + cbn in Hi.
      pose proof (Hsilent O o0 ltac:(lia) eq_refl) as H0.
      destruct o0 as [r|err|]; [|discriminate|discriminate].
      cbn [isSilent] in H0. apply negb_true_iff in H0. rewrite H0.
      destruct (IH st' (S c) r i o Hi Ho) as [H1 H2].
      { intros j o' Hj Ho'. apply (Hsilent (S j) o'); [lia|exact Ho']. }
      split; [exact H1|lia].
Qed.

(** X24.  [retry] repeats silence, not failure: when a call of the action
    is rejected, or never settles, after nothing but silent calls, [retry]
    ends there with that outcome and calls the action no more. *)
Theorem retry_never_repeats_a_failure {W} (action : M W RemoteExecResult) (st : St W)
        (i : nat) (o : Outcome RemoteExecResult) :
  attempts 20 action st !! i = Some o ->
  (forall r, o <> Resolved r) ->
  (forall j o', (j < i)%nat -> attempts 20 action st !! j = Some o' -> isSilent o' = true) ->
  fst (retry (counted action) retry_times (withCounter st)) = o /\
  calls (snd (retry (counted action) retry_times (withCounter st))) = S i.
Proof.
  intros Hi Ho Hsilent. unfold retry, retry_times, withCounter.
  change (Z.to_nat 20) with 20%nat.
  destruct (retry_loop_failure action 20 st 0 emptyResult i o Hi Ho Hsilent) as [H1 H2].
  split; [exact H1|]. rewrite H2. lia.
Qed.

Lemma retry_never_repeats_a_failure_witness :
  fst (retry (counted (exec (scriptedHost (failingAfter 2)) "uname -s" []))
             retry_times (withCounter (startOf 0))) = Rejected "Channel open failure" /\
  calls (snd (retry (counted (exec (scriptedHost (failingAfter 2)) "uname -s" []))
                    retry_times (withCounter (startOf 0)))) = 3%nat.
Proof.
  apply (retry_never_repeats_a_failure (exec (scriptedHost (failingAfter 2)) "uname -s" [])
           (startOf 0) 2 (Rejected "Channel open failure")).
  - reflexivity.
  - discriminate.
  - intros [|[|j]] o' Hj Ho'; [| |lia]; vm_compute in Ho'; injection Ho' as <-; reflexivity.
Defined.

(** ** [execPartial], turn by turn *)
















